(** * Ripay backend: plan catalog, subscription resolver, referral ledger,
      client profiles and token codec, embedded from the JavaScript sources.

    Conventions of the embedding.
    - JavaScript strings are [string]s of 8-bit characters (the UTF-8 bytes
      of the text); [toLowerCase], [toUpperCase] and [trim] act on the ASCII
      range, which is where every literal of the program lives.
    - Instants ([Date], [Date.now()]) are epoch milliseconds in [Z]. The
      handlers are embedded for a process whose local time zone is UTC and
      for dates a month or a year before the end of the range of [Date];
      [addMonthsIn] and [addPlanIntervalIn] are the two date functions for
      any zone of fixed offset, the Invalid Date included.
    - A handler reads the clock once: the reading is the argument [now].
    - Database tables are lists of rows in storage order; generated row
      ids come from a counter kept in the database state. *)

From Stdlib Require Import Bool Arith ZArith NArith List String Ascii Lia.
Import ListNotations.
Open Scope string_scope.
Open Scope Z_scope.

(* ================================================================== *)
(** * Part I: definitions                                              *)
(* ================================================================== *)

(** ** The JavaScript string primitives used by the handlers *)

Module JS.

Definition isUpper (c : ascii) : bool :=
  let n := nat_of_ascii c in (65 <=? n)%nat && (n <=? 90)%nat.

Definition isLower (c : ascii) : bool :=
  let n := nat_of_ascii c in (97 <=? n)%nat && (n <=? 122)%nat.

Definition lowerChar (c : ascii) : ascii :=
  if isUpper c then ascii_of_nat (nat_of_ascii c + 32) else c.

Definition upperChar (c : ascii) : ascii :=
  if isLower c then ascii_of_nat (nat_of_ascii c - 32) else c.

Fixpoint mapChars (f : ascii -> ascii) (s : string) : string :=
  match s with
  | EmptyString => EmptyString
  | String c r => String (f c) (mapChars f r)
  end.

(** [String.prototype.toLowerCase] / [toUpperCase]. *)
Definition toLowerCase (s : string) : string := mapChars lowerChar s.
Definition toUpperCase (s : string) : string := mapChars upperChar s.

(** White space removed by [String.prototype.trim]: TAB, LF, VT, FF, CR
    and SPACE. *)
Definition isWhiteSpace (c : ascii) : bool :=
  let n := nat_of_ascii c in
  ((9 <=? n)%nat && (n <=? 13)%nat) || (n =? 32)%nat.

Fixpoint trimStart (s : string) : string :=
  match s with
  | EmptyString => EmptyString
  | String c r => if isWhiteSpace c then trimStart r else s
  end.

Fixpoint trimEnd (s : string) : string :=
  match s with
  | EmptyString => EmptyString
  | String c r =>
      match trimEnd r with
      | EmptyString => if isWhiteSpace c then EmptyString else String c EmptyString
      | r' => String c r'
      end
  end.

Definition trim (s : string) : string := trimEnd (trimStart s).

(** [s.includes(search)]. *)
Fixpoint includes (s search : string) : bool :=
  if String.prefix search s then true
  else match s with
       | EmptyString => false
       | String _ r => includes r search
       end.

Definition startsWith (s search : string) : bool := String.prefix search s.

(** The character does not occur in the string. *)
Fixpoint lacks (c : ascii) (s : string) : bool :=
  match s with
  | EmptyString => true
  | String d r => negb (Ascii.eqb d c) && lacks c r
  end.

(** A JavaScript string is truthy when it is not empty. *)
Definition truthy (s : string) : bool := negb (s =? "")%string.

(** [s.split(sep)] for a one-character separator: the pieces between the
    separators, always at least one piece. *)
Fixpoint split (sep : ascii) (s : string) : list string :=
  match s with
  | EmptyString => [EmptyString]
  | String c r =>
      if Ascii.eqb c sep then EmptyString :: split sep r
      else match split sep r with
           | p :: ps => String c p :: ps
           | [] => [String c EmptyString]
           end
  end.

(** [String(n)] for an integer. *)
Fixpoint digitsOf (fuel : nat) (n : N) (acc : string) : string :=
  match fuel with
  | O => acc
  | S f =>
      let acc' := String (ascii_of_N (48 + n mod 10)) acc in
      if (n / 10 =? 0)%N then acc' else digitsOf f (n / 10)%N acc'
  end.

Definition decimal (n : N) : string := digitsOf (S (N.to_nat (N.log2 n))) n "".

Definition numberToString (z : Z) : string :=
  if (z <? 0)%Z then "-" ++ decimal (Z.to_N (- z)) else decimal (Z.to_N z).

Fixpoint repeatChar (c : ascii) (n : nat) : string :=
  match n with
  | O => EmptyString
  | S k => String c (repeatChar c k)
  end.

(** [s.padStart(targetLength, c)] for a one-character pad. *)
Definition padStart (targetLength : nat) (c : ascii) (s : string) : string :=
  repeatChar c (targetLength - String.length s) ++ s.

Definition isDigit (c : ascii) : bool :=
  let n := nat_of_ascii c in (48 <=? n)%nat && (n <=? 57)%nat.

Fixpoint allDigits (s : string) : bool :=
  match s with
  | EmptyString => true
  | String c r => isDigit c && allDigits r
  end.

Fixpoint filterChars (p : ascii -> bool) (s : string) : string :=
  match s with
  | EmptyString => EmptyString
  | String c r => if p c then String c (filterChars p r) else filterChars p r
  end.

(** [s.slice(0, n)]. *)
Definition slice0 (n : nat) (s : string) : string := String.substring 0 n s.

(** The pattern [/^[^\s@]+@[^\s@]+\.[^\s@]+$/] that every handler uses
    to validate an email: no white space, exactly one [@] with a
    non-empty local part, and a dot strictly inside the domain. *)
Fixpoint noWhiteSpace (s : string) : bool :=
  match s with
  | EmptyString => true
  | String c r => negb (isWhiteSpace c) && noWhiteSpace r
  end.

Fixpoint dotBeforeLast (s : string) : bool :=
  match s with
  | EmptyString => false
  | String c r =>
      match r with
      | EmptyString => false
      | String _ _ => Ascii.eqb c "." || dotBeforeLast r
      end
  end.

Definition matchesEmailPattern (s : string) : bool :=
  match split "@" s with
  | [localPart; domain] =>
      noWhiteSpace s && truthy localPart
      && match domain with
         | EmptyString => false
         | String _ r => dotBeforeLast r
         end
  | _ => false
  end.

End JS.

(** ** _plans.js: the plan catalog *)

Inductive Tier := free | personal | business.

Definition tierName (t : Tier) : string :=
  match t with free => "free" | personal => "personal" | business => "business" end.

Record PlanFeatures := {
  pf_tier : Tier;
  pf_label : string;
  pf_dailyOrderLimit : option Z;
  pf_weeklyOrderLimit : option Z;
  pf_retentionHours : Z;
  pf_seatLimit : Z;
  pf_orderEmailNotifications : bool
}.

Definition PLAN_FEATURES (t : Tier) : PlanFeatures :=
  match t with
  | free =>
      {| pf_tier := free; pf_label := "Free";
         pf_dailyOrderLimit := Some 2; pf_weeklyOrderLimit := Some 10;
         pf_retentionHours := 12; pf_seatLimit := 1;
         pf_orderEmailNotifications := false |}
  | personal =>
      {| pf_tier := personal; pf_label := "Personal";
         pf_dailyOrderLimit := None; pf_weeklyOrderLimit := None;
         pf_retentionHours := 24 * 7; pf_seatLimit := 1;
         pf_orderEmailNotifications := true |}
  | business =>
      {| pf_tier := business; pf_label := "Business";
         pf_dailyOrderLimit := None; pf_weeklyOrderLimit := None;
         pf_retentionHours := 24 * 60; pf_seatLimit := 3;
         pf_orderEmailNotifications := true |}
  end.

Definition getPlanFeatures (t : Tier) : PlanFeatures := PLAN_FEATURES t.

Definition normalizePlan (plan : string) : string :=
  JS.toLowerCase (JS.trim plan).

Definition getTierRank (tier : Tier) : Z :=
  match tier with
  | business => 3
  | personal => 2
  | free => 1
  end.

Definition getTierFromPlan (plan : string) : Tier :=
  let normalized := normalizePlan plan in
  if negb (JS.truthy normalized) then free
  else if JS.includes normalized "business" then business
  else if JS.includes normalized "personal"
          || (normalized =? "monthly")%string
          || (normalized =? "annual")%string
          || JS.includes normalized "referral"
       then personal
  else free.

Definition pickBestTier (currentTier nextTier : Tier) : Tier :=
  if getTierRank nextTier >? getTierRank currentTier then nextTier else currentTier.

(** The tier resolution as the specification words it: the input is
    lowercased (and nothing else) before the tests. *)
Definition tierFromPlanString_spec (plan : string) : Tier :=
  let lowered := JS.toLowerCase plan in
  if JS.includes lowered "business" then business
  else if JS.includes lowered "personal"
          || (lowered =? "monthly")%string
          || (lowered =? "annual")%string
          || JS.includes lowered "referral"
       then personal
  else free.

(** ** The [Date] primitives used by the handlers (UTC) *)

Module JSDate.

Definition msPerDay : Z := 86400000.

Definition Day (t : Z) : Z := t / msPerDay.
Definition TimeWithinDay (t : Z) : Z := t mod msPerDay.

(** Day number (days since 1970-01-01) of the civil date [y]-[m]-[d],
    with [m] in 1..12, in the proleptic Gregorian calendar. *)
Definition daysFromCivil (y m d : Z) : Z :=
  let y' := if m <=? 2 then y - 1 else y in
  let era := y' / 400 in
  let yoe := y' - era * 400 in
  let mp := if 2 <? m then m - 3 else m + 9 in
  let doy := (153 * mp + 2) / 5 + d - 1 in
  let doe := yoe * 365 + yoe / 4 - yoe / 100 + doy in
  era * 146097 + doe - 719468.

(** Civil date (year, month 1..12, day of month) of a day number. *)
Definition civilFromDays (z : Z) : Z * Z * Z :=
  let z' := z + 719468 in
  let era := z' / 146097 in
  let doe := z' - era * 146097 in
  let yoe := (doe - doe / 1460 + doe / 36524 - doe / 146096) / 365 in
  let doy := doe - (365 * yoe + yoe / 4 - yoe / 100) in
  let mp := (5 * doy + 2) / 153 in
  let d := doy - (153 * mp + 2) / 5 + 1 in
  let m := if mp <? 10 then mp + 3 else mp - 9 in
  let y := yoe + era * 400 in
  (if m <=? 2 then y + 1 else y, m, d).

Definition getFullYear (t : Z) : Z := let '(y, _, _) := civilFromDays (Day t) in y.
(** Months are numbered from 0, as in JavaScript. *)
Definition getMonth (t : Z) : Z := let '(_, m, _) := civilFromDays (Day t) in m - 1.
Definition getDate (t : Z) : Z := let '(_, _, d) := civilFromDays (Day t) in d.
(** 0 is Sunday; 1970-01-01 was a Thursday. *)
Definition getDay (t : Z) : Z := (Day t + 4) mod 7.

(** [MakeDay(year, month, date)] of ECMA-262: the month may lie outside
    0..11 and the date outside the month; both carry over. *)
Definition MakeDay (year month date : Z) : Z :=
  let ym := year + month / 12 in
  let mn := month mod 12 in
  daysFromCivil ym (mn + 1) 1 + date - 1.

Definition MakeDate (day time : Z) : Z := day * msPerDay + time.

(** [d.setMonth(month)]: the instant with the month replaced. *)
Definition setMonth (t month : Z) : Z :=
  MakeDate (MakeDay (getFullYear t) month (getDate t)) (TimeWithinDay t).

(** [MakeFullYear] of ECMA-262: [Date.UTC] reads a year from 0 to 99 as a
    year of the twentieth century. *)
Definition MakeFullYear (year : Z) : Z :=
  if (0 <=? year) && (year <=? 99) then 1900 + year else year.

(** [Date.UTC(year, month, date)]. On the fields of a [Date] the value is
    again the time value of a [Date], so the final clipping is left out. *)
Definition UTC (year month date : Z) : Z :=
  MakeDate (MakeDay (MakeFullYear year) month date) 0.

(** A [Date] holds a time value of at most 100,000,000 days either side of
    the epoch; [TimeClip] turns any other into NaN (the Invalid Date),
    which is [None] here. *)
Definition maxTime : Z := 8640000000000000.

Definition TimeClip (time : Z) : option Z :=
  if Z.abs time <=? maxTime then Some time else None.

(** The local time zone of the process: the offset from UTC, in
    milliseconds, that is in force at a UTC instant and at a local time. *)
Record TimeZone := {
  offsetAtInstant : Z -> Z;
  offsetAtLocalTime : Z -> Z
}.

(** A zone that keeps one offset all year (no daylight saving); UTC is
    the one of offset 0. *)
Definition fixedZone (offset : Z) : TimeZone :=
  {| offsetAtInstant := fun _ => offset; offsetAtLocalTime := fun _ => offset |}.

Definition utc : TimeZone := fixedZone 0.

(** [LocalTime(t)] and its inverse, the abstract operation [UTC(t)]. *)
Definition LocalTime (zone : TimeZone) (t : Z) : Z := t + offsetAtInstant zone t.
Definition UTCOfLocal (zone : TimeZone) (t : Z) : Z := t - offsetAtLocalTime zone t.

(** [d.getMonth()] and [d.setMonth(month)] of a valid [Date] in the zone
    [zone]: the fields are those of the local time, and the new time value
    is clipped. *)
Definition getMonthIn (zone : TimeZone) (t : Z) : Z := getMonth (LocalTime zone t).

Definition setMonthIn (zone : TimeZone) (t month : Z) : option Z :=
  TimeClip (UTCOfLocal zone (setMonth (LocalTime zone t) month)).

End JSDate.

(** ** The database schema *)

Inductive PaymentGateway := INTERNAL | PAYPAL | REFERRAL.

Definition PaymentGateway_eqb (a b : PaymentGateway) : bool :=
  match a, b with
  | INTERNAL, INTERNAL | PAYPAL, PAYPAL | REFERRAL, REFERRAL => true
  | _, _ => false
  end.

Inductive InviteStatus := PENDING | REGISTERED | REWARDED.

Record User := {
  user_id : nat;
  user_email : string;
  user_name : string;
  user_emailVerifiedAt : option Z;
  user_createdAt : Z
}.

Record Subscription := {
  sub_id : nat;
  sub_userId : nat;
  sub_plan : string;
  sub_status : string;
  sub_gateway : PaymentGateway;
  sub_gatewaySubscriptionId : option string;
  sub_startedAt : Z;
  sub_nextBillingAt : option Z;
  sub_expiresAt : Z;
  sub_createdAt : Z
}.

Record ReferralInvite := {
  inv_id : nat;
  inv_referrerUserId : nat;
  inv_inviteeEmail : string;
  inv_inviteeUserId : option nat;
  inv_status : InviteStatus;
  inv_rewardedAt : option Z;
  inv_referralCode : string;
  inv_createdAt : Z
}.

Record ClientProfile := {
  cp_id : nat;
  cp_userId : nat;
  cp_clientId : string;
  cp_clientEmail : string;
  cp_clientName : option string;
  cp_createdAt : Z;
  cp_updatedAt : Z
}.

Record Order := {
  order_userId : nat;
  order_createdAt : Z
}.

Record Db := {
  db_users : list User;
  db_subscriptions : list Subscription;
  db_referralInvites : list ReferralInvite;
  db_clientProfiles : list ClientProfile;
  db_orders : list Order;
  db_nextId : nat
}.

Definition emptyDb : Db :=
  {| db_users := []; db_subscriptions := []; db_referralInvites := [];
     db_clientProfiles := []; db_orders := []; db_nextId := 1%nat |}.

Definition withUsers (db : Db) (us : list User) (next : nat) : Db :=
  {| db_users := us; db_subscriptions := db_subscriptions db;
     db_referralInvites := db_referralInvites db;
     db_clientProfiles := db_clientProfiles db;
     db_orders := db_orders db; db_nextId := next |}.

Definition withSubscriptions (db : Db) (ss : list Subscription) (next : nat) : Db :=
  {| db_users := db_users db; db_subscriptions := ss;
     db_referralInvites := db_referralInvites db;
     db_clientProfiles := db_clientProfiles db;
     db_orders := db_orders db; db_nextId := next |}.

Definition withReferralInvites (db : Db) (invs : list ReferralInvite) : Db :=
  {| db_users := db_users db; db_subscriptions := db_subscriptions db;
     db_referralInvites := invs;
     db_clientProfiles := db_clientProfiles db;
     db_orders := db_orders db; db_nextId := db_nextId db |}.

Definition withClientProfiles (db : Db) (ps : list ClientProfile) (next : nat) : Db :=
  {| db_users := db_users db; db_subscriptions := db_subscriptions db;
     db_referralInvites := db_referralInvites db;
     db_clientProfiles := ps;
     db_orders := db_orders db; db_nextId := next |}.

(** ** The query primitives of the ORM *)

Module Prisma.

(** [findFirst]: the first row, in the given order, that matches. *)
Definition findFirst {A} (p : A -> bool) (rows : list A) : option A :=
  List.find p rows.

(** [updateMany] (and [update] by unique key): rewrite the matching rows
    in place. *)
Definition updateMany {A} (p : A -> bool) (f : A -> A) (rows : list A) : list A :=
  map (fun r => if p r then f r else r) rows.

(** [orderBy]: a stable sort; [before a b] holds when [a] may stay in front
    of [b]. *)
Fixpoint insertSorted {A} (before : A -> A -> bool) (x : A) (l : list A) : list A :=
  match l with
  | [] => [x]
  | y :: r => if before x y then x :: l else y :: insertSorted before x r
  end.

Definition orderBy {A} (before : A -> A -> bool) (rows : list A) : list A :=
  fold_right (insertSorted before) [] rows.

End Prisma.

(** ** api/subscriptions.js *)

Module Subscriptions.

Inductive BillingCycle := monthly | annual.

Definition cycleName (c : BillingCycle) : string :=
  match c with monthly => "monthly" | annual => "annual" end.

(** What the PayPal REST API reports for a subscription; a field that is
    absent (or a date that does not parse) is [""] or [None]. *)
Record PayPalDetails := {
  pp_status : string;
  pp_plan_id : string;
  pp_start_time : option Z;
  pp_next_billing_time : option Z
}.

(** The environment of the process: the configured plan ids, the payment
    gateway (a failed call is [None]), and the one point of the ORM's
    filter semantics the handlers depend on: whether [{ not: v }] on a
    nullable column keeps the rows whose column is NULL. Prisma's does not
    (its [not] is the inequality of SQL, which a NULL never satisfies), so
    [false] is the value of a deployment. *)
Record Env := {
  PAYPAL_PLAN_ID_BUSINESS_ANNUAL : string;
  PAYPAL_PLAN_ID_BUSINESS_MONTHLY : string;
  PAYPAL_PLAN_ID_PERSONAL_ANNUAL : string;
  PAYPAL_PLAN_ID_ANNUAL : string;
  PAYPAL_PLAN_ID_PERSONAL_MONTHLY : string;
  PAYPAL_PLAN_ID_MONTHLY : string;
  fetchPayPalSubscription : string -> option PayPalDetails;
  notKeepsNull : bool
}.

Definition normalizeEmail (email : string) : string :=
  JS.toLowerCase (JS.trim email).

(** [a || b] on strings. *)
Definition orElse (a b : string) : string := if JS.truthy a then a else b.

Definition normalizePlanId (value : string) : string :=
  let raw := JS.trim value in
  if negb (JS.truthy raw) then ""
  else if JS.startsWith raw "P-" then raw else "P-" ++ raw.

Definition getPayPalPlanId (env : Env) (tier billingCycle : string) : string :=
  let safeTier := JS.toLowerCase (JS.trim (orElse tier "personal")) in
  let safeCycle := JS.toLowerCase (JS.trim (orElse billingCycle "monthly")) in
  if (safeTier =? "business")%string then
    if (safeCycle =? "annual")%string
    then normalizePlanId (PAYPAL_PLAN_ID_BUSINESS_ANNUAL env)
    else normalizePlanId (PAYPAL_PLAN_ID_BUSINESS_MONTHLY env)
  else if (safeCycle =? "annual")%string
  then normalizePlanId (orElse (PAYPAL_PLAN_ID_PERSONAL_ANNUAL env) (PAYPAL_PLAN_ID_ANNUAL env))
  else normalizePlanId (orElse (PAYPAL_PLAN_ID_PERSONAL_MONTHLY env) (PAYPAL_PLAN_ID_MONTHLY env)).

(** [addMonths] as the handlers run it: in a process whose local time zone
    is UTC, on dates whose month still lies within the range of [Date]. *)
Definition addMonths (dateInput months : Z) : Z :=
  JSDate.setMonth dateInput (JSDate.getMonth dateInput + months).

Definition addPlanInterval (date : Z) (billingCycle : string) : Z :=
  if (JS.toLowerCase billingCycle =? "annual")%string
  then addMonths date 12
  else addMonths date 1.

(** [addMonths] and [addPlanInterval] on a valid [Date] in any local time
    zone; [None] is the Invalid Date that [setMonth] leaves behind when the
    new time value is out of range. *)
Definition addMonthsIn (zone : JSDate.TimeZone) (dateInput months : Z) : option Z :=
  JSDate.setMonthIn zone dateInput (JSDate.getMonthIn zone dateInput + months).

Definition addPlanIntervalIn (zone : JSDate.TimeZone) (date : Z) (billingCycle : string)
  : option Z :=
  if (JS.toLowerCase billingCycle =? "annual")%string
  then addMonthsIn zone date 12
  else addMonthsIn zone date 1.

Definition mapPayPalStatusToLocal (paypalStatus : string) : string :=
  let status := JS.toUpperCase paypalStatus in
  if (status =? "ACTIVE")%string then "active"
  else if (status =? "APPROVAL_PENDING")%string then "pending"
  else if (status =? "SUSPENDED")%string then "suspended"
  else if (status =? "CANCELLED")%string || (status =? "EXPIRED")%string then "canceled"
  else if JS.truthy status then JS.toLowerCase status else "pending".

(** The status mapping as the specification words it. *)
Definition mapStatus_spec (paypalStatus : string) : string :=
  let status := JS.toUpperCase paypalStatus in
  if (status =? "ACTIVE")%string then "active"
  else if (status =? "APPROVAL_PENDING")%string then "pending"
  else if (status =? "SUSPENDED")%string then "suspended"
  else if (status =? "CANCELLED")%string || (status =? "EXPIRED")%string then "canceled"
  else JS.toLowerCase paypalStatus.

Definition parseDate (dateStr : option Z) (fallbackDate : Z) : Z :=
  match dateStr with
  | None => fallbackDate
  | Some parsed => parsed
  end.

Definition normalizeBillingCycle (input : string) : BillingCycle :=
  let value := JS.toLowerCase (JS.trim (orElse input "monthly")) in
  if (value =? "annual")%string then annual else monthly.

Definition normalizeTier (input : string) : Tier :=
  let value := JS.toLowerCase (JS.trim (orElse input "personal")) in
  if (value =? "business")%string then business
  else if (value =? "free")%string then free
  else personal.

Definition Tier_eqb (a b : Tier) : bool :=
  match a, b with
  | free, free | personal, personal | business, business => true
  | _, _ => false
  end.

Record ParsedPlan := { tier : Tier; billingCycle : BillingCycle }.

Definition parsePlanInput (planRaw tierRaw billingCycleRaw : string) : ParsedPlan :=
  let explicitTier := normalizeTier tierRaw in
  let explicitBilling := normalizeBillingCycle billingCycleRaw in
  let plan := JS.toLowerCase (JS.trim planRaw) in
  if (plan =? "monthly")%string || (plan =? "annual")%string then
    {| tier := if Tier_eqb explicitTier free then personal else explicitTier;
       billingCycle := if (plan =? "annual")%string then annual else monthly |}
  else if JS.includes plan "_" then
    let parts := JS.split "_" plan in
    {| tier := normalizeTier (nth 0 parts "");
       billingCycle := normalizeBillingCycle (nth 1 parts "") |}
  else if (plan =? "free")%string || (plan =? "personal")%string
          || (plan =? "business")%string then
    {| tier := normalizeTier plan; billingCycle := explicitBilling |}
  else
    {| tier := explicitTier; billingCycle := explicitBilling |}.

(** *** Users *)

Definition findUserByEmail (db : Db) (email : string) : option User :=
  Prisma.findFirst (fun u => (user_email u =? email)%string) (db_users db).

(** [getOrCreateUserByEmail]; [None] is the thrown "Missing email." *)
Definition getOrCreateUserByEmail (db : Db) (now : Z) (email : string)
  : option (User * Db) :=
  let normalizedEmail := normalizeEmail email in
  if negb (JS.truthy normalizedEmail) then None
  else match findUserByEmail db normalizedEmail with
       | Some user => Some (user, db)
       | None =>
           let user := {| user_id := db_nextId db;
                          user_email := normalizedEmail;
                          user_name := nth 0 (JS.split "@" normalizedEmail) "";
                          user_emailVerifiedAt := None;
                          user_createdAt := now |} in
           Some (user, withUsers db (db_users db ++ [user]) (S (db_nextId db)))
       end.

(** *** Reading and synchronising subscriptions *)

Definition isActive (s : Subscription) : bool := (sub_status s =? "active")%string.

Definition hasGatewayId (s : Subscription) : bool :=
  match sub_gatewaySubscriptionId s with
  | Some g => JS.truthy g
  | None => false
  end.

Definition byExpiresAtDescCreatedAtDesc (a b : Subscription) : bool :=
  (sub_expiresAt b <? sub_expiresAt a)
  || ((sub_expiresAt a =? sub_expiresAt b) && (sub_createdAt b <=? sub_createdAt a)).

Definition getCurrentActiveSubscriptions (db : Db) (now : Z) (userId : nat)
  : list Subscription :=
  Prisma.orderBy byExpiresAtDescCreatedAtDesc
    (filter (fun s =>
               (sub_userId s =? userId)%nat
               && isActive s
               && (sub_startedAt s <=? now)
               && ((now <? sub_expiresAt s)
                   || PaymentGateway_eqb (sub_gateway s) PAYPAL))
            (db_subscriptions db)).

(** [syncPayPalSubscription]; [None] is an error thrown by the gateway
    call, which leaves the database as it was. *)
Definition syncPayPalSubscription (env : Env) (db : Db) (subscription : Subscription)
  : option Db :=
  match sub_gatewaySubscriptionId subscription with
  | None => Some db
  | Some gid =>
      if negb (JS.truthy gid) then Some db
      else match fetchPayPalSubscription env gid with
           | None => None
           | Some details =>
               let mappedStatus := mapPayPalStatusToLocal (pp_status details) in
               let nextBillingAt :=
                 parseDate (pp_next_billing_time details)
                           (match sub_nextBillingAt subscription with
                            | Some t => t
                            | None => sub_expiresAt subscription
                            end) in
               Some (withSubscriptions db
                       (Prisma.updateMany
                          (fun s => (sub_id s =? sub_id subscription)%nat)
                          (fun s => {| sub_id := sub_id s; sub_userId := sub_userId s;
                                       sub_plan := sub_plan s;
                                       sub_status := mappedStatus;
                                       sub_gateway := sub_gateway s;
                                       sub_gatewaySubscriptionId := sub_gatewaySubscriptionId s;
                                       sub_startedAt := sub_startedAt s;
                                       sub_nextBillingAt := Some nextBillingAt;
                                       sub_expiresAt := nextBillingAt;
                                       sub_createdAt := sub_createdAt s |})
                          (db_subscriptions db))
                       (db_nextId db))
           end
  end.

Record Usage := { ordersToday : Z; ordersThisWeek : Z }.

Definition getUtcDayStart (dateInput : Z) : Z :=
  JSDate.UTC (JSDate.getFullYear dateInput) (JSDate.getMonth dateInput)
             (JSDate.getDate dateInput).

Definition getUtcWeekStart (dateInput : Z) : Z :=
  let dayStart := getUtcDayStart dateInput in
  let day := JSDate.getDay dayStart in
  let diffToMonday := if day =? 0 then 6 else day - 1 in
  dayStart - diffToMonday * 24 * 60 * 60 * 1000.

Definition countOrders (db : Db) (userId : nat) (since : Z) : Z :=
  Z.of_nat (List.length (filter (fun o => (order_userId o =? userId)%nat
                                     && (since <=? order_createdAt o))
                           (db_orders db))).

Definition countOrderUsage (db : Db) (now : Z) (userId : nat) : Usage :=
  let dayStart := getUtcDayStart now in
  let weekStart := getUtcWeekStart now in
  {| ordersToday := countOrders db userId dayStart;
     ordersThisWeek := countOrders db userId weekStart |}.

(** [resolveTierFromSubscriptions] of _plans.js: the loop state is the
    pair (tier, sourcePlan). *)
Definition resolveTierFromSubscriptions (subscriptions : list Subscription)
  : Tier * option string :=
  fold_left
    (fun (st : Tier * option string) subscription =>
       let nextTier := getTierFromPlan (sub_plan subscription) in
       if getTierRank nextTier >? getTierRank (fst st)
       then (nextTier,
             if JS.truthy (sub_plan subscription) then Some (sub_plan subscription) else None)
       else st)
    subscriptions (free, None).

(** One turn of the selection loop of [buildPlanStateForUser]; the loop
    variable [selectedSubscription] starts as [null]. *)
Definition selectStep (selectedSubscription : option Subscription)
           (subscription : Subscription) : option Subscription :=
  match selectedSubscription with
  | None => Some subscription
  | Some selected =>
      let currentTier := getTierFromPlan (sub_plan selected) in
      let nextTier := getTierFromPlan (sub_plan subscription) in
      if getTierRank nextTier >? getTierRank currentTier then Some subscription
      else if (getTierRank nextTier =? getTierRank currentTier)
              && (sub_expiresAt subscription >? sub_expiresAt selected)
      then Some subscription
      else Some selected
  end.

Definition selectSubscription (subscriptions : list Subscription) : option Subscription :=
  fold_left selectStep subscriptions None.

Record PlanState := {
  ps_tier : Tier;
  ps_subscription : option Subscription;
  ps_planFeatures : PlanFeatures;
  ps_usage : Usage
}.

(** The synchronisation loop: a failed sync is logged and skipped. *)
Definition syncAll (env : Env) (db : Db) (paypalSubs : list Subscription) : Db :=
  fold_left (fun d subscription =>
               match syncPayPalSubscription env d subscription with
               | Some d' => d'
               | None => d
               end)
            paypalSubs db.

Definition buildPlanStateForUser (env : Env) (db : Db) (now : Z) (userId : nat)
  : PlanState * Db :=
  let subscriptions := getCurrentActiveSubscriptions db now userId in
  let paypalSubs :=
    filter (fun s => PaymentGateway_eqb (sub_gateway s) PAYPAL && hasGatewayId s)
           subscriptions in
  let db' := match paypalSubs with
             | [] => db
             | _ => syncAll env db paypalSubs
             end in
  let subscriptions' := match paypalSubs with
                        | [] => subscriptions
                        | _ => getCurrentActiveSubscriptions db' now userId
                        end in
  let resolved := resolveTierFromSubscriptions subscriptions' in
  let planFeatures := getPlanFeatures (fst resolved) in
  let selectedSubscription := selectSubscription subscriptions' in
  let usage := countOrderUsage db' now userId in
  ({| ps_tier := fst resolved; ps_subscription := selectedSubscription;
      ps_planFeatures := planFeatures; ps_usage := usage |}, db').

(** *** The referral ledger *)

Definition byExpiresAtDesc (a b : Subscription) : bool :=
  sub_expiresAt b <=? sub_expiresAt a.

Definition getUserAccessEnd (db : Db) (userId : nat) (now : Z) : Z :=
  let existing :=
    Prisma.findFirst (fun _ => true)
      (Prisma.orderBy byExpiresAtDesc
         (filter (fun s => (sub_userId s =? userId)%nat
                           && isActive s
                           && (now <? sub_expiresAt s))
                 (db_subscriptions db))) in
  match existing with
  | None => now
  | Some existing => if now <? sub_expiresAt existing then sub_expiresAt existing else now
  end.

Definition createReferralBonusSubscription (db : Db) (userId : nat) (now : Z)
  : Subscription * Db :=
  let startsAt := getUserAccessEnd db userId now in
  let expiresAt := addMonths startsAt 1 in
  let row := {| sub_id := db_nextId db;
                sub_userId := userId;
                sub_plan := "personal_referral_bonus";
                sub_status := "active";
                sub_gateway := REFERRAL;
                sub_gatewaySubscriptionId := None;
                sub_startedAt := startsAt;
                sub_nextBillingAt := Some expiresAt;
                sub_expiresAt := expiresAt;
                sub_createdAt := now |} in
  (row, withSubscriptions db (db_subscriptions db ++ [row]) (S (db_nextId db))).

Definition isOpenInvite (i : ReferralInvite) : bool :=
  match inv_status i with
  | PENDING | REGISTERED => true
  | REWARDED => false
  end.

Definition byCreatedAtAsc (a b : ReferralInvite) : bool :=
  inv_createdAt a <=? inv_createdAt b.

Definition findOpenInvite (db : Db) (email : string) : option ReferralInvite :=
  Prisma.findFirst (fun _ => true)
    (Prisma.orderBy byCreatedAtAsc
       (filter (fun i => (inv_inviteeEmail i =? email)%string && isOpenInvite i)
               (db_referralInvites db))).

Definition markRewarded (inviteeUserId : nat) (now : Z) (i : ReferralInvite)
  : ReferralInvite :=
  {| inv_id := inv_id i;
     inv_referrerUserId := inv_referrerUserId i;
     inv_inviteeEmail := inv_inviteeEmail i;
     inv_inviteeUserId := Some inviteeUserId;
     inv_status := REWARDED;
     inv_rewardedAt := Some now;
     inv_referralCode := inv_referralCode i;
     inv_createdAt := inv_createdAt i |}.

Record RewardInfo := {
  rw_inviteId : nat;
  rw_referrerUserId : nat;
  rw_inviteeUserId : option nat;
  rw_rewardedAt : option Z
}.

Definition applyReferralReward (db : Db) (inviteeUser : User) (now : Z)
  : option RewardInfo * Db :=
  match findOpenInvite db (user_email inviteeUser) with
  | None => (None, db)
  | Some invite =>
      let db1 := snd (createReferralBonusSubscription db (inv_referrerUserId invite) now) in
      let db2 := snd (createReferralBonusSubscription db1 (user_id inviteeUser) now) in
      let updatedInvite := markRewarded (user_id inviteeUser) now invite in
      let db3 :=
        withReferralInvites db2
          (Prisma.updateMany (fun i => (inv_id i =? inv_id invite)%nat)
                             (markRewarded (user_id inviteeUser) now)
                             (db_referralInvites db2)) in
      (Some {| rw_inviteId := inv_id updatedInvite;
               rw_referrerUserId := inv_referrerUserId updatedInvite;
               rw_inviteeUserId := inv_inviteeUserId updatedInvite;
               rw_rewardedAt := inv_rewardedAt updatedInvite |}, db3)
  end.

(** *** The HTTP handlers *)

Inductive Body :=
| BError (error : string)
| BPlanState (subscription : option Subscription) (planTier : Tier)
             (planFeatures : PlanFeatures) (usage : Usage)
| BPlanMismatch (expectedPlanId receivedPlanId : string)
| BGatewayStatus (error : string) (gatewayStatus : option string)
| BActivated (subscription : Subscription) (referralReward : option RewardInfo)
             (paypalStatus : option string).

Record Response := { res_status : Z; res_body : Body }.

Definition handleGet (env : Env) (db : Db) (now : Z) (queryEmail : string)
  : Response * Db :=
  let email := normalizeEmail queryEmail in
  if negb (JS.truthy email) then
    ({| res_status := 400; res_body := BError "Missing email parameter" |}, db)
  else match findUserByEmail db email with
       | None =>
           let freeFeatures := getPlanFeatures free in
           ({| res_status := 200;
               res_body := BPlanState None free freeFeatures
                             {| ordersToday := 0; ordersThisWeek := 0 |} |}, db)
       | Some user =>
           let '(planState, db') := buildPlanStateForUser env db now (user_id user) in
           ({| res_status := 200;
               res_body := BPlanState (ps_subscription planState) (ps_tier planState)
                             (ps_planFeatures planState) (ps_usage planState) |}, db')
       end.

(** The filter [{ gatewaySubscriptionId: { not: v } }]. *)
Definition gatewayIdNot (env : Env) (v : string) (s : Subscription) : bool :=
  match sub_gatewaySubscriptionId s with
  | None => notKeepsNull env
  | Some g => negb (g =? v)%string
  end.

Definition gatewayIdIs (v : string) (s : Subscription) : bool :=
  match sub_gatewaySubscriptionId s with
  | None => false
  | Some g => (g =? v)%string
  end.

Definition otherActive (env : Env) (userId : nat) (paypalSubscriptionId : string)
           (s : Subscription) : bool :=
  (sub_userId s =? userId)%nat && isActive s && gatewayIdNot env paypalSubscriptionId s.

Definition setStatus (st : string) (s : Subscription) : Subscription :=
  {| sub_id := sub_id s; sub_userId := sub_userId s; sub_plan := sub_plan s;
     sub_status := st; sub_gateway := sub_gateway s;
     sub_gatewaySubscriptionId := sub_gatewaySubscriptionId s;
     sub_startedAt := sub_startedAt s; sub_nextBillingAt := sub_nextBillingAt s;
     sub_expiresAt := sub_expiresAt s; sub_createdAt := sub_createdAt s |}.

Definition byCreatedAtDesc (a b : Subscription) : bool :=
  sub_createdAt b <=? sub_createdAt a.

(** The [update] branch of the upsert of [handleActivatePayPal]. *)
Definition activateExisting (planName st : string) (startedAt nextBillingAt : Z)
           (s : Subscription) : Subscription :=
  {| sub_id := sub_id s; sub_userId := sub_userId s; sub_plan := planName;
     sub_status := st; sub_gateway := PAYPAL;
     sub_gatewaySubscriptionId := sub_gatewaySubscriptionId s;
     sub_startedAt := startedAt; sub_nextBillingAt := Some nextBillingAt;
     sub_expiresAt := nextBillingAt; sub_createdAt := sub_createdAt s |}.

(** [tx.subscription.upsert({ where: { gatewaySubscriptionId }, ... })]:
    the row that results, and the table. *)
Definition upsertByGatewayId (db : Db) (now : Z) (userId : nat)
           (paypalSubscriptionId planName st : string) (startedAt nextBillingAt : Z)
  : Subscription * Db :=
  match Prisma.findFirst (gatewayIdIs paypalSubscriptionId) (db_subscriptions db) with
  | Some existing =>
      (activateExisting planName st startedAt nextBillingAt existing,
       withSubscriptions db
         (Prisma.updateMany (gatewayIdIs paypalSubscriptionId)
                            (activateExisting planName st startedAt nextBillingAt)
                            (db_subscriptions db))
         (db_nextId db))
  | None =>
      let row := {| sub_id := db_nextId db; sub_userId := userId; sub_plan := planName;
                    sub_status := st; sub_gateway := PAYPAL;
                    sub_gatewaySubscriptionId := Some paypalSubscriptionId;
                    sub_startedAt := startedAt; sub_nextBillingAt := Some nextBillingAt;
                    sub_expiresAt := nextBillingAt; sub_createdAt := now |} in
      (row, withSubscriptions db (db_subscriptions db ++ [row]) (S (db_nextId db)))
  end.

Record TxResult := {
  tx_subscription : Subscription;
  tx_referralReward : option RewardInfo;
  tx_previousActive : list Subscription
}.

(** The body of the [$transaction] of [handleActivatePayPal]. *)
Definition activateTransaction (env : Env) (db : Db) (now : Z) (user : User)
           (paypalSubscriptionId planName localStatus : string)
           (startedAt nextBillingAt : Z) : TxResult * Db :=
  let previousActive :=
    Prisma.orderBy byCreatedAtDesc
      (filter (otherActive env (user_id user) paypalSubscriptionId)
              (db_subscriptions db)) in
  let db1 :=
    withSubscriptions db
      (Prisma.updateMany (otherActive env (user_id user) paypalSubscriptionId)
                         (setStatus "canceled") (db_subscriptions db))
      (db_nextId db) in
  let '(subscription, db2) :=
    upsertByGatewayId db1 now (user_id user) paypalSubscriptionId planName
      (if (localStatus =? "pending")%string then "active" else localStatus)
      startedAt nextBillingAt in
  let '(referralReward, db3) :=
    if (sub_status subscription =? "active")%string
    then applyReferralReward db2 user now
    else (None, db2) in
  ({| tx_subscription := subscription; tx_referralReward := referralReward;
      tx_previousActive := previousActive |}, db3).

Definition serverError : Response :=
  {| res_status := 500; res_body := BError "Server error" |}.

Definition handleActivatePayPal (env : Env) (db : Db) (now : Z)
           (email plan paypalSubscriptionId tierRaw billingCycleRaw : string)
  : Response * Db :=
  let normalizedEmail := normalizeEmail email in
  if negb (JS.truthy normalizedEmail) || negb (JS.truthy paypalSubscriptionId) then
    ({| res_status := 400;
        res_body := BError "Missing required fields: email, paypalSubscriptionId" |}, db)
  else
  let parsed := parsePlanInput plan tierRaw billingCycleRaw in
  if Tier_eqb (tier parsed) free then
    ({| res_status := 400; res_body := BError "Invalid tier for PayPal activation." |}, db)
  else
  let configuredPlanId :=
    getPayPalPlanId env (tierName (tier parsed)) (cycleName (billingCycle parsed)) in
  if negb (JS.truthy configuredPlanId) then
    ({| res_status := 400;
        res_body := BError ("PayPal plan ID missing for " ++ tierName (tier parsed)
                            ++ " " ++ cycleName (billingCycle parsed) ++ ".") |}, db)
  else
  match getOrCreateUserByEmail db now normalizedEmail with
  | None => (serverError, db)
  | Some (user, db0) =>
      match fetchPayPalSubscription env paypalSubscriptionId with
      | None => (serverError, db0)
      | Some details =>
          let localStatus := mapPayPalStatusToLocal (pp_status details) in
          if JS.truthy (pp_plan_id details)
             && negb (configuredPlanId =? pp_plan_id details)%string then
            ({| res_status := 400;
                res_body := BPlanMismatch configuredPlanId (pp_plan_id details) |}, db0)
          else if (localStatus =? "canceled")%string
                  || (localStatus =? "suspended")%string
                  || (localStatus =? "expired")%string then
            ({| res_status := 400;
                res_body := BGatewayStatus ("PayPal subscription is " ++ localStatus ++ ".")
                              (if JS.truthy (pp_status details)
                               then Some (pp_status details) else None) |}, db0)
          else
            let startedAt := parseDate (pp_start_time details) now in
            let nextBillingAt :=
              parseDate (pp_next_billing_time details)
                        (addPlanInterval now (cycleName (billingCycle parsed))) in
            let planName :=
              tierName (tier parsed) ++ "_" ++ cycleName (billingCycle parsed) in
            let '(result, db') :=
              activateTransaction env db0 now user paypalSubscriptionId planName
                                  localStatus startedAt nextBillingAt in
            ({| res_status := 200;
                res_body := BActivated (tx_subscription result)
                              (tx_referralReward result)
                              (if JS.truthy (pp_status details)
                               then Some (pp_status details) else None) |}, db')
      end
  end.

(** *** The other actions of the endpoint *)

(** [parsePlanForEmail]: the tier and cycle read back from a stored plan
    name. A missing piece of the split is [undefined], which [||] treats
    as it treats the empty string. *)
Definition parsePlanForEmail (planValue : string) : ParsedPlan :=
  let raw := JS.toLowerCase (JS.trim planValue) in
  let parts := JS.split "_" raw in
  let tierPart := nth 0 parts "" in
  let cyclePart := nth 1 parts "" in
  {| tier := normalizeTier (orElse tierPart raw);
     billingCycle := normalizeBillingCycle (orElse cyclePart "monthly") |}.

Inductive CancelBody :=
| CError (error : string)
| CNothing (message : string)
| CCanceled (canceled : Subscription).

Record CancelResponse := { cres_status : Z; cres_body : CancelBody }.

(** The [data] of the update of [handleCancelSubscription]. *)
Definition cancelRow (now : Z) (s : Subscription) : Subscription :=
  {| sub_id := sub_id s; sub_userId := sub_userId s; sub_plan := sub_plan s;
     sub_status := "canceled"; sub_gateway := sub_gateway s;
     sub_gatewaySubscriptionId := sub_gatewaySubscriptionId s;
     sub_startedAt := sub_startedAt s; sub_nextBillingAt := None;
     sub_expiresAt := now; sub_createdAt := sub_createdAt s |}.

(** [handleCancelSubscription]. Its [findFirst] has the [where] and the
    [orderBy] of [getCurrentActiveSubscriptions]; the status email is sent
    after the database work and a failure to send it is only logged. *)
Definition handleCancelSubscription (db : Db) (now : Z) (email : string)
  : CancelResponse * Db :=
  let normalizedEmail := normalizeEmail email in
  if negb (JS.truthy normalizedEmail) then
    ({| cres_status := 400; cres_body := CError "Missing required field: email" |}, db)
  else match findUserByEmail db normalizedEmail with
       | None => ({| cres_status := 404; cres_body := CError "User not found." |}, db)
       | Some user =>
           match Prisma.findFirst (fun _ => true)
                   (getCurrentActiveSubscriptions db now (user_id user)) with
           | None =>
               ({| cres_status := 200; cres_body := CNothing "No active subscription." |}, db)
           | Some current =>
               ({| cres_status := 200; cres_body := CCanceled (cancelRow now current) |},
                withSubscriptions db
                  (Prisma.updateMany (fun s => (sub_id s =? sub_id current)%nat)
                                     (cancelRow now) (db_subscriptions db))
                  (db_nextId db))
           end
       end.





End Subscriptions.

(** ** api/referrals.js *)

Module Referrals.

Definition normalizeEmail (email : string) : string :=
  JS.toLowerCase (JS.trim email).

Definition isValidEmail (email : string) : bool := JS.matchesEmailPattern email.

Inductive Body :=
| BError (error : string)
| BInvite (invite : ReferralInvite).

Record Response := { res_status : Z; res_body : Body }.

Definition findInvite (db : Db) (referrerUserId : nat) (inviteeEmail : string)
  : option ReferralInvite :=
  Prisma.findFirst (fun i => (inv_referrerUserId i =? referrerUserId)%nat
                             && (inv_inviteeEmail i =? inviteeEmail)%string)
                   (db_referralInvites db).

(** [handleInvite]; [referralCode] is the value drawn by
    [createReferralCode]. The invitation email is sent after the
    database work and does not bear on it. *)
Definition handleInvite (db : Db) (now : Z) (referralCode : string)
           (referrerEmail inviteeEmail : string) : Response * Db :=
  let normalizedReferrer := normalizeEmail referrerEmail in
  let normalizedInvitee := normalizeEmail inviteeEmail in
  if negb (JS.truthy normalizedReferrer) || negb (JS.truthy normalizedInvitee) then
    ({| res_status := 400;
        res_body := BError "Missing required fields: referrerEmail, inviteeEmail" |}, db)
  else if negb (isValidEmail normalizedInvitee) then
    ({| res_status := 400; res_body := BError "Invitee email is invalid." |}, db)
  else if (normalizedReferrer =? normalizedInvitee)%string then
    ({| res_status := 400; res_body := BError "You cannot invite your own email." |}, db)
  else
  match Subscriptions.getOrCreateUserByEmail db now normalizedReferrer with
  | None => ({| res_status := 500; res_body := BError "Referral service error" |}, db)
  | Some (referrer, db0) =>
      match findInvite db0 (user_id referrer) normalizedInvitee with
      | Some existing => ({| res_status := 200; res_body := BInvite existing |}, db0)
      | None =>
          let invite := {| inv_id := db_nextId db0;
                           inv_referrerUserId := user_id referrer;
                           inv_inviteeEmail := normalizedInvitee;
                           inv_inviteeUserId := None;
                           inv_status := PENDING;
                           inv_rewardedAt := None;
                           inv_referralCode := referralCode;
                           inv_createdAt := now |} in
          ({| res_status := 200; res_body := BInvite invite |},
           {| db_users := db_users db0; db_subscriptions := db_subscriptions db0;
              db_referralInvites := db_referralInvites db0 ++ [invite];
              db_clientProfiles := db_clientProfiles db0;
              db_orders := db_orders db0; db_nextId := S (db_nextId db0) |})
      end
  end.

(** [value.replace(/\/+$/, "")]: the text without its trailing slashes. *)
Fixpoint stripTrailingSlashes (s : string) : string :=
  match s with
  | EmptyString => EmptyString
  | String c r =>
      match stripTrailingSlashes r with
      | EmptyString => if Ascii.eqb c "/" then EmptyString else String c EmptyString
      | r' => String c r'
      end
  end.

(** [getAppUrl]; the argument is the value of [NEXT_PUBLIC_APP_URL], empty
    when it is not set. *)
Definition getAppUrl (NEXT_PUBLIC_APP_URL : string) : string :=
  stripTrailingSlashes
    (JS.trim (Subscriptions.orElse NEXT_PUBLIC_APP_URL "https://renpay.vercel.app")).

Record Stats := { st_total : Z; st_pending : Z; st_rewarded : Z }.

(** What [handleGet] renders of an invite row. *)
Record InviteJson := {
  ij_id : nat;
  ij_inviteeEmail : string;
  ij_status : InviteStatus;
  ij_createdAt : Z;
  ij_rewardedAt : option Z;
  ij_referralCode : string
}.

Definition inviteJson (item : ReferralInvite) : InviteJson :=
  {| ij_id := inv_id item;
     ij_inviteeEmail := inv_inviteeEmail item;
     ij_status := inv_status item;
     ij_createdAt := inv_createdAt item;
     ij_rewardedAt := inv_rewardedAt item;
     ij_referralCode := inv_referralCode item |}.

Inductive GetBody :=
| GError (error : string)
| GInvites (stats : Stats) (invites : list InviteJson) (referralLink : string).

Record GetResponse := { gres_status : Z; gres_body : GetBody }.

Definition byCreatedAtDesc (a b : ReferralInvite) : bool :=
  inv_createdAt b <=? inv_createdAt a.

Definition isRewarded (item : ReferralInvite) : bool :=
  match inv_status item with
  | REWARDED => true
  | _ => false
  end.

(** The rows that [handleGet] reads for a referrer: the newest 100. *)
Definition invitesOf (db : Db) (referrerUserId : nat) : list ReferralInvite :=
  firstn 100
    (Prisma.orderBy byCreatedAtDesc
       (filter (fun i => (inv_referrerUserId i =? referrerUserId)%nat)
               (db_referralInvites db))).

(** [handleGet]; it reads the database and writes nothing. *)
Definition handleGet (NEXT_PUBLIC_APP_URL : string) (db : Db) (queryEmail : string)
  : GetResponse :=
  let email := normalizeEmail queryEmail in
  if negb (JS.truthy email) then
    {| gres_status := 400; gres_body := GError "Missing email parameter" |}
  else match Subscriptions.findUserByEmail db email with
       | None =>
           {| gres_status := 200;
              gres_body := GInvites {| st_total := 0; st_pending := 0; st_rewarded := 0 |}
                                    [] (getAppUrl NEXT_PUBLIC_APP_URL) |}
       | Some user =>
           let invites := invitesOf db (user_id user) in
           let pending := List.length (filter (fun item => negb (isRewarded item)) invites) in
           let rewarded := List.length (filter isRewarded invites) in
           {| gres_status := 200;
              gres_body := GInvites {| st_total := Z.of_nat (List.length invites);
                                       st_pending := Z.of_nat pending;
                                       st_rewarded := Z.of_nat rewarded |}
                                    (map inviteJson invites)
                                    (getAppUrl NEXT_PUBLIC_APP_URL) |}
       end.

End Referrals.

(** ** api/client-profiles.js *)

Module ClientProfiles.

Definition normalizeEmail (email : string) : string :=
  JS.toLowerCase (JS.trim email).

Definition normalizeClientId (value : string) : string := JS.trim value.

Definition isValidEmail (email : string) : bool :=
  JS.matchesEmailPattern (JS.trim email).

(** The same text as in api/subscriptions.js. *)
Definition getOrCreateUserByEmail := Subscriptions.getOrCreateUserByEmail.

(** What the handler renders of a profile row. *)
Record ProfileJson := {
  pj_id : nat;
  pj_clientId : string;
  pj_clientEmail : string;
  pj_clientName : string;
  pj_createdAt : Z;
  pj_updatedAt : Z
}.

Definition profileJson (profile : ClientProfile) : ProfileJson :=
  {| pj_id := cp_id profile;
     pj_clientId := cp_clientId profile;
     pj_clientEmail := normalizeEmail (cp_clientEmail profile);
     pj_clientName := match cp_clientName profile with Some n => n | None => "" end;
     pj_createdAt := cp_createdAt profile;
     pj_updatedAt := cp_updatedAt profile |}.

Inductive Body :=
| BError (error : string)
| BProfile (profile : ProfileJson).

Record Response := { res_status : Z; res_body : Body }.

(** [{ equals: v, mode: "insensitive" }]. *)
Definition equalsInsensitive (column v : string) : bool :=
  (JS.toLowerCase column =? JS.toLowerCase v)%string.

Definition ownsEmail (userId : nat) (clientEmail : string) (r : ClientProfile) : bool :=
  (cp_userId r =? userId)%nat && equalsInsensitive (cp_clientEmail r) clientEmail.

Definition hasKey (userId : nat) (clientId : string) (r : ClientProfile) : bool :=
  (cp_userId r =? userId)%nat && (cp_clientId r =? clientId)%string.

(** [a || null] on a string. *)
Definition orNull (a : string) : option string := if JS.truthy a then Some a else None.

(** The [data] of the update of the email-matched row. *)
Definition moveToClientId (clientId clientName : string) (now : Z) (r : ClientProfile)
  : ClientProfile :=
  {| cp_id := cp_id r; cp_userId := cp_userId r;
     cp_clientId := clientId;
     cp_clientEmail := cp_clientEmail r;
     cp_clientName := if JS.truthy clientName then Some clientName
                      else match cp_clientName r with
                           | Some n => orNull n
                           | None => None
                           end;
     cp_createdAt := cp_createdAt r; cp_updatedAt := now |}.

(** The [update] of the upsert. *)
Definition setEmailAndName (clientEmail clientName : string) (now : Z) (r : ClientProfile)
  : ClientProfile :=
  {| cp_id := cp_id r; cp_userId := cp_userId r;
     cp_clientId := cp_clientId r;
     cp_clientEmail := clientEmail;
     cp_clientName := orNull clientName;
     cp_createdAt := cp_createdAt r; cp_updatedAt := now |}.

(** [tx.clientProfile.upsert({ where: { userId_clientId }, ... })]. *)
Definition upsertProfile (db : Db) (now : Z) (user : User)
           (clientId clientEmail clientName : string) : ClientProfile * Db :=
  let rows := db_clientProfiles db in
  match Prisma.findFirst (hasKey (user_id user) clientId) rows with
  | Some existing =>
      (setEmailAndName clientEmail clientName now existing,
       withClientProfiles db
         (Prisma.updateMany (hasKey (user_id user) clientId)
                            (setEmailAndName clientEmail clientName now) rows)
         (db_nextId db))
  | None =>
      let row := {| cp_id := db_nextId db; cp_userId := user_id user;
                    cp_clientId := clientId; cp_clientEmail := clientEmail;
                    cp_clientName := orNull clientName;
                    cp_createdAt := now; cp_updatedAt := now |} in
      (row, withClientProfiles db (rows ++ [row]) (S (db_nextId db)))
  end.

(** Another row of the user already has the client id: the update of
    the email-matched row would break the unique index. *)
Definition clientIdTaken (db : Db) (clientId : string) (existing : ClientProfile) : bool :=
  existsb (fun r => hasKey (cp_userId existing) clientId r
                    && negb (cp_id r =? cp_id existing)%nat)
          (db_clientProfiles db).

(** The [$transaction] of [handlePost]. [None] is the unique-constraint
    error (P2002) on (userId, clientId), which rolls the transaction
    back. *)
Definition saveProfile (db : Db) (now : Z) (user : User)
           (clientId clientEmail clientName : string) : option (ClientProfile * Db) :=
  let existingByEmail :=
    Prisma.findFirst (ownsEmail (user_id user) clientEmail) (db_clientProfiles db) in
  match existingByEmail with
  | Some existing =>
      if negb (cp_clientId existing =? clientId)%string then
        if clientIdTaken db clientId existing then None
        else Some (moveToClientId clientId clientName now existing,
                   withClientProfiles db
                     (Prisma.updateMany (fun r => (cp_id r =? cp_id existing)%nat)
                                        (moveToClientId clientId clientName now)
                                        (db_clientProfiles db))
                     (db_nextId db))
      else Some (upsertProfile db now user clientId clientEmail clientName)
  | None => Some (upsertProfile db now user clientId clientEmail clientName)
  end.

(** The answer of [handlePost] once the transaction has run: the row,
    or the 500 of the top-level [catch]. *)
Definition respond (db : Db) (saved : option (ClientProfile * Db)) : Response * Db :=
  match saved with
  | None => ({| res_status := 500; res_body := BError "Client profiles service error" |}, db)
  | Some (profile, db') =>
      ({| res_status := 200; res_body := BProfile (profileJson profile) |}, db')
  end.

Definition handlePost (db : Db) (now : Z)
           (bodyEmail bodyClientId bodyClientEmail bodyClientName : string)
  : Response * Db :=
  let email := normalizeEmail bodyEmail in
  let clientId := normalizeClientId bodyClientId in
  let clientEmail := normalizeEmail bodyClientEmail in
  let clientName := JS.trim bodyClientName in
  if negb (JS.truthy email) || negb (JS.truthy clientId) || negb (JS.truthy clientEmail) then
    ({| res_status := 400;
        res_body := BError "Missing required fields: email, clientId, clientEmail" |}, db)
  else if negb (isValidEmail clientEmail) then
    ({| res_status := 400; res_body := BError "clientEmail is invalid." |}, db)
  else
  match getOrCreateUserByEmail db now email with
  | None => ({| res_status := 500; res_body := BError "Client profiles service error" |}, db)
  | Some (user, db0) =>
      respond db0 (saveProfile db0 now user clientId clientEmail clientName)
  end.

Inductive GetBody :=
| GError (error : string)
| GProfiles (profiles : list ProfileJson).

Record GetResponse := { gres_status : Z; gres_body : GetBody }.

Definition byUpdatedAtDescCreatedAtDesc (a b : ClientProfile) : bool :=
  (cp_updatedAt b <? cp_updatedAt a)
  || ((cp_updatedAt a =? cp_updatedAt b) && (cp_createdAt b <=? cp_createdAt a)).

(** The rows that [handleGet] reads for a user: the 500 updated last. *)
Definition profilesOfUser (db : Db) (userId : nat) : list ClientProfile :=
  firstn 500
    (Prisma.orderBy byUpdatedAtDescCreatedAtDesc
       (filter (fun r => (cp_userId r =? userId)%nat) (db_clientProfiles db))).

(** [handleGet]: it creates the user when the email is new. *)
Definition handleGet (db : Db) (now : Z) (queryEmail : string) : GetResponse * Db :=
  let email := normalizeEmail queryEmail in
  if negb (JS.truthy email) then
    ({| gres_status := 400; gres_body := GError "Missing email parameter" |}, db)
  else
  match getOrCreateUserByEmail db now email with
  | None =>
      ({| gres_status := 500; gres_body := GError "Client profiles service error" |}, db)
  | Some (user, db0) =>
      ({| gres_status := 200;
          gres_body := GProfiles (map profileJson (profilesOfUser db0 (user_id user))) |},
       db0)
  end.

End ClientProfiles.

(** ** The client-profile invariants as the specification words them *)

Definition profileKey (r : ClientProfile) : nat * string :=
  (cp_userId r, cp_clientId r).

Definition profileEmailKey (r : ClientProfile) : nat * string :=
  (cp_userId r, JS.toLowerCase (cp_clientEmail r)).

(** (user, clientId) is unique. *)
Definition clientIdsUnique (db : Db) : Prop :=
  NoDup (map profileKey (db_clientProfiles db)).

(** At most one profile per (user, case-insensitive clientEmail). *)
Definition clientEmailsUnique (db : Db) : Prop :=
  NoDup (map profileEmailKey (db_clientProfiles db)).

(** Row ids are unique and were drawn from the id counter. *)
Definition profileIdsFresh (db : Db) : Prop :=
  NoDup (map cp_id (db_clientProfiles db))
  /\ Forall (fun r => (cp_id r < db_nextId db)%nat) (db_clientProfiles db).

Definition profilesOf (db : Db) (userId : nat) (clientId : string) : list ClientProfile :=
  filter (ClientProfiles.hasKey userId clientId) (db_clientProfiles db).

(** What a successful transaction on [db] establishes of the row [p] it
    returns and of the database [d] it leaves. *)
Record Saved (db : Db) (user : User) (clientId clientEmail : string)
       (p : ClientProfile) (d : Db) : Prop := {
  saved_users : db_users d = db_users db;
  saved_ids : profileIdsFresh d;
  saved_keys : clientIdsUnique d;
  saved_emails : clientEmailsUnique db -> clientEmailsUnique d;
  saved_row : In p (db_clientProfiles d);
  saved_key : ClientProfiles.hasKey (user_id user) clientId p = true;
  saved_first :
    exists q, Prisma.findFirst (ClientProfiles.ownsEmail (user_id user) clientEmail)
                               (db_clientProfiles d)
              = Some q /\ cp_clientId q = clientId
}.

(** ** The resolver as the specification words it *)

(** Pairwise comparison: the row replaces the accumulator when its tier
    rank is strictly higher, or equal with a strictly later expiry. *)
Definition rankOf (s : Subscription) : Z :=
  getTierRank (getTierFromPlan (sub_plan s)).

Definition better (acc row : Subscription) : Subscription :=
  let accRank := rankOf acc in
  let rowRank := rankOf row in
  if accRank <? rowRank then row
  else if (rowRank =? accRank) && (sub_expiresAt acc <? sub_expiresAt row) then row
  else acc.

(** Left-to-right reduction whose initial accumulator is the first row. *)
Definition winner (rows : list Subscription) : option Subscription :=
  match rows with
  | [] => None
  | first :: rest => Some (fold_left better rest first)
  end.

(** ** Node's [crypto] and [Buffer]: SHA-256 (FIPS 180-4), HMAC (RFC 2104) *)

Module Crypto.

Open Scope N_scope.

(** The bytes of a string, and back. *)
Definition bytesOfString (s : string) : list N :=
  map N_of_ascii (list_ascii_of_string s).

Definition stringOfBytes (l : list N) : string :=
  string_of_list_ascii (map ascii_of_N l).

Definition mask32 : N := 0xFFFFFFFF.

Definition add32 (a b : N) : N := N.land (a + b) mask32.

Definition rotr (n x : N) : N :=
  N.lor (N.shiftr x n) (N.land (N.shiftl x (32 - n)) mask32).

Definition Ch (x y z : N) : N :=
  N.lxor (N.land x y) (N.land (N.lxor x mask32) z).

Definition Maj (x y z : N) : N :=
  N.lxor (N.lxor (N.land x y) (N.land x z)) (N.land y z).

Definition bigSigma0 (x : N) : N := N.lxor (N.lxor (rotr 2 x) (rotr 13 x)) (rotr 22 x).
Definition bigSigma1 (x : N) : N := N.lxor (N.lxor (rotr 6 x) (rotr 11 x)) (rotr 25 x).
Definition smallSigma0 (x : N) : N := N.lxor (N.lxor (rotr 7 x) (rotr 18 x)) (N.shiftr x 3).
Definition smallSigma1 (x : N) : N := N.lxor (N.lxor (rotr 17 x) (rotr 19 x)) (N.shiftr x 10).

(** The constants are defined as FIPS 180-4 defines them: the first 32
    bits of the fractional parts of the cube roots (for the round
    constants) and of the square roots (for the initial hash value) of the
    first primes. *)
Definition isPrime (p : N) : bool :=
  (1 <? p) && forallb (fun d => negb (p mod d =? 0))
                      (map N.of_nat (seq 2 (N.to_nat p - 2))).

Definition firstPrimes (count : nat) : list N :=
  firstn count (filter isPrime (map N.of_nat (seq 2 310))).

(** Integer cube root, one bit at a time from the top. *)
Fixpoint cubeRootBits (bits : nat) (n r : N) : N :=
  match bits with
  | O => r
  | S b =>
      let candidate := r + N.shiftl 1 (N.of_nat b) in
      cubeRootBits b n (if candidate * candidate * candidate <=? n then candidate else r)
  end.

Definition cubeRoot (n : N) : N := cubeRootBits 36 n 0.

Definition K256 : list N :=
  Eval vm_compute in
    map (fun p => N.land (cubeRoot (N.shiftl p 96)) mask32) (firstPrimes 64).

Definition H256 : list N :=
  Eval vm_compute in
    map (fun p => N.land (N.sqrt (N.shiftl p 64)) mask32) (firstPrimes 8).

(** Padding: the byte 0x80, zeros up to 56 modulo 64, and the length in
    bits as a 64-bit big-endian integer. *)
Definition bigEndian (width : nat) (x : N) : list N :=
  map (fun i => N.land (N.shiftr x (8 * N.of_nat i)) 0xFF) (rev (seq 0 width)).

Definition pad (msg : list N) : list N :=
  let len := N.of_nat (List.length msg) in
  let zeros := N.to_nat ((64 - (len + 9) mod 64) mod 64) in
  (msg ++ 0x80 :: repeat 0 zeros ++ bigEndian 8 (8 * len))%list.

Fixpoint fromBigEndian (bytes : list N) (acc : N) : N :=
  match bytes with
  | [] => acc
  | b :: r => fromBigEndian r (N.lor (N.shiftl acc 8) b)
  end.

(** The big-endian 32-bit words of a byte sequence. *)
Fixpoint wordsOf (fuel : nat) (bytes : list N) : list N :=
  match fuel, bytes with
  | S f, _ :: _ => fromBigEndian (firstn 4 bytes) 0 :: wordsOf f (skipn 4 bytes)
  | _, _ => []
  end.

(** The message schedule, latest word first: from [W(t-1) .. W(t-16)]
    the next word is s1(W(t-2)) + W(t-7) + s0(W(t-15)) + W(t-16). *)
Fixpoint schedule (steps : nat) (recent : list N) : list N :=
  match steps with
  | O => recent
  | S n =>
      let w := add32 (add32 (smallSigma1 (nth 1 recent 0)) (nth 6 recent 0))
                     (add32 (smallSigma0 (nth 14 recent 0)) (nth 15 recent 0)) in
      schedule n (w :: recent)
  end.

Record State := { sa : N; sb : N; sc : N; sd : N; se : N; sf : N; sg : N; sh : N }.

Definition round (st : State) (kw : N * N) : State :=
  let '(k, w) := kw in
  let t1 := add32 (add32 (add32 (sh st) (bigSigma1 (se st)))
                         (add32 (Ch (se st) (sf st) (sg st)) k)) w in
  let t2 := add32 (bigSigma0 (sa st)) (Maj (sa st) (sb st) (sc st)) in
  {| sa := add32 t1 t2; sb := sa st; sc := sb st; sd := sc st;
     se := add32 (sd st) t1; sf := se st; sg := sf st; sh := sg st |}.

Definition compress (st : State) (block : list N) : State :=
  let w := rev (schedule 48 (rev (wordsOf 16 block))) in
  let r := fold_left round (combine K256 w) st in
  {| sa := add32 (sa st) (sa r); sb := add32 (sb st) (sb r);
     sc := add32 (sc st) (sc r); sd := add32 (sd st) (sd r);
     se := add32 (se st) (se r); sf := add32 (sf st) (sf r);
     sg := add32 (sg st) (sg r); sh := add32 (sh st) (sh r) |}.

Fixpoint blocks (fuel : nat) (st : State) (bytes : list N) : State :=
  match fuel, bytes with
  | S f, _ :: _ => blocks f (compress st (firstn 64 bytes)) (skipn 64 bytes)
  | _, _ => st
  end.

Definition initialState : State :=
  {| sa := nth 0 H256 0; sb := nth 1 H256 0; sc := nth 2 H256 0; sd := nth 3 H256 0;
     se := nth 4 H256 0; sf := nth 5 H256 0; sg := nth 6 H256 0; sh := nth 7 H256 0 |}.

(** The 32 bytes of the digest. *)
Definition sha256 (msg : list N) : list N :=
  let padded := pad msg in
  let st := blocks (List.length padded) initialState padded in
  flat_map (bigEndian 4)
           [sa st; sb st; sc st; sd st; se st; sf st; sg st; sh st].

(** [crypto.createHmac("sha256", key).update(msg).digest()]. *)
Definition hmacSha256 (key msg : list N) : list N :=
  let key0 := if (64 <? N.of_nat (List.length key)) then sha256 key else key in
  let block := (key0 ++ repeat 0 (64 - List.length key0))%list in
  let ipad := map (N.lxor 0x36) block in
  let opad := map (N.lxor 0x5c) block in
  sha256 (opad ++ sha256 (ipad ++ msg)).

(** [buf.readUInt32BE(0)]. *)
Definition readUInt32BE (buf : list N) : N := fromBigEndian (firstn 4 buf) 0.

(** [buf.toString("hex")]. *)
Definition hexDigit (n : N) : ascii :=
  if n <? 10 then ascii_of_N (48 + n) else ascii_of_N (87 + n).

Definition toHex (buf : list N) : string :=
  string_of_list_ascii
    (flat_map (fun b => [hexDigit (N.shiftr b 4); hexDigit (N.land b 0xF)]) buf).

(** [crypto.timingSafeEqual(a, b)]: it throws ([None]) when the lengths
    differ, and otherwise compares every byte. *)
Definition timingSafeEqual (a b : list N) : option bool :=
  if (List.length a =? List.length b)%nat
  then Some (N.eqb (fold_left N.lor (map (fun '(x, y) => N.lxor x y) (combine a b)) 0) 0)
  else None.

End Crypto.

(** ** [Buffer]'s base64url encoding (RFC 4648, section 5, unpadded) *)

Module Base64Url.

Open Scope N_scope.

Definition alphabet : string :=
  "ABCDEFGHIJKLMNOPQRSTUVWXYZabcdefghijklmnopqrstuvwxyz0123456789-_".

Definition encodeSextet (n : N) : ascii :=
  match String.get (N.to_nat n) alphabet with
  | Some c => c
  | None => "A"%char
  end.

(** The decoder also takes the characters of the standard alphabet. *)
Definition decodeChar (c : ascii) : option N :=
  let n := N_of_ascii c in
  if (65 <=? n) && (n <=? 90) then Some (n - 65)
  else if (97 <=? n) && (n <=? 122) then Some (n - 71)
  else if (48 <=? n) && (n <=? 57) then Some (n + 4)
  else if (n =? 45) || (n =? 43) then Some 62
  else if (n =? 95) || (n =? 47) then Some 63
  else None.

Fixpoint encodeBytes (bytes : list N) : list N :=
  match bytes with
  | a :: b :: c :: rest =>
      a / 4 :: (a mod 4) * 16 + b / 16 :: (b mod 16) * 4 + c / 64 :: c mod 64
        :: encodeBytes rest
  | [a; b] => [a / 4; (a mod 4) * 16 + b / 16; (b mod 16) * 4]
  | [a] => [a / 4; (a mod 4) * 16]
  | [] => []
  end.

Fixpoint decodeSextets (sextets : list N) : list N :=
  match sextets with
  | s1 :: s2 :: s3 :: s4 :: rest =>
      s1 * 4 + s2 / 16 :: (s2 mod 16) * 16 + s3 / 4 :: (s3 mod 4) * 64 + s4
        :: decodeSextets rest
  | [s1; s2; s3] => [s1 * 4 + s2 / 16; (s2 mod 16) * 16 + s3 / 4]
  | [s1; s2] => [s1 * 4 + s2 / 16]
  | _ => []
  end.

(** The sextets of the longest prefix made of alphabet characters. *)
Fixpoint sextetsOf (s : string) : list N :=
  match s with
  | EmptyString => []
  | String c r =>
      match decodeChar c with
      | Some n => n :: sextetsOf r
      | None => []
      end
  end.

(** [buf.toString("base64url")]. *)
Definition toBase64Url (bytes : list N) : string :=
  string_of_list_ascii (map encodeSextet (encodeBytes bytes)).

(** [Buffer.from(s, "base64url")]. *)
Definition fromBase64Url (s : string) : list N := decodeSextets (sextetsOf s).

End Base64Url.

(** ** [JSON.stringify] and [JSON.parse]

    Values are null, booleans, integers, strings, arrays and objects (as
    the list of their members, in order). A number literal with a fraction
    or an exponent is outside this fragment and is reported as a syntax
    error. *)

Module JSON.

#[local] Unset Elimination Schemes.

Inductive json :=
| JNull
| JBool (b : bool)
| JNum (z : Z)
| JStr (s : string)
| JArr (items : list json)
| JObj (members : list (string * json)).

#[local] Set Elimination Schemes.

Definition hexDigit (n : N) : ascii :=
  if (n <? 10)%N then ascii_of_N (48 + n) else ascii_of_N (87 + n).

Definition doubleQuote : ascii := ascii_of_N 34.

(** One character inside a string literal. *)
Definition escapeChar (c : ascii) : string :=
  let n := N_of_ascii c in
  if (n =? 34)%N then String "\" (String doubleQuote "")
  else if (n =? 92)%N then "\\"
  else if (n =? 8)%N then "\b"
  else if (n =? 12)%N then "\f"
  else if (n =? 10)%N then "\n"
  else if (n =? 13)%N then "\r"
  else if (n =? 9)%N then "\t"
  else if (n <? 32)%N then
    "\u00" ++ String (hexDigit (n / 16)) (String (hexDigit (n mod 16)) "")
  else String c "".

Fixpoint escape (s : string) : string :=
  match s with
  | EmptyString => EmptyString
  | String c r => escapeChar c ++ escape r
  end.

Definition quote (s : string) : string :=
  String doubleQuote (escape s ++ String doubleQuote "").

Fixpoint joinWith (sep : string) (l : list string) : string :=
  match l with
  | [] => ""
  | [x] => x
  | x :: r => x ++ sep ++ joinWith sep r
  end.

Fixpoint stringify (v : json) : string :=
  match v with
  | JNull => "null"
  | JBool true => "true"
  | JBool false => "false"
  | JNum z => JS.numberToString z
  | JStr s => quote s
  | JArr items => "[" ++ joinWith "," (map stringify items) ++ "]"
  | JObj members =>
      "{" ++ joinWith "," (map (fun kv => quote (fst kv) ++ ":" ++ stringify (snd kv)) members)
          ++ "}"
  end.

Definition isJsonSpace (c : ascii) : bool :=
  let n := N_of_ascii c in
  ((n =? 32) || (n =? 9) || (n =? 10) || (n =? 13))%N.

Fixpoint skipSpace (s : string) : string :=
  match s with
  | EmptyString => EmptyString
  | String c r => if isJsonSpace c then skipSpace r else s
  end.

Definition hexValue (c : ascii) : option N :=
  let n := N_of_ascii c in
  if ((48 <=? n) && (n <=? 57))%N then Some (n - 48)%N
  else if ((97 <=? n) && (n <=? 102))%N then Some (n - 87)%N
  else if ((65 <=? n) && (n <=? 70))%N then Some (n - 55)%N
  else None.

(** The UTF-8 bytes of a code point of the basic plane. *)
Definition utf8 (code : N) : string :=
  if (code <? 128)%N then String (ascii_of_N code) ""
  else if (code <? 2048)%N then
    String (ascii_of_N (192 + code / 64)) (String (ascii_of_N (128 + code mod 64)) "")
  else
    String (ascii_of_N (224 + code / 4096))
      (String (ascii_of_N (128 + (code / 64) mod 64))
         (String (ascii_of_N (128 + code mod 64)) "")).

(** The characters of a string literal after its opening quote, and what
    follows the closing quote. *)
Fixpoint parseStringBody (s : string) : option (string * string) :=
  match s with
  | EmptyString => None
  | String c r =>
      if (N_of_ascii c =? 34)%N then Some ("", r)
      else if (N_of_ascii c =? 92)%N then
        match r with
        | EmptyString => None
        | String e r' =>
            let simple (ch : ascii) :=
              match parseStringBody r' with
              | Some (body, rest) => Some (String ch body, rest)
              | None => None
              end in
            let n := N_of_ascii e in
            if ((n =? 34) || (n =? 92) || (n =? 47))%N then simple e
            else if (n =? 98)%N then simple (ascii_of_N 8)
            else if (n =? 102)%N then simple (ascii_of_N 12)
            else if (n =? 110)%N then simple (ascii_of_N 10)
            else if (n =? 114)%N then simple (ascii_of_N 13)
            else if (n =? 116)%N then simple (ascii_of_N 9)
            else if (n =? 117)%N then
              match r' with
              | String h1 (String h2 (String h3 (String h4 r''))) =>
                  match hexValue h1, hexValue h2, hexValue h3, hexValue h4,
                        parseStringBody r'' with
                  | Some a, Some b, Some c', Some d, Some (body, rest) =>
                      Some (utf8 (((a * 16 + b) * 16 + c') * 16 + d)%N ++ body, rest)
                  | _, _, _, _, _ => None
                  end
              | _ => None
              end
            else None
        end
      else if (N_of_ascii c <? 32)%N then None
      else match parseStringBody r with
           | Some (body, rest) => Some (String c body, rest)
           | None => None
           end
  end.

Fixpoint takeDigits (s : string) (acc : N) : N * string :=
  match s with
  | EmptyString => (acc, s)
  | String c r =>
      if JS.isDigit c then takeDigits r (acc * 10 + (N_of_ascii c - 48))%N
      else (acc, s)
  end.

Definition startsNumberTail (s : string) : bool :=
  match s with
  | String c _ => ((N_of_ascii c =? 46) || (N_of_ascii c =? 101) || (N_of_ascii c =? 69))%N
  | EmptyString => false
  end.

(** An integer literal: no leading zeros, no fraction, no exponent. *)
Definition parseNatural (s : string) : option (N * string) :=
  match s with
  | String c r =>
      if (N_of_ascii c =? 48)%N then
        match r with
        | String d _ => if JS.isDigit d || startsNumberTail r then None else Some (0%N, r)
        | EmptyString => Some (0%N, r)
        end
      else if JS.isDigit c then
        let '(n, rest) := takeDigits s 0%N in
        if startsNumberTail rest then None else Some (n, rest)
      else None
  | EmptyString => None
  end.

Definition expect (word : string) (v : json) (s : string) : option (json * string) :=
  if String.prefix word s
  then Some (v, String.substring (String.length word) (String.length s - String.length word) s)
  else None.

Fixpoint parseValue (fuel : nat) (s : string) {struct fuel} : option (json * string) :=
  match fuel with
  | O => None
  | S f =>
      match skipSpace s with
      | EmptyString => None
      | String c r as s' =>
          let n := N_of_ascii c in
          if (n =? 110)%N then expect "null" JNull s'
          else if (n =? 116)%N then expect "true" (JBool true) s'
          else if (n =? 102)%N then expect "false" (JBool false) s'
          else if (n =? 34)%N then
            match parseStringBody r with
            | Some (body, rest) => Some (JStr body, rest)
            | None => None
            end
          else if (n =? 45)%N then
            match parseNatural r with
            | Some (m, rest) => Some (JNum (- Z.of_N m), rest)
            | None => None
            end
          else if JS.isDigit c then
            match parseNatural s' with
            | Some (m, rest) => Some (JNum (Z.of_N m), rest)
            | None => None
            end
          else if (n =? 91)%N then
            match skipSpace r with
            | String c' r' =>
                if (N_of_ascii c' =? 93)%N then Some (JArr [], r')
                else match parseElements f (String c' r') with
                     | Some (items, rest) => Some (JArr items, rest)
                     | None => None
                     end
            | EmptyString => None
            end
          else if (n =? 123)%N then
            match skipSpace r with
            | String c' r' =>
                if (N_of_ascii c' =? 125)%N then Some (JObj [], r')
                else match parseMembers f (String c' r') with
                     | Some (members, rest) => Some (JObj members, rest)
                     | None => None
                     end
            | EmptyString => None
            end
          else None
      end
  end

with parseElements (fuel : nat) (s : string) {struct fuel}
  : option (list json * string) :=
  match fuel with
  | O => None
  | S f =>
      match parseValue f s with
      | Some (v, rest) =>
          match skipSpace rest with
          | String c r =>
              if (N_of_ascii c =? 44)%N then
                match parseElements f r with
                | Some (items, rest') => Some (v :: items, rest')
                | None => None
                end
              else if (N_of_ascii c =? 93)%N then Some ([v], r)
              else None
          | EmptyString => None
          end
      | None => None
      end
  end

with parseMembers (fuel : nat) (s : string) {struct fuel}
  : option (list (string * json) * string) :=
  match fuel with
  | O => None
  | S f =>
      match skipSpace s with
      | String q r =>
          if (N_of_ascii q =? 34)%N then
            match parseStringBody r with
            | Some (key, afterKey) =>
                match skipSpace afterKey with
                | String colon afterColon =>
                    if (N_of_ascii colon =? 58)%N then
                      match parseValue f afterColon with
                      | Some (v, rest) =>
                          match skipSpace rest with
                          | String c r' =>
                              if (N_of_ascii c =? 44)%N then
                                match parseMembers f r' with
                                | Some (members, rest') => Some ((key, v) :: members, rest')
                                | None => None
                                end
                              else if (N_of_ascii c =? 125)%N then Some ([(key, v)], r')
                              else None
                          | EmptyString => None
                          end
                      | None => None
                      end
                    else None
                | EmptyString => None
                end
            | None => None
            end
          else None
      | EmptyString => None
      end
  end.

(** [JSON.parse(text)]; [None] is the thrown [SyntaxError]. *)
Definition parse (text : string) : option json :=
  match parseValue (2 * String.length text + 2) text with
  | Some (v, rest) =>
      match skipSpace rest with
      | EmptyString => Some v
      | String _ _ => None
      end
  | None => None
  end.

(** [v.key]: the member of an object (the last one of that name), and
    [undefined] ([None]) on anything else. *)
Fixpoint lookup (key : string) (members : list (string * json)) : option json :=
  match members with
  | [] => None
  | (k, v) :: rest =>
      match lookup key rest with
      | Some later => Some later
      | None => if (k =? key)%string then Some v else None
      end
  end.

Definition getField (v : json) (key : string) : option json :=
  match v with
  | JObj members => lookup key members
  | _ => None
  end.

(** Truthiness of a value; [undefined] is falsy. *)
Definition truthy (v : option json) : bool :=
  match v with
  | None | Some JNull => false
  | Some (JBool b) => b
  | Some (JNum z) => negb (z =? 0)%Z
  | Some (JStr s) => JS.truthy s
  | Some (JArr _) | Some (JObj _) => true
  end.

(** [typeof v === "object"] (true of [null] as well). *)
Definition isObjectType (v : json) : bool :=
  match v with
  | JNull | JArr _ | JObj _ => true
  | _ => false
  end.

(** [Number(v)] for numbers, booleans and strings that spell a decimal
    integer; [None] is [NaN], which is also what this model answers for the
    other strings and for arrays and objects. *)
Definition toNumber (v : option json) : option Z :=
  match v with
  | Some (JNum z) => Some z
  | Some (JBool b) => Some (if b then 1 else 0)%Z
  | Some JNull => Some 0%Z
  | Some (JStr s) =>
      let t := JS.trim s in
      match t with
      | EmptyString => Some 0%Z
      | String c r =>
          let digits := if (N_of_ascii c =? 45)%N || (N_of_ascii c =? 43)%N then r else t in
          match digits with
          | EmptyString => None
          | String _ _ =>
              if JS.allDigits digits then
                let n := Z.of_N (fst (takeDigits digits 0%N)) in
                Some (if (N_of_ascii c =? 45)%N then - n else n)%Z
              else None
          end
      end
  | _ => None
  end.

(** How deep [parseValue] recurses on the text of a value. *)
Fixpoint fuelOf (v : json) : nat :=
  match v with
  | JArr items =>
      S ((fix elements (l : list json) : nat :=
            match l with
            | [] => O
            | x :: r => S (Nat.max (fuelOf x) (elements r))
            end) items)
  | JObj members =>
      S ((fix entries (l : list (string * json)) : nat :=
            match l with
            | [] => O
            | kv :: r => S (Nat.max (fuelOf (snd kv)) (entries r))
            end) members)
  | _ => 1%nat
  end.

Fixpoint elementsFuel (l : list json) : nat :=
  match l with
  | [] => O
  | x :: r => S (Nat.max (fuelOf x) (elementsFuel r))
  end.

Fixpoint entriesFuel (l : list (string * json)) : nat :=
  match l with
  | [] => O
  | kv :: r => S (Nat.max (fuelOf (snd kv)) (entriesFuel r))
  end.

(** What follows a value inside compact text: nothing, a comma, or a
    closing bracket or brace. *)
Definition delimited (rest : string) : bool :=
  match rest with
  | EmptyString => true
  | String c _ =>
      let n := N_of_ascii c in ((n =? 44) || (n =? 93) || (n =? 125))%N
  end.

(** The characters a value's text can start with. *)
Definition valueHead (c : ascii) : bool :=
  let n := N_of_ascii c in
  JS.isDigit c
  || ((n =? 110) || (n =? 116) || (n =? 102) || (n =? 34) || (n =? 45)
      || (n =? 91) || (n =? 123))%N.

(** The text of one member of an object. *)
Definition memberText (kv : string * json) : string :=
  quote (fst kv) ++ ":" ++ stringify (snd kv).

(** The property proved of every value: its text, followed by a
    delimiter, parses to the value and leaves what follows. *)
Definition ReadsBack (v : json) : Prop :=
  forall fuel rest, (fuelOf v <= fuel)%nat -> delimited rest = true ->
                    parseValue fuel (stringify v ++ rest) = Some (v, rest).

End JSON.

(** ** api/auth.js *)

Module Auth.

Record Env := {
  AUTH_MAGIC_LINK_SECRET : string;
  NEXTAUTH_SECRET : string;
  AUTH_ALLOWED_EMAILS : string;
  (** The configured number of minutes, [None] when unset or not a
      number. *)
  AUTH_MAGIC_LINK_EXPIRES_MINUTES : option Z
}.

Definition getAllowedEmails (env : Env) : list string :=
  let raw := JS.trim (AUTH_ALLOWED_EMAILS env) in
  if negb (JS.truthy raw) then []
  else filter JS.truthy
              (map (fun item => JS.toLowerCase (JS.trim item)) (JS.split "," raw)).

Definition getMagicLinkSecret (env : Env) : string :=
  Subscriptions.orElse (JS.trim (AUTH_MAGIC_LINK_SECRET env)) (JS.trim (NEXTAUTH_SECRET env)).

Definition getMagicLinkTTLMinutes (env : Env) : Z :=
  match AUTH_MAGIC_LINK_EXPIRES_MINUTES env with
  | None => 10
  | Some value => if value <=? 0 then 10 else Z.min 60 (Z.max 5 value)
  end.

Definition normalizeSignInCode (value : string) : string :=
  JS.slice0 6 (JS.filterChars JS.isDigit value).

Definition getLoginCodeSlot (timestamp ttlMinutes : Z) : Z :=
  let intervalMs := Z.max 1 (if ttlMinutes =? 0 then 10 else ttlMinutes) * 60 * 1000 in
  timestamp / intervalMs.

Definition loginCodeBase (email : string) (slot : Z) : string :=
  let normalizedEmail := JS.toLowerCase (JS.trim email) in
  normalizedEmail ++ "|" ++ JS.numberToString slot ++ "|renpay-login-code-v1".

Definition computeLoginCode (email secret : string) (slot : Z) : string :=
  let base := loginCodeBase email slot in
  let digest := Crypto.hmacSha256 (Crypto.bytesOfString secret) (Crypto.bytesOfString base) in
  let number := (Crypto.readUInt32BE digest mod 1000000)%N in
  JS.padStart 6 "0" (JS.numberToString (Z.of_N number)).

Definition base64UrlEncode (value : string) : string :=
  Base64Url.toBase64Url (Crypto.bytesOfString value).

Definition base64UrlDecode (value : string) : string :=
  Crypto.stringOfBytes (Base64Url.fromBase64Url value).

(** [crypto.createHmac("sha256", secret).update(payload).digest("base64url")]. *)
Definition hmacBase64Url (secret payload : string) : string :=
  Base64Url.toBase64Url
    (Crypto.hmacSha256 (Crypto.bytesOfString secret) (Crypto.bytesOfString payload)).

Definition signMagicToken (payloadObj : JSON.json) (secret : string) : string :=
  let payload := base64UrlEncode (JSON.stringify payloadObj) in
  let signature := hmacBase64Url secret payload in
  payload ++ "." ++ signature.

Inductive VerifyResult :=
| Invalid (reason : string)
| Valid (payload : JSON.json).

(** The checks on the parsed payload. *)
Definition checkPayload (payload : JSON.json) (now : Z) : VerifyResult :=
  if negb (JSON.truthy (Some payload))
     || negb (JSON.isObjectType payload)
     || negb (JSON.truthy (JSON.getField payload "email"))
     || negb (JSON.truthy (JSON.getField payload "exp"))
  then Invalid "Incomplete token payload"
  else match JSON.toNumber (JSON.getField payload "exp") with
       | Some exp => if exp <? now then Invalid "Token expired" else Valid payload
       | None => Valid payload
       end.

(** [verifyMagicToken]; [now] is the reading of [Date.now()], and [None]
    stands for the [RangeError] that [crypto.timingSafeEqual] throws on
    buffers of different lengths, which nothing here would catch. *)
Definition verifyMagicToken (token secret : string) (now : Z) : option VerifyResult :=
  if negb (JS.truthy token) then Some (Invalid "Missing token")
  else
  match JS.split "." token with
  | [payloadPart; signaturePart] =>
      let expectedSignature := hmacBase64Url secret payloadPart in
      let givenBuf := Crypto.bytesOfString signaturePart in
      let expectedBuf := Crypto.bytesOfString expectedSignature in
      if negb (List.length givenBuf =? List.length expectedBuf)%nat then
        Some (Invalid "Invalid token signature")
      else
      match Crypto.timingSafeEqual givenBuf expectedBuf with
      | None => None
      | Some false => Some (Invalid "Invalid token signature")
      | Some true =>
          match JSON.parse (base64UrlDecode payloadPart) with
          | None => Some (Invalid "Invalid token payload")
          | Some payload => Some (checkPayload payload now)
          end
      end
  | _ => Some (Invalid "Invalid token format")
  end.

Definition SESSION_TTL_SECONDS : Z := 14 * 24 * 60 * 60.

(** [createSessionToken]; [nonce] is the hex of the random bytes. *)
Definition createSessionToken (userId email secret : string) (now : Z) (nonce : string)
  : string :=
  signMagicToken
    (JSON.JObj [("uid", JSON.JStr userId);
                ("email", JSON.JStr (JS.toLowerCase (JS.trim email)));
                ("iat", JSON.JNum now);
                ("exp", JSON.JNum (now + SESSION_TTL_SECONDS * 1000));
                ("nonce", JSON.JStr nonce)])
    secret.

Definition verifySessionToken (token secret : string) (now : Z) : option VerifyResult :=
  match verifyMagicToken token secret now with
  | Some (Valid payload) =>
      if negb (JSON.truthy (JSON.getField payload "uid"))
         || negb (JSON.truthy (JSON.getField payload "email"))
      then Some (Invalid "Invalid session payload")
      else Some (Valid payload)
  | other => other
  end.

(** The [verify_login_code] action up to the check of the code: either
    the response that rejects the request, or the verified email with
    which the handler goes on to sign the user in. *)
Inductive CodeCheck :=
| Rejected (status : Z) (error code : string)
| CodeAccepted (verifiedEmail : string).

Definition memberOf (x : string) (l : list string) : bool :=
  existsb (String.eqb x) l.

Definition verifyLoginCode (env : Env) (now : Z) (email code : string) : CodeCheck :=
  let normalizedEmail := JS.toLowerCase (JS.trim email) in
  if negb (JS.truthy normalizedEmail) then
    Rejected 400 "Missing required field: email" ""
  else if negb (JS.matchesEmailPattern normalizedEmail) then
    Rejected 400 "Invalid email format" ""
  else
  let normalizedCode := normalizeSignInCode code in
  if negb (JS.truthy normalizedCode) || negb (String.length normalizedCode =? 6)%nat then
    Rejected 400 "Missing or invalid sign-in code" ""
  else
  let secret := getMagicLinkSecret env in
  if negb (JS.truthy secret) then
    Rejected 500 "Auth secret is not configured." "AUTH_SECRET_MISSING"
  else
  let allowedEmails := getAllowedEmails env in
  if (0 <? List.length allowedEmails)%nat && negb (memberOf normalizedEmail allowedEmails) then
    Rejected 403 "This email is not allowed to sign in." "EMAIL_NOT_ALLOWED"
  else
  let ttlMinutes := getMagicLinkTTLMinutes env in
  let currentSlot := getLoginCodeSlot now ttlMinutes in
  let validCodes := [computeLoginCode normalizedEmail secret currentSlot;
                     computeLoginCode normalizedEmail secret (currentSlot - 1)] in
  if negb (memberOf normalizedCode validCodes) then
    Rejected 401 "Invalid or expired sign-in code." "INVALID_SIGNIN_CODE"
  else CodeAccepted normalizedEmail.

(** The loop of [getActiveSubscriptionOrNull]: its state is the pair of
    the variables [tier] and [selected]. *)
Definition selectStep (st : Tier * option Subscription) (subscription : Subscription)
  : Tier * option Subscription :=
  let '(tier, selected) := st in
  let nextTier := getTierFromPlan (sub_plan subscription) in
  match selected with
  | None => (nextTier, Some subscription)
  | Some sel =>
      if getTierRank nextTier >? getTierRank tier then (nextTier, Some subscription)
      else if (getTierRank nextTier =? getTierRank tier)
              && (sub_expiresAt subscription >? sub_expiresAt sel)
      then (tier, Some subscription)
      else (tier, selected)
  end.

Definition selectLoop (subscriptions : list Subscription) : Tier * option Subscription :=
  fold_left selectStep subscriptions (free, None).

Record ActiveSubscription := {
  as_subscription : option Subscription;
  as_tier : Tier;
  as_planFeatures : PlanFeatures
}.

Definition getActiveSubscriptionOrNull (db : Db) (now : Z) (userId : nat)
  : ActiveSubscription :=
  let subscriptions := Subscriptions.getCurrentActiveSubscriptions db now userId in
  let '(tier, selected) := selectLoop subscriptions in
  {| as_subscription := selected; as_tier := tier;
     as_planFeatures := getPlanFeatures tier |}.

(** [isInvitedEmail]: an invite for the email is still open. *)
Definition isInvitedEmail (db : Db) (normalizedEmail : string) : bool :=
  match Prisma.findFirst
          (fun i => (inv_inviteeEmail i =? normalizedEmail)%string
                    && Subscriptions.isOpenInvite i)
          (db_referralInvites db) with
  | Some _ => true
  | None => false
  end.

(** The payload that the [send_magic_link] action signs; [nonce] is the
    hex of the random bytes. *)
Definition magicLinkPayload (normalizedEmail : string) (now ttlMinutes : Z) (nonce : string)
  : JSON.json :=
  JSON.JObj [("email", JSON.JStr normalizedEmail);
             ("iat", JSON.JNum now);
             ("exp", JSON.JNum (now + ttlMinutes * 60 * 1000));
             ("nonce", JSON.JStr nonce)].

(** The payload that [createSessionToken] signs. *)
Definition sessionPayload (userId email : string) (now : Z) (nonce : string) : JSON.json :=
  JSON.JObj [("uid", JSON.JStr userId);
             ("email", JSON.JStr (JS.toLowerCase (JS.trim email)));
             ("iat", JSON.JNum now);
             ("exp", JSON.JNum (now + SESSION_TTL_SECONDS * 1000));
             ("nonce", JSON.JStr nonce)].

(** [envFlag]; the argument is the value of the variable, empty when it
    is not set. *)
Definition envFlag (value : string) : bool :=
  memberOf (JS.toLowerCase (JS.trim value)) ["1"; "true"; "yes"; "on"].

(** [findOrCreateUserByEmailWithFlag]; [autoSignup] is the value of
    [AUTH_AUTO_SIGNUP]. The [role] column, which the new row gets as
    CLIENT and which no handler decides on, is not among the columns of
    the model's user rows. *)
Definition findOrCreateUserByEmailWithFlag (autoSignup : string) (db : Db) (now : Z)
           (normalizedEmail : string) (allowCreate : bool) : option User * Db :=
  match Subscriptions.findUserByEmail db normalizedEmail with
  | Some user => (Some user, db)
  | None =>
      if negb allowCreate && negb (envFlag autoSignup) then (None, db)
      else
        let user := {| user_id := db_nextId db;
                       user_email := normalizedEmail;
                       user_name := nth 0 (JS.split "@" normalizedEmail) "";
                       user_emailVerifiedAt := None;
                       user_createdAt := now |} in
        (Some user, withUsers db (db_users db ++ [user]) (S (db_nextId db)))
  end.

Definition setEmailVerifiedAt (now : Z) (u : User) : User :=
  {| user_id := user_id u; user_email := user_email u; user_name := user_name u;
     user_emailVerifiedAt := Some now; user_createdAt := user_createdAt u |}.

(** What the response shows of the subscription. *)
Record SubscriptionJson := {
  sj_plan : string;
  sj_status : string;
  sj_expiresAt : Z
}.

Inductive AuthBody :=
| AError (error code : string)
| ASignedIn (user : User) (subscription : option SubscriptionJson) (tier : Tier)
            (planFeatures : PlanFeatures).

Record AuthResult := { ar_ok : bool; ar_status : Z; ar_body : AuthBody }.

(** [buildAuthSuccessResponse]. *)
Definition buildAuthSuccessResponse (autoSignup : string) (db : Db) (now : Z)
           (verifiedEmail : string) : AuthResult * Db :=
  let invited := isInvitedEmail db verifiedEmail in
  match findOrCreateUserByEmailWithFlag autoSignup db now verifiedEmail invited with
  | (None, db0) =>
      ({| ar_ok := false; ar_status := 401;
          ar_body := AError "Account not found. Please contact admin to create your account."
                            "ACCOUNT_NOT_FOUND" |}, db0)
  | (Some user, db0) =>
      let '(user', db1) :=
        match user_emailVerifiedAt user with
        | Some _ => (user, db0)
        | None =>
            (setEmailVerifiedAt now user,
             withUsers db0
               (Prisma.updateMany (fun u => (user_id u =? user_id user)%nat)
                                  (setEmailVerifiedAt now) (db_users db0))
               (db_nextId db0))
        end in
      let active := getActiveSubscriptionOrNull db1 now (user_id user') in
      ({| ar_ok := true; ar_status := 200;
          ar_body :=
            ASignedIn user'
              (match as_subscription active with
               | Some subscription =>
                   Some {| sj_plan := sub_plan subscription;
                           sj_status := sub_status subscription;
                           sj_expiresAt := sub_expiresAt subscription |}
               | None => None
               end)
              (as_tier active) (as_planFeatures active) |}, db1)
  end.

End Auth.

(** ** The cancellation of the other subscriptions as the specification
       words it *)



(** ** The referral bonus as the specification words it *)

(** The later of [now] and the latest expiry among the user's active
    subscriptions. *)
Definition laterOfNowAndExpiry (db : Db) (userId : nat) (now : Z) : Z :=
  fold_right Z.max now
    (map sub_expiresAt
         (filter (fun s => (sub_userId s =? userId)%nat && Subscriptions.isActive s)
                 (db_subscriptions db))).

(** The Gregorian calendar: leap years and the length of the month [m]
    (1 to 12) of the year [y]. *)
Definition isLeapYear (y : Z) : bool :=
  ((y mod 4 =? 0) && negb (y mod 100 =? 0)) || (y mod 400 =? 0).

Definition daysInMonth (y m : Z) : Z :=
  if m =? 2 then (if isLeapYear y then 29 else 28)
  else if (m =? 4) || (m =? 6) || (m =? 9) || (m =? 11) then 30
  else 31.

(** One month after an instant: the same time of day on the day of the
    same number in the month that follows, counted on into the month after
    when that month is too short; that is, as many days later as the month
    of the instant has. *)
Definition oneMonthAfter (t : Z) : Z :=
  t + daysInMonth (JSDate.getFullYear t) (JSDate.getMonth t + 1) * JSDate.msPerDay.

(** A one-month bonus row for [userId] that starts at [startsAt]. *)
Definition bonusRow (id userId : nat) (startsAt now : Z) : Subscription :=
  {| sub_id := id;
     sub_userId := userId;
     sub_plan := "personal_referral_bonus";
     sub_status := "active";
     sub_gateway := REFERRAL;
     sub_gatewaySubscriptionId := None;
     sub_startedAt := startsAt;
     sub_nextBillingAt := Some (oneMonthAfter startsAt);
     sub_expiresAt := oneMonthAfter startsAt;
     sub_createdAt := now |}.

(** ** The reward lifecycle as the specification words it *)

(** Every invite row with this id has been rewarded. *)
Definition rewardedId (db : Db) (id : nat) : Prop :=
  forall r, In r (db_referralInvites db) -> inv_id r = id -> inv_status r = REWARDED.

(** Row by row, the table keeps its ids and a rewarded row stays
    rewarded. *)
Definition staysRewarded (before after : list ReferralInvite) : Prop :=
  Forall2 (fun i i' => inv_id i' = inv_id i
                       /\ (inv_status i = REWARDED -> inv_status i' = REWARDED))
          before after.

(** A run of reward attempts, one per (invitee, clock reading). *)
Fixpoint applyRewards (db : Db) (calls : list (User * Z))
  : list (option Subscriptions.RewardInfo) * Db :=
  match calls with
  | [] => ([], db)
  | (user, now) :: rest =>
      let '(reward, db') := Subscriptions.applyReferralReward db user now in
      let '(rewards, db'') := applyRewards db' rest in
      (reward :: rewards, db'')
  end.

Definition bonusSubscriptions (db : Db) : list Subscription :=
  filter (fun s => PaymentGateway_eqb (sub_gateway s) REFERRAL) (db_subscriptions db).

(** ** The sign-in code window as the specification words it *)

(** The request passes every check of [verify_login_code] that comes
    before the comparison of the code. *)
Definition emailMaySignIn (env : Auth.Env) (email : string) : Prop :=
  let e := JS.toLowerCase (JS.trim email) in
  e <> ""
  /\ JS.matchesEmailPattern e = true
  /\ Auth.getMagicLinkSecret env <> ""
  /\ (Auth.getAllowedEmails env = [] \/ Auth.memberOf e (Auth.getAllowedEmails env) = true).

(** ** The columns that a synchronisation with the gateway never writes *)

Definition keptBySync (s : Subscription)
  : nat * nat * string * PaymentGateway * option string * Z * Z :=
  (sub_id s, sub_userId s, sub_plan s, sub_gateway s, sub_gatewaySubscriptionId s,
   sub_startedAt s, sub_createdAt s).

(** ** Abbreviations of the further properties *)

(** What a synchronisation with the gateway writes at most: the status
    and the billing dates of subscription rows. *)
Definition onlySynchronised (before after : Db) : Prop :=
  db_users after = db_users before
  /\ db_referralInvites after = db_referralInvites before
  /\ db_clientProfiles after = db_clientProfiles before
  /\ db_orders after = db_orders before
  /\ db_nextId after = db_nextId before
  /\ map keptBySync (db_subscriptions after) = map keptBySync (db_subscriptions before).

(** What [getOrCreateUserByEmail] returns and what it writes. *)
Definition UserGotOrCreated (db : Db) (email : string) (user : User) (db' : Db) : Prop :=
  user_email user = Subscriptions.normalizeEmail email
  /\ user_email user <> ""
  /\ Subscriptions.findUserByEmail db' (Subscriptions.normalizeEmail email) = Some user
  /\ (forall now' email',
         Subscriptions.normalizeEmail email' = Subscriptions.normalizeEmail email ->
         Subscriptions.getOrCreateUserByEmail db' now' email' = Some (user, db'))
  /\ (db' = db
      \/ (Subscriptions.findUserByEmail db (Subscriptions.normalizeEmail email) = None
          /\ db' = withUsers db (db_users db ++ [user]) (S (db_nextId db))
          /\ user_id user = db_nextId db))
  /\ (NoDup (map user_email (db_users db)) -> NoDup (map user_email (db_users db'))).

(** The tier of a subscription row. *)
Definition tierOfRow (s : Subscription) : Tier := getTierFromPlan (sub_plan s).

(** The state of the loop of [resolveTierFromSubscriptions] after the
    rows [seen]. *)
Definition Resolved (seen : list Subscription) (st : Tier * option string) : Prop :=
  fst st = fold_left pickBestTier (map tierOfRow seen) free
  /\ (forall s, In s seen -> getTierRank (tierOfRow s) <= getTierRank (fst st))
  /\ match snd st with
     | Some plan => exists s, In s seen /\ sub_plan s = plan /\ getTierFromPlan plan = fst st
     | None => fst st = free
     end.

(** ** Sample data for the worked instances *)

Definition sampleEnv : Subscriptions.Env :=
  {| Subscriptions.PAYPAL_PLAN_ID_BUSINESS_ANNUAL := "P-BA";
     Subscriptions.PAYPAL_PLAN_ID_BUSINESS_MONTHLY := "P-BM";
     Subscriptions.PAYPAL_PLAN_ID_PERSONAL_ANNUAL := "P-PA";
     Subscriptions.PAYPAL_PLAN_ID_ANNUAL := "";
     Subscriptions.PAYPAL_PLAN_ID_PERSONAL_MONTHLY := "P-PM";
     Subscriptions.PAYPAL_PLAN_ID_MONTHLY := "";
     Subscriptions.fetchPayPalSubscription :=
       fun id =>
         if (id =? "I-1")%string
         then Some {| Subscriptions.pp_status := "ACTIVE";
                      Subscriptions.pp_plan_id := "P-BM";
                      Subscriptions.pp_start_time := Some 1700000000000;
                      Subscriptions.pp_next_billing_time := Some 1702592000000 |}
         else None;
     Subscriptions.notKeepsNull := false |}.


Definition sampleNow : Z := 1700000000000.

Definition sampleReferrer : User :=
  {| user_id := 1; user_email := "ref@example.com"; user_name := "ref";
     user_emailVerifiedAt := None; user_createdAt := 1680000000000 |}.

Definition sampleInvitee : User :=
  {| user_id := 2; user_email := "ann@example.com"; user_name := "ann";
     user_emailVerifiedAt := None; user_createdAt := 1690000000000 |}.

Definition sampleOldSubscription : Subscription :=
  {| sub_id := 3; sub_userId := 2; sub_plan := "personal_monthly";
     sub_status := "active"; sub_gateway := PAYPAL;
     sub_gatewaySubscriptionId := Some "I-0";
     sub_startedAt := 1690000000000; sub_nextBillingAt := Some 1701000000000;
     sub_expiresAt := 1701000000000; sub_createdAt := 1690000000000 |}.

Definition sampleReferrerSubscription : Subscription :=
  {| sub_id := 4; sub_userId := 1; sub_plan := "personal_annual";
     sub_status := "active"; sub_gateway := INTERNAL;
     sub_gatewaySubscriptionId := None;
     sub_startedAt := 1690000000000; sub_nextBillingAt := Some 1720000000000;
     sub_expiresAt := 1720000000000; sub_createdAt := 1690000000000 |}.

Definition sampleInvite : ReferralInvite :=
  {| inv_id := 5; inv_referrerUserId := 1; inv_inviteeEmail := "ann@example.com";
     inv_inviteeUserId := None; inv_status := PENDING; inv_rewardedAt := None;
     inv_referralCode := "c0ffee"; inv_createdAt := 1699000000000 |}.

Definition sampleDb : Db :=
  {| db_users := [sampleReferrer; sampleInvitee];
     db_subscriptions := [sampleOldSubscription; sampleReferrerSubscription];
     db_referralInvites := [sampleInvite];
     db_clientProfiles := [];
     db_orders := [];
     db_nextId := 6%nat |}.




(** The database after the sample user has activated once. *)
Definition sampleDbActivated : Db :=
  snd (Subscriptions.handleActivatePayPal sampleEnv sampleDb sampleNow
         "Ann@Example.com" "" "I-1" "business" "monthly").


Definition sampleProfile : ClientProfile :=
  {| cp_id := 3; cp_userId := 2; cp_clientId := "C-1";
     cp_clientEmail := "Bob@Client.com"; cp_clientName := Some "Bob";
     cp_createdAt := 1690000000000; cp_updatedAt := 1690000000000 |}.

Definition sampleProfileDb : Db :=
  {| db_users := [sampleInvitee]; db_subscriptions := [];
     db_referralInvites := []; db_clientProfiles := [sampleProfile];
     db_orders := []; db_nextId := 4%nat |}.

Definition sampleAuthEnv : Auth.Env :=
  {| Auth.AUTH_MAGIC_LINK_SECRET := "renpay-dev-secret";
     Auth.NEXTAUTH_SECRET := "";
     Auth.AUTH_ALLOWED_EMAILS := "";
     Auth.AUTH_MAGIC_LINK_EXPIRES_MINUTES := None |}.

Definition samplePayload : JSON.json :=
  JSON.JObj [("email", JSON.JStr "ann@example.com");
             ("iat", JSON.JNum 1700000000000);
             ("exp", JSON.JNum 1700000600000);
             ("nonce", JSON.JStr "5f2d8c0a9b1e4f7a6c3d2e1f0a9b8c7d")].

(* ================================================================== *)
(** * Part II: properties                                              *)
(* ================================================================== *)

(** ** Strings *)

Section StringFacts.

Lemma lowerChar_upperChar (c : ascii) : JS.lowerChar (JS.upperChar c) = JS.lowerChar c.
Proof. destruct c as [[] [] [] [] [] [] [] []]; reflexivity. Qed.

Lemma lowerChar_idem (c : ascii) : JS.lowerChar (JS.lowerChar c) = JS.lowerChar c.
Proof. destruct c as [[] [] [] [] [] [] [] []]; reflexivity. Qed.

Lemma toLowerCase_toUpperCase (s : string) :
  JS.toLowerCase (JS.toUpperCase s) = JS.toLowerCase s.
Proof.
  induction s as [|c r IH]; simpl; [reflexivity|].
  unfold JS.toLowerCase, JS.toUpperCase in *. simpl.
  now rewrite lowerChar_upperChar, IH.
Qed.

Lemma toLowerCase_idem (s : string) :
  JS.toLowerCase (JS.toLowerCase s) = JS.toLowerCase s.
Proof.
  induction s as [|c r IH]; simpl; [reflexivity|].
  unfold JS.toLowerCase in *. simpl. now rewrite lowerChar_idem, IH.
Qed.

Lemma mapChars_empty (f : ascii -> ascii) (s : string) :
  JS.mapChars f s = "" <-> s = "".
Proof. destruct s; simpl; split; congruence. Qed.

Lemma truthy_spec (s : string) : JS.truthy s = false <-> s = "".
Proof.
  unfold JS.truthy. destruct (String.eqb_spec s ""); simpl; split; congruence.
Qed.

Lemma truthy_toUpperCase (s : string) : JS.truthy (JS.toUpperCase s) = JS.truthy s.
Proof. destruct s; reflexivity. Qed.

End StringFacts.

(** ** The plan catalog *)

Example getTierFromPlan_business_annual :
  getTierFromPlan "business_annual" = business.
Proof. reflexivity. Qed.

Example getTierFromPlan_referral_bonus :
  getTierFromPlan "personal_referral_bonus" = personal.
Proof. reflexivity. Qed.

Example getTierFromPlan_empty : getTierFromPlan "" = free.
Proof. reflexivity. Qed.

(** C8, as stated, fails: the code trims the plan before it compares, so
    a padded ["monthly"] is a personal plan, while lowercasing alone leaves
    a string that is none of the listed cases. *)
Lemma tier_resolution_untrimmed_counterexample :
  getTierFromPlan " monthly" = personal
  /\ tierFromPlanString_spec " monthly" = free.
Proof. split; reflexivity. Qed.

(** C8 (amended): for every plan string, tier resolution trims surrounding
    white space and lowercases the input, then returns business when the
    result contains "business"; personal when it contains "personal",
    equals "monthly" or "annual", or contains "referral"; free otherwise,
    the empty string included. The ranks are business 3 > personal 2 >
    free 1. *)
Theorem tier_resolution_trims_and_lowercases :
  (forall plan : string,
      getTierFromPlan plan = tierFromPlanString_spec (JS.trim plan))
  /\ getTierRank business = 3 /\ getTierRank personal = 2 /\ getTierRank free = 1
  /\ getTierRank free < getTierRank personal < getTierRank business.
Proof.
  split.
  - intro plan. unfold getTierFromPlan, tierFromPlanString_spec, normalizePlan.
    destruct (JS.truthy (JS.toLowerCase (JS.trim plan))) eqn:E; simpl; [reflexivity|].
    apply truthy_spec in E. rewrite E. reflexivity.
  - repeat split; simpl; lia.
Qed.

Lemma getTierRank_inj (a b : Tier) : getTierRank a = getTierRank b -> a = b.
Proof. destruct a, b; simpl; intro H; solve [reflexivity | discriminate H]. Qed.

(** ** Status mapping *)

(** C3, as stated, fails on the empty status: the code answers "pending",
    not the (empty) lowercase passthrough. *)
Lemma status_mapping_empty_counterexample :
  Subscriptions.mapPayPalStatusToLocal "" = "pending"
  /\ Subscriptions.mapStatus_spec "" = "".
Proof. split; reflexivity. Qed.

(** C3 (amended): ACTIVE maps to active, APPROVAL_PENDING to pending,
    SUSPENDED to suspended, CANCELLED and EXPIRED to canceled (compared
    case-insensitively); any other non-empty status maps to its lowercase
    passthrough, and an empty (missing) status maps to pending. *)
Theorem status_mapping_total (paypalStatus : string) :
  Subscriptions.mapPayPalStatusToLocal paypalStatus =
  if (paypalStatus =? "")%string then "pending"
  else Subscriptions.mapStatus_spec paypalStatus.
Proof.
  unfold Subscriptions.mapPayPalStatusToLocal, Subscriptions.mapStatus_spec.
  destruct (String.eqb_spec paypalStatus "") as [->|Hne]; [reflexivity|].
  repeat match goal with
         | |- context [if ?b then _ else _] =>
             lazymatch b with
             | JS.truthy _ => fail
             | _ => destruct b; [reflexivity|]
             end
         end.
  rewrite truthy_toUpperCase, toLowerCase_toUpperCase.
  destruct (JS.truthy paypalStatus) eqn:E; [reflexivity|].
  apply truthy_spec in E. contradiction.
Qed.

Example status_mapping_cases :
  map Subscriptions.mapPayPalStatusToLocal
      ["ACTIVE"; "APPROVAL_PENDING"; "SUSPENDED"; "CANCELLED"; "EXPIRED"; "Approved"; "active"]
  = ["active"; "pending"; "suspended"; "canceled"; "canceled"; "approved"; "active"].
Proof. reflexivity. Qed.

(** ** Winner selection *)

Section Winner.

Lemma selectStep_better (acc row : Subscription) :
  Subscriptions.selectStep (Some acc) row = Some (better acc row).
Proof.
  unfold Subscriptions.selectStep, better, rankOf.
  rewrite Z.gtb_ltb.
  destruct (_ <? _); [reflexivity|].
  rewrite (Z.gtb_ltb (sub_expiresAt row)).
  destruct (_ && _); reflexivity.
Qed.

Lemma fold_selectStep (rest : list Subscription) (acc : Subscription) :
  fold_left Subscriptions.selectStep rest (Some acc) = Some (fold_left better rest acc).
Proof.
  revert acc. induction rest as [|row rest IH]; intro acc; simpl; [reflexivity|].
  rewrite <- IH. f_equal. apply selectStep_better.
Qed.

Lemma auth_selectStep_better (acc row : Subscription) :
  Auth.selectStep (getTierFromPlan (sub_plan acc), Some acc) row
  = (getTierFromPlan (sub_plan (better acc row)), Some (better acc row)).
Proof.
  unfold Auth.selectStep, better, rankOf.
  rewrite Z.gtb_ltb.
  destruct (_ <? _); [reflexivity|].
  rewrite (Z.gtb_ltb (sub_expiresAt row)).
  destruct (Z.eqb_spec (getTierRank (getTierFromPlan (sub_plan row)))
                       (getTierRank (getTierFromPlan (sub_plan acc))))
    as [Heq|Hne]; simpl; [|reflexivity].
  destruct (sub_expiresAt acc <? sub_expiresAt row); [|reflexivity].
  apply getTierRank_inj in Heq. now rewrite Heq.
Qed.

Lemma auth_fold_selectStep (rest : list Subscription) (acc : Subscription) :
  fold_left Auth.selectStep rest (getTierFromPlan (sub_plan acc), Some acc)
  = (getTierFromPlan (sub_plan (fold_left better rest acc)),
     Some (fold_left better rest acc)).
Proof.
  revert acc. induction rest as [|row rest IH]; intro acc; simpl; [reflexivity|].
  rewrite <- IH. f_equal. apply auth_selectStep_better.
Qed.

(** Both loops compute the reduction of the specification. *)
Lemma selectSubscription_winner (rows : list Subscription) :
  Subscriptions.selectSubscription rows = winner rows.
Proof.
  destruct rows as [|first rest]; [reflexivity|].
  unfold Subscriptions.selectSubscription. simpl. apply fold_selectStep.
Qed.

Lemma auth_selectLoop_winner (rows : list Subscription) :
  snd (Auth.selectLoop rows) = winner rows.
Proof.
  destruct rows as [|first rest]; [reflexivity|].
  unfold Auth.selectLoop. simpl.
  now rewrite auth_fold_selectStep.
Qed.

(** C1: on a non-empty list both resolvers return the left-to-right
    reduction started at the first row (strictly higher tier rank
    replaces the accumulator; on equal rank a strictly later expiresAt
    does); and of two rows of equal tier the one that expires later wins
    in either order. *)
Theorem winner_is_pairwise_reduction (first : Subscription) (rest : list Subscription) :
  Subscriptions.selectSubscription (first :: rest) = Some (fold_left better rest first)
  /\ snd (Auth.selectLoop (first :: rest)) = Some (fold_left better rest first)
  /\ (forall a b : Subscription,
         rankOf a = rankOf b ->
         sub_expiresAt b < sub_expiresAt a ->
         Subscriptions.selectSubscription [a; b] = Some a
         /\ Subscriptions.selectSubscription [b; a] = Some a
         /\ snd (Auth.selectLoop [a; b]) = Some a
         /\ snd (Auth.selectLoop [b; a]) = Some a).
Proof.
  split; [apply (selectSubscription_winner (first :: rest))|].
  split; [apply (auth_selectLoop_winner (first :: rest))|].
  intros a b Hrank Hexp.
  rewrite !selectSubscription_winner, !auth_selectLoop_winner. simpl.
  unfold better. rewrite Hrank, Z.ltb_irrefl, Z.eqb_refl. simpl.
  assert (H1 : (sub_expiresAt a <? sub_expiresAt b) = false) by (apply Z.ltb_ge; lia).
  assert (H2 : (sub_expiresAt b <? sub_expiresAt a) = true) by (apply Z.ltb_lt; lia).
  rewrite H1, H2. auto.
Qed.

End Winner.

(** ** The query primitives *)

Section PrismaFacts.

Context {A : Type}.

Lemma insertSorted_perm (before : A -> A -> bool) (x : A) (l : list A) (y : A) :
  In y (Prisma.insertSorted before x l) <-> y = x \/ In y l.
Proof.
  induction l as [|z r IH]; simpl.
  - intuition congruence.
  - destruct (before x z); simpl; [intuition congruence|].
    rewrite IH. intuition congruence.
Qed.

Lemma orderBy_In (before : A -> A -> bool) (l : list A) (y : A) :
  In y (Prisma.orderBy before l) <-> In y l.
Proof.
  induction l as [|x r IH]; simpl; [reflexivity|].
  rewrite insertSorted_perm, IH. intuition congruence.
Qed.

Lemma orderBy_nil_inv (before : A -> A -> bool) (l : list A) :
  Prisma.orderBy before l = [] -> l = [].
Proof.
  destruct l as [|x r]; [reflexivity|]. simpl. intro H.
  assert (Hin : In x (Prisma.insertSorted before x (Prisma.orderBy before r)))
    by (apply insertSorted_perm; now left).
  rewrite H in Hin. destruct Hin.
Qed.

Lemma findFirst_any (l : list A) :
  Prisma.findFirst (fun _ => true) l = hd_error l.
Proof. destruct l; reflexivity. Qed.

Lemma updateMany_length (p : A -> bool) (f : A -> A) (l : list A) :
  List.length (Prisma.updateMany p f l) = List.length l.
Proof. apply length_map. Qed.

Lemma updateMany_In_hit (p : A -> bool) (f : A -> A) (l : list A) (x : A) :
  In x l -> p x = true -> In (f x) (Prisma.updateMany p f l).
Proof.
  intros Hin Hp. unfold Prisma.updateMany.
  apply in_map_iff. exists x. now rewrite Hp.
Qed.

Lemma updateMany_In_miss (p : A -> bool) (f : A -> A) (l : list A) (x : A) :
  In x l -> p x = false -> In x (Prisma.updateMany p f l).
Proof.
  intros Hin Hp. unfold Prisma.updateMany.
  apply in_map_iff. exists x. now rewrite Hp.
Qed.

Lemma updateMany_filter (p q : A -> bool) (f : A -> A) (l : list A) :
  (forall x, q (f x) = q x) ->
  List.length (filter q (Prisma.updateMany p f l)) = List.length (filter q l).
Proof.
  intro Hq. induction l as [|x r IH]; simpl; [reflexivity|].
  assert (E : q (if p x then f x else x) = q x) by (destruct (p x); auto).
  rewrite E. destruct (q x); simpl; now rewrite IH.
Qed.



End PrismaFacts.

(** ** GET /subscriptions for an unknown email *)

Lemma findUserByEmail_none (db : Db) (email : string) :
  (forall u, In u (db_users db) -> user_email u <> email) ->
  Subscriptions.findUserByEmail db email = None.
Proof.
  intro H. unfold Subscriptions.findUserByEmail, Prisma.findFirst.
  destruct (find _ _) as [u|] eqn:E; [|reflexivity].
  apply find_some in E. destruct E as [Hin Heq].
  apply String.eqb_eq in Heq. now apply H in Hin.
Qed.

(** C10: a GET for a (non-empty) email that matches no user record
    answers 200 with no subscription, the free tier and its features and
    both usage counters zero, and leaves the database as it was. *)
Theorem handleGet_unknown_email
        (env : Subscriptions.Env) (db : Db) (now : Z) (queryEmail : string) :
  Subscriptions.normalizeEmail queryEmail <> "" ->
  (forall u, In u (db_users db) ->
             user_email u <> Subscriptions.normalizeEmail queryEmail) ->
  Subscriptions.handleGet env db now queryEmail =
  ({| Subscriptions.res_status := 200;
      Subscriptions.res_body :=
        Subscriptions.BPlanState None free (PLAN_FEATURES free)
          {| Subscriptions.ordersToday := 0; Subscriptions.ordersThisWeek := 0 |} |},
   db).
Proof.
  intros Hne Hnew. unfold Subscriptions.handleGet.
  destruct (JS.truthy (Subscriptions.normalizeEmail queryEmail)) eqn:E.
  - simpl. now rewrite (findUserByEmail_none _ _ Hnew).
  - apply truthy_spec in E. contradiction.
Qed.

Lemma handleGet_unknown_email_witness :
  Subscriptions.handleGet sampleEnv emptyDb 1700000000000 " New@Example.com " =
  ({| Subscriptions.res_status := 200;
      Subscriptions.res_body :=
        Subscriptions.BPlanState None free (PLAN_FEATURES free)
          {| Subscriptions.ordersToday := 0; Subscriptions.ordersThisWeek := 0 |} |},
   emptyDb).
Proof.
  apply (handleGet_unknown_email sampleEnv emptyDb 1700000000000 " New@Example.com ").
  - discriminate.
  - intros u [].
Defined.

(** ** Calendar arithmetic *)

Section Calendar.

Import JSDate.

Ltac decide_tests :=
  repeat match goal with
         | |- context [?a <=? ?b] => destruct (Z.leb_spec a b); try lia
         | |- context [?a <? ?b] => destruct (Z.ltb_spec a b); try lia
         end.

(** The two calendar conversions are inverse to each other on day
    numbers, and the civil date is a date. *)
Lemma civil_roundtrip (z : Z) :
  let '(y, m, d) := civilFromDays z in
  daysFromCivil y m d = z /\ 1 <= m <= 12 /\ 1 <= d <= 31.
Proof.
  unfold civilFromDays, daysFromCivil.
  set (z' := z + 719468).
  set (era := z' / 146097).
  set (doe := z' - era * 146097).
  assert (Hdoe : 0 <= doe < 146097) by (subst doe era; Z.div_mod_to_equations; lia).
  set (yoe := (doe - doe / 1460 + doe / 36524 - doe / 146096) / 365).
  assert (Hyoe : 0 <= yoe < 400) by (subst yoe; Z.div_mod_to_equations; lia).
  set (doy := doe - (365 * yoe + yoe / 4 - yoe / 100)).
  assert (Hdoy : 0 <= doy < 366) by (subst doy yoe; Z.div_mod_to_equations; lia).
  set (mp := (5 * doy + 2) / 153).
  assert (Hmp : 0 <= mp < 12) by (subst mp; Z.div_mod_to_equations; lia).
  set (d := doy - (153 * mp + 2) / 5 + 1).
  assert (Hd : 1 <= d <= 31) by (subst d mp; Z.div_mod_to_equations; lia).
  cbv zeta.
  destruct (Z.ltb_spec mp 10) as [Hlt|Hge].
  - destruct (Z.leb_spec (mp + 3) 2); [lia|].
    destruct (Z.ltb_spec 2 (mp + 3)); [|lia].
    replace (mp + 3 - 3) with mp by lia.
    replace ((yoe + era * 400) / 400) with era by (Z.div_mod_to_equations; lia).
    replace (yoe + era * 400 - era * 400) with yoe by lia.
    repeat split; lia.
  - destruct (Z.leb_spec (mp - 9) 2); [|lia].
    destruct (Z.ltb_spec 2 (mp - 9)); [lia|].
    replace (mp - 9 + 9) with mp by lia.
    replace (yoe + era * 400 + 1 - 1) with (yoe + era * 400) by lia.
    replace ((yoe + era * 400) / 400) with era by (Z.div_mod_to_equations; lia).
    replace (yoe + era * 400 - era * 400) with yoe by lia.
    repeat split; lia.
Qed.

Lemma daysFromCivil_day (y m d : Z) :
  daysFromCivil y m d = daysFromCivil y m 1 + d - 1.
Proof. unfold daysFromCivil. cbv zeta. lia. Qed.

Lemma cases_of_month (m : Z) :
  1 <= m <= 12 ->
  m = 1 \/ m = 2 \/ m = 3 \/ m = 4 \/ m = 5 \/ m = 6 \/ m = 7 \/ m = 8
  \/ m = 9 \/ m = 10 \/ m = 11 \/ m = 12.
Proof. lia. Qed.

Ltac each_month Hm :=
  let Hc := fresh "Hc" in
  pose proof (cases_of_month _ Hm) as Hc;
  repeat (destruct Hc as [-> | Hc]); [.. | subst].

(** From the first of a month to the first of the next. *)
Lemma month_length (y m : Z) :
  1 <= m <= 12 ->
  28 <= MakeDay y (m - 1 + 1) 1 - daysFromCivil y m 1 <= 31.
Proof.
  intros Hm. unfold MakeDay, daysFromCivil.
  each_month Hm;
    match goal with
    | |- context [(?k - 1 + 1) / 12] =>
        let q := eval compute in ((k - 1 + 1) / 12) in
        let r := eval compute in ((k - 1 + 1) mod 12 + 1) in
        change ((k - 1 + 1) / 12) with q; change ((k - 1 + 1) mod 12 + 1) with r
    end; cbv zeta; decide_tests; Z.div_mod_to_equations; lia.
Qed.

(** From the first of a month to the first of the same month a year on. *)
Lemma year_length (y m : Z) :
  1 <= m <= 12 ->
  365 <= MakeDay y (m - 1 + 12) 1 - daysFromCivil y m 1 <= 366.
Proof.
  intros Hm. unfold MakeDay, daysFromCivil.
  each_month Hm;
    match goal with
    | |- context [(?k - 1 + 12) / 12] =>
        let q := eval compute in ((k - 1 + 12) / 12) in
        let r := eval compute in ((k - 1 + 12) mod 12 + 1) in
        change ((k - 1 + 12) / 12) with q; change ((k - 1 + 12) mod 12 + 1) with r
    end; cbv zeta; decide_tests; Z.div_mod_to_equations; lia.
Qed.

(** The same distance, day for day: it is the length of the month. *)
Lemma month_days (y m : Z) :
  1 <= m <= 12 ->
  MakeDay y (m - 1 + 1) 1 - daysFromCivil y m 1 = daysInMonth y m.
Proof.
  intros Hm. unfold MakeDay, daysFromCivil, daysInMonth, isLeapYear.
  each_month Hm;
    match goal with
    | |- context [(?k - 1 + 1) / 12] =>
        let q := eval compute in ((k - 1 + 1) / 12) in
        let r := eval compute in ((k - 1 + 1) mod 12 + 1) in
        change ((k - 1 + 1) / 12) with q; change ((k - 1 + 1) mod 12 + 1) with r
    end; cbv zeta; cbn [Z.eqb Pos.eqb orb];
    decide_tests;
    repeat match goal with
           | |- context [?a =? ?b] => destruct (Z.eqb_spec a b)
           end;
    cbn [andb orb negb]; Z.div_mod_to_equations; lia.
Qed.

Lemma daysInMonth_bounds (y m : Z) : 28 <= daysInMonth y m <= 31.
Proof.
  unfold daysInMonth.
  destruct (m =? 2); [destruct (isLeapYear y); lia|].
  destruct ((m =? 4) || (m =? 6) || (m =? 9) || (m =? 11)); lia.
Qed.

Lemma MakeDay_date (y m d : Z) : MakeDay y m d = MakeDay y m 1 + d - 1.
Proof. unfold MakeDay. lia. Qed.

Lemma instant_parts (t : Z) : t = Day t * msPerDay + TimeWithinDay t.
Proof.
  unfold Day, TimeWithinDay, msPerDay.
  pose proof (Z.div_mod t 86400000 ltac:(lia)). lia.
Qed.

(** [setMonth] moves the instant by whole days: by the distance between
    the first of the month it is in and the first of the month asked
    for. *)
Lemma addMonths_shift (t months : Z) :
  let '(y, m, _) := civilFromDays (Day t) in
  Subscriptions.addMonths t months
  = t + (MakeDay y (m - 1 + months) 1 - daysFromCivil y m 1) * msPerDay.
Proof.
  pose proof (civil_roundtrip (Day t)) as H.
  unfold Subscriptions.addMonths, setMonth, getFullYear, getMonth, getDate, MakeDate.
  destruct (civilFromDays (Day t)) as [[y m] d].
  destruct H as (Hz & _ & _).
  rewrite daysFromCivil_day in Hz.
  rewrite (MakeDay_date y (m - 1 + months) d).
  pose proof (instant_parts t) as Ht. unfold msPerDay in *. lia.
Qed.

(** The time of a day at its midnight, and within it. *)
Lemma Day_MakeDate (day time : Z) :
  0 <= time < msPerDay ->
  Day (MakeDate day time) = day /\ TimeWithinDay (MakeDate day time) = time.
Proof.
  intro H. unfold Day, TimeWithinDay, MakeDate, msPerDay in *. split.
  - symmetry. apply Z.div_unique with (r := time); lia.
  - symmetry. apply Z.mod_unique with (q := day); lia.
Qed.

(** A month added in the UTC calendar is the month of the calendar. *)
Lemma addMonths_oneMonthAfter (t : Z) :
  Subscriptions.addMonths t 1 = oneMonthAfter t.
Proof.
  pose proof (addMonths_shift t 1) as H.
  pose proof (civil_roundtrip (Day t)) as Hc.
  unfold oneMonthAfter, getFullYear, getMonth.
  destruct (civilFromDays (Day t)) as [[y m] d].
  destruct Hc as (_ & Hm & _).
  rewrite H, month_days by exact Hm.
  now replace (m - 1 + 1) with m by lia.
Qed.

(** In a zone of fixed offset the month is added on the local calendar
    and the offset taken off again. *)
Lemma addMonthsIn_fixedZone (offset t months : Z) :
  Subscriptions.addMonthsIn (fixedZone offset) t months
  = TimeClip (Subscriptions.addMonths (t + offset) months - offset).
Proof.
  unfold Subscriptions.addMonthsIn, Subscriptions.addMonths, setMonthIn, getMonthIn,
    LocalTime, UTCOfLocal, fixedZone.
  cbn [offsetAtInstant offsetAtLocalTime]. reflexivity.
Qed.

Lemma addMonthsIn_utc (t months : Z) :
  Subscriptions.addMonthsIn utc t months = TimeClip (Subscriptions.addMonths t months).
Proof.
  unfold utc. rewrite addMonthsIn_fixedZone. now rewrite Z.add_0_r, Z.sub_0_r.
Qed.

Lemma TimeClip_some (t : Z) : - maxTime <= t <= maxTime -> TimeClip t = Some t.
Proof.
  intro H. unfold TimeClip. destruct (Z.leb_spec (Z.abs t) maxTime); [reflexivity|lia].
Qed.

Lemma TimeClip_none (t : Z) : maxTime < t -> TimeClip t = None.
Proof.
  intro H. unfold TimeClip. destruct (Z.leb_spec (Z.abs t) maxTime); [lia|reflexivity].
Qed.

(** [getUtcDayStart] is a midnight whatever the year. *)
Lemma getUtcDayStart_days (t : Z) :
  exists day, Subscriptions.getUtcDayStart t = day * msPerDay.
Proof.
  unfold Subscriptions.getUtcDayStart, UTC, MakeDate. eexists. apply Z.add_0_r.
Qed.

(** Outside the years 0 to 99 it is the midnight that opens the day. *)
Lemma getUtcDayStart_floor (t : Z) :
  getFullYear t < 0 \/ 100 <= getFullYear t ->
  Subscriptions.getUtcDayStart t = Day t * msPerDay.
Proof.
  pose proof (civil_roundtrip (Day t)) as H.
  unfold Subscriptions.getUtcDayStart, UTC, MakeFullYear, getFullYear, getMonth, getDate,
    MakeDate, MakeDay.
  destruct (civilFromDays (Day t)) as [[y m] d].
  destruct H as (Hz & Hm & _). intro Hy.
  assert (Hfull : (0 <=? y) && (y <=? 99) = false).
  { destruct (Z.leb_spec 0 y); destruct (Z.leb_spec y 99); simpl; auto; lia. }
  rewrite Hfull.
  rewrite daysFromCivil_day in Hz.
  replace ((m - 1) / 12) with 0 by (Z.div_mod_to_equations; lia).
  replace ((m - 1) mod 12 + 1) with m by (Z.div_mod_to_equations; lia).
  replace (y + 0) with y by lia. lia.
Qed.

(** Day numbers of the years 0 to 99, and of the same dates 1900 years
    on. *)
Lemma daysFromCivil_two_digit_year (y m d : Z) :
  0 <= y <= 99 -> 1 <= m <= 12 -> 1 <= d <= 31 ->
  daysFromCivil y m d < -683003
  /\ -25567 <= daysFromCivil (1900 + y) m d < 10957.
Proof.
  intros Hy Hm Hd. unfold daysFromCivil.
  each_month Hm; cbv zeta; decide_tests; split; Z.div_mod_to_equations; lia.
Qed.

(** In the years 0 to 99 it is a midnight of the twentieth century, long
    after the instant. *)
Lemma getUtcDayStart_two_digit_year (t : Z) :
  0 <= getFullYear t <= 99 ->
  -2208988800000 <= Subscriptions.getUtcDayStart t < 946684800000
  /\ t < -59011459200000.
Proof.
  pose proof (civil_roundtrip (Day t)) as H.
  pose proof (instant_parts t) as Ht.
  assert (Hw : 0 <= TimeWithinDay t < msPerDay)
    by (unfold TimeWithinDay, msPerDay; apply Z.mod_pos_bound; lia).
  unfold Subscriptions.getUtcDayStart, UTC, MakeFullYear, getFullYear, getMonth, getDate,
    MakeDate, MakeDay.
  destruct (civilFromDays (Day t)) as [[y m] d].
  destruct H as (Hz & Hm & Hd). intro Hy.
  assert (Hfull : (0 <=? y) && (y <=? 99) = true).
  { destruct (Z.leb_spec 0 y); destruct (Z.leb_spec y 99); simpl; auto; lia. }
  rewrite Hfull.
  replace ((m - 1) / 12) with 0 by (Z.div_mod_to_equations; lia).
  replace ((m - 1) mod 12 + 1) with m by (Z.div_mod_to_equations; lia).
  replace (1900 + y + 0) with (1900 + y) by lia.
  destruct (daysFromCivil_two_digit_year y m d Hy Hm Hd) as (Hold & Hnew).
  rewrite (daysFromCivil_day (1900 + y)) in Hnew.
  unfold msPerDay in *. lia.
Qed.

End Calendar.

(** ** The referral ledger *)

Section AccessEnd.

Lemma fold_max_bounds (b : Z) (l : list Z) :
  b <= fold_right Z.max b l
  /\ (forall x, In x l -> x <= fold_right Z.max b l)
  /\ (fold_right Z.max b l = b \/ In (fold_right Z.max b l) l).
Proof.
  induction l as [|y r (Hb & Hall & Hwit)]; simpl.
  - repeat split; [lia | intros x [] | now left].
  - repeat split.
    + lia.
    + intros x [<-|Hx]; [lia|]. specialize (Hall x Hx). lia.
    + destruct (Z.max_spec y (fold_right Z.max b r)) as [[_ ->]|[_ ->]].
      * destruct Hwit as [->|Hin]; [now left | right; now right].
      * right; now left.
Qed.

Lemma fold_max_unique (b v : Z) (l : list Z) :
  b <= v -> (forall x, In x l -> x <= v) -> (v = b \/ In v l) ->
  fold_right Z.max b l = v.
Proof.
  intros Hb Hall Hwit.
  destruct (fold_max_bounds b l) as (Hb' & Hall' & Hwit').
  apply Z.le_antisymm.
  - destruct Hwit' as [->|Hin]; [exact Hb | now apply Hall].
  - destruct Hwit as [->|Hin]; [exact Hb' | now apply Hall'].
Qed.

(** The head of a list ordered by descending expiry is a latest row. *)
Lemma orderBy_expiresAt_head (l : list Subscription) :
  match hd_error (Prisma.orderBy Subscriptions.byExpiresAtDesc l) with
  | None => l = []
  | Some e => In e l /\ forall x, In x l -> sub_expiresAt x <= sub_expiresAt e
  end.
Proof.
  induction l as [|x r IH]; simpl; [reflexivity|].
  destruct (Prisma.orderBy Subscriptions.byExpiresAtDesc r) as [|y t] eqn:E; simpl in *.
  - subst r. split; [now left|]. intros z [<-|[]]. lia.
  - destruct IH as [Hy Hmax].
    unfold Subscriptions.byExpiresAtDesc at 1.
    destruct (Z.leb_spec (sub_expiresAt y) (sub_expiresAt x)); simpl.
    + split; [now left|]. intros z [<-|Hz]; [lia|]. specialize (Hmax z Hz). lia.
    + split; [now right|]. intros z [<-|Hz]; [lia|]. now apply Hmax.
Qed.

Lemma getUserAccessEnd_later (db : Db) (userId : nat) (now : Z) :
  Subscriptions.getUserAccessEnd db userId now = laterOfNowAndExpiry db userId now.
Proof.
  unfold Subscriptions.getUserAccessEnd, laterOfNowAndExpiry.
  rewrite findFirst_any. symmetry.
  set (L := filter (fun s => (sub_userId s =? userId)%nat
                             && Subscriptions.isActive s
                             && (now <? sub_expiresAt s))
                   (db_subscriptions db)).
  pose proof (orderBy_expiresAt_head L) as H.
  destruct (hd_error _) as [e|].
  - destruct H as [He Hmax].
    assert (Hlate : now < sub_expiresAt e).
    { apply filter_In in He. destruct He as [_ He].
      apply andb_prop in He. destruct He as [_ He]. now apply Z.ltb_lt. }
    assert (Hq : In e (filter (fun s => (sub_userId s =? userId)%nat
                                        && Subscriptions.isActive s)
                              (db_subscriptions db))).
    { apply filter_In in He. destruct He as [Hin He]. apply filter_In.
      split; [exact Hin|]. apply andb_prop in He. tauto. }
    apply Z.ltb_lt in Hlate as Hlt. rewrite Hlt.
    apply fold_max_unique; [lia| |right; now apply in_map].
    intros v Hv. apply in_map_iff in Hv. destruct Hv as (x & <- & Hx).
    destruct (Z.le_gt_cases (sub_expiresAt x) now) as [Hle|Hgt]; [lia|].
    apply Hmax. unfold L. apply filter_In in Hx. destruct Hx as [Hin Hx].
    apply filter_In. split; [exact Hin|]. rewrite Hx. simpl. now apply Z.ltb_lt.
  - apply fold_max_unique; [lia| |now left].
    intros v Hv. apply in_map_iff in Hv. destruct Hv as (x & <- & Hx).
    destruct (Z.le_gt_cases (sub_expiresAt x) now) as [Hle|Hgt]; [lia|].
    exfalso. apply filter_In in Hx. destruct Hx as [Hin Hx].
    assert (Hl : In x L).
    { apply filter_In. split; [exact Hin|]. rewrite Hx. simpl. now apply Z.ltb_lt. }
    rewrite H in Hl. destruct Hl.
Qed.

Lemma createReferralBonusSubscription_row (db : Db) (userId : nat) (now : Z) :
  Subscriptions.createReferralBonusSubscription db userId now =
  (bonusRow (db_nextId db) userId (laterOfNowAndExpiry db userId now) now,
   withSubscriptions db
     (db_subscriptions db
      ++ [bonusRow (db_nextId db) userId (laterOfNowAndExpiry db userId now) now])
     (S (db_nextId db))).
Proof.
  unfold Subscriptions.createReferralBonusSubscription, bonusRow.
  now rewrite getUserAccessEnd_later, addMonths_oneMonthAfter.
Qed.

(** Rows of another user do not move a user's access end. *)
Lemma laterOfNowAndExpiry_other (db : Db) (row : Subscription) (next userId : nat) (now : Z) :
  sub_userId row <> userId ->
  laterOfNowAndExpiry (withSubscriptions db (db_subscriptions db ++ [row]) next) userId now
  = laterOfNowAndExpiry db userId now.
Proof.
  intro Hne. unfold laterOfNowAndExpiry. simpl.
  rewrite filter_app. simpl.
  destruct (Nat.eqb_spec (sub_userId row) userId) as [Heq|_]; [contradiction|].
  simpl. now rewrite app_nil_r.
Qed.

End AccessEnd.

Section ReferralReward.

Variables (db : Db) (inviteeUser : User) (now : Z).

Lemma findOpenInvite_sound (email : string) (invite : ReferralInvite) :
  Subscriptions.findOpenInvite db email = Some invite ->
  In invite (db_referralInvites db)
  /\ inv_inviteeEmail invite = email
  /\ (inv_status invite = PENDING \/ inv_status invite = REGISTERED).
Proof.
  unfold Subscriptions.findOpenInvite. rewrite findFirst_any. intro H.
  assert (Hin : In invite
                   (Prisma.orderBy Subscriptions.byCreatedAtAsc
                      (filter (fun i => (inv_inviteeEmail i =? email)%string
                                        && Subscriptions.isOpenInvite i)
                              (db_referralInvites db)))).
  { destruct (Prisma.orderBy _ _) as [|x l]; [discriminate|].
    injection H as ->. now left. }
  apply orderBy_In, filter_In in Hin. destruct Hin as [Hin Hp].
  apply andb_prop in Hp. destruct Hp as [He Ho].
  apply String.eqb_eq in He. unfold Subscriptions.isOpenInvite in Ho.
  repeat split; auto.
  destruct (inv_status invite); auto; discriminate.
Qed.

Lemma findOpenInvite_none (email : string) :
  (forall i, In i (db_referralInvites db) -> inv_inviteeEmail i = email ->
             inv_status i = REWARDED) ->
  Subscriptions.findOpenInvite db email = None.
Proof.
  intro H. destruct (Subscriptions.findOpenInvite db email) as [i|] eqn:E; [|reflexivity].
  apply findOpenInvite_sound in E. destruct E as (Hin & He & Hs).
  specialize (H i Hin He). rewrite H in Hs. destruct Hs; discriminate.
Qed.

(** The later of now and the latest expiry is not before now. *)
Lemma laterOfNowAndExpiry_now (userId : nat) : now <= laterOfNowAndExpiry db userId now.
Proof. unfold laterOfNowAndExpiry. exact (proj1 (fold_max_bounds _ _)). Qed.

(** One month after a date is 28 to 31 whole days after it, and is what
    [addMonths] returns in UTC when a [Date] can hold it. *)
Lemma oneMonthAfter_date (start : Z) :
  - JSDate.maxTime <= start ->
  oneMonthAfter start <= JSDate.maxTime ->
  (exists days, 28 <= days <= 31 /\ oneMonthAfter start = start + days * JSDate.msPerDay)
  /\ Subscriptions.addMonthsIn JSDate.utc start 1 = Some (oneMonthAfter start).
Proof.
  intros Hlow Hhigh.
  pose proof (daysInMonth_bounds (JSDate.getFullYear start) (JSDate.getMonth start + 1))
    as Hdays.
  split.
  - eexists. split; [exact Hdays | reflexivity].
  - rewrite addMonthsIn_utc, addMonths_oneMonthAfter. apply TimeClip_some.
    split; [|exact Hhigh]. unfold oneMonthAfter, JSDate.msPerDay. lia.
Qed.

(** C5: a reward appends one bonus row for the referrer and one for the
    invitee (gateway REFERRAL, plan personal_referral_bonus, active). Each
    starts at the later of now and that recipient's own latest active
    expiry, which is not before now, and expires one month after its
    start: at the same time of day, as many days later as the month of the
    start has (28 to 31), which is the date that [addMonths] returns. The
    invite is marked rewarded with the invitee's user id and the reward
    time. The instants are dates of a UTC process: now is one, and one
    month after each start is still one. *)
Theorem referral_reward_bonus_rows (invite : ReferralInvite) :
  let referrer := inv_referrerUserId invite in
  let invitee := user_id inviteeUser in
  let referrerStart := laterOfNowAndExpiry db referrer now in
  let inviteeStart := laterOfNowAndExpiry db invitee now in
  Subscriptions.findOpenInvite db (user_email inviteeUser) = Some invite ->
  referrer <> invitee ->
  - JSDate.maxTime <= now ->
  oneMonthAfter referrerStart <= JSDate.maxTime ->
  oneMonthAfter inviteeStart <= JSDate.maxTime ->
  let result := Subscriptions.applyReferralReward db inviteeUser now in
  db_subscriptions (snd result) =
    (db_subscriptions db
     ++ [bonusRow (db_nextId db) referrer referrerStart now;
         bonusRow (S (db_nextId db)) invitee inviteeStart now])%list
  /\ (forall start : Z,
        start = referrerStart \/ start = inviteeStart ->
        now <= start
        /\ (exists days, 28 <= days <= 31
                         /\ oneMonthAfter start = start + days * JSDate.msPerDay)
        /\ Subscriptions.addMonthsIn JSDate.utc start 1 = Some (oneMonthAfter start))
  /\ db_referralInvites (snd result) =
       Prisma.updateMany (fun i => (inv_id i =? inv_id invite)%nat)
                         (Subscriptions.markRewarded invitee now)
                         (db_referralInvites db)
  /\ In (Subscriptions.markRewarded invitee now invite) (db_referralInvites (snd result))
  /\ inv_status (Subscriptions.markRewarded invitee now invite) = REWARDED
  /\ inv_inviteeUserId (Subscriptions.markRewarded invitee now invite) = Some invitee
  /\ inv_rewardedAt (Subscriptions.markRewarded invitee now invite) = Some now
  /\ fst result = Some {| Subscriptions.rw_inviteId := inv_id invite;
                          Subscriptions.rw_referrerUserId := referrer;
                          Subscriptions.rw_inviteeUserId := Some invitee;
                          Subscriptions.rw_rewardedAt := Some now |}.
Proof.
  intros referrer invitee referrerStart inviteeStart Hfind Hne Hnow Hreferrer Hinvitee result.
  assert (Hdates : forall start : Z,
             start = referrerStart \/ start = inviteeStart ->
             now <= start
             /\ (exists days, 28 <= days <= 31
                              /\ oneMonthAfter start = start + days * JSDate.msPerDay)
             /\ Subscriptions.addMonthsIn JSDate.utc start 1 = Some (oneMonthAfter start)).
  { intros start Hstart.
    assert (Hlater : now <= start)
      by (destruct Hstart as [-> | ->]; apply laterOfNowAndExpiry_now).
    split; [exact Hlater|].
    apply oneMonthAfter_date; [lia|]. now destruct Hstart as [-> | ->]. }
  subst result. unfold Subscriptions.applyReferralReward. rewrite Hfind.
  rewrite !createReferralBonusSubscription_row. simpl.
  rewrite laterOfNowAndExpiry_other by exact Hne.
  rewrite <- app_assoc. simpl.
  split; [reflexivity|]. split; [exact Hdates|].
  repeat split.
  apply updateMany_In_hit; [|apply Nat.eqb_refl].
  now apply (findOpenInvite_sound (user_email inviteeUser)).
Qed.

(** Whoever the recipients are, each bonus starts where the recipient's
    access ended when the row was created. *)
Lemma referral_reward_bonus_rows_sequential (invite : ReferralInvite) :
  Subscriptions.findOpenInvite db (user_email inviteeUser) = Some invite ->
  let referrer := inv_referrerUserId invite in
  let invitee := user_id inviteeUser in
  let first := bonusRow (db_nextId db) referrer (laterOfNowAndExpiry db referrer now) now in
  let db1 := withSubscriptions db (db_subscriptions db ++ [first]) (S (db_nextId db)) in
  db_subscriptions (snd (Subscriptions.applyReferralReward db inviteeUser now)) =
    (db_subscriptions db
     ++ [first;
         bonusRow (S (db_nextId db)) invitee (laterOfNowAndExpiry db1 invitee now) now])%list.
Proof.
  intros Hfind referrer invitee first db1.
  unfold Subscriptions.applyReferralReward. rewrite Hfind.
  rewrite !createReferralBonusSubscription_row. simpl.
  now rewrite <- app_assoc.
Qed.

End ReferralReward.

Section RewardOnce.

Lemma updateMany_filter_le {A} (p q : A -> bool) (f : A -> A) (l : list A) :
  (forall x, q (f x) = true -> q x = true) ->
  (List.length (filter q (Prisma.updateMany p f l)) <= List.length (filter q l))%nat.
Proof.
  intro Hq. induction l as [|x r IH]; simpl; [lia|].
  destruct (p x).
  - destruct (q (f x)) eqn:E.
    + rewrite (Hq x E). simpl. lia.
    + destruct (q x); simpl; lia.
  - destruct (q x); simpl; lia.
Qed.

Lemma applyReferralReward_invites (db : Db) (user : User) (now : Z) :
  db_referralInvites (snd (Subscriptions.applyReferralReward db user now)) =
  match Subscriptions.findOpenInvite db (user_email user) with
  | None => db_referralInvites db
  | Some invite =>
      Prisma.updateMany (fun i => (inv_id i =? inv_id invite)%nat)
                        (Subscriptions.markRewarded (user_id user) now)
                        (db_referralInvites db)
  end.
Proof.
  unfold Subscriptions.applyReferralReward.
  destruct (Subscriptions.findOpenInvite db (user_email user)); reflexivity.
Qed.

Lemma applyReferralReward_staysRewarded (db : Db) (user : User) (now : Z) :
  staysRewarded (db_referralInvites db)
                (db_referralInvites (snd (Subscriptions.applyReferralReward db user now))).
Proof.
  rewrite applyReferralReward_invites. unfold staysRewarded.
  destruct (Subscriptions.findOpenInvite db (user_email user)) as [invite|].
  - unfold Prisma.updateMany.
    induction (db_referralInvites db) as [|i l IH]; simpl; constructor; auto.
    destruct (inv_id i =? inv_id invite)%nat; simpl; auto.
  - induction (db_referralInvites db); constructor; auto.
Qed.

Lemma staysRewarded_rewardedId (db db' : Db) (id : nat) :
  staysRewarded (db_referralInvites db) (db_referralInvites db') ->
  rewardedId db id -> rewardedId db' id.
Proof.
  unfold staysRewarded, rewardedId. intros H.
  induction H as [|i i' l l' [Hid Hst] _ IH]; intros Hall r Hin Hr; [destruct Hin|].
  destruct Hin as [<-|Hin].
  - apply Hst. apply Hall; [now left | congruence].
  - apply IH; auto. intros r0 Hr0. apply Hall. now right.
Qed.

Lemma applyReferralReward_rewards_open (db : Db) (user : User) (now : Z)
      (reward : Subscriptions.RewardInfo) :
  fst (Subscriptions.applyReferralReward db user now) = Some reward ->
  exists invite,
    Subscriptions.findOpenInvite db (user_email user) = Some invite
    /\ inv_id invite = Subscriptions.rw_inviteId reward.
Proof.
  unfold Subscriptions.applyReferralReward.
  destruct (Subscriptions.findOpenInvite db (user_email user)) as [invite|];
    simpl; intro H; [|discriminate].
  exists invite. split; [reflexivity|]. injection H as <-. reflexivity.
Qed.

Lemma applyReferralReward_not_rewardedId (db : Db) (user : User) (now : Z)
      (reward : Subscriptions.RewardInfo) :
  fst (Subscriptions.applyReferralReward db user now) = Some reward ->
  ~ rewardedId db (Subscriptions.rw_inviteId reward).
Proof.
  intros H Hrew. apply applyReferralReward_rewards_open in H.
  destruct H as (invite & Hfind & Hid).
  apply findOpenInvite_sound in Hfind. destruct Hfind as (Hin & _ & Hst).
  specialize (Hrew invite Hin Hid). rewrite Hrew in Hst.
  destruct Hst; discriminate.
Qed.

Lemma applyReferralReward_marks (db : Db) (user : User) (now : Z)
      (reward : Subscriptions.RewardInfo) :
  fst (Subscriptions.applyReferralReward db user now) = Some reward ->
  rewardedId (snd (Subscriptions.applyReferralReward db user now))
             (Subscriptions.rw_inviteId reward).
Proof.
  intro H. pose proof (applyReferralReward_rewards_open _ _ _ _ H) as (invite & Hfind & Hid).
  unfold rewardedId. rewrite applyReferralReward_invites, Hfind.
  intros r Hin Hr. unfold Prisma.updateMany in Hin.
  apply in_map_iff in Hin. destruct Hin as (x & Hx & _).
  destruct (Nat.eqb_spec (inv_id x) (inv_id invite)) as [_|Hne].
  - now subst r.
  - subst r. congruence.
Qed.

Lemma applyRewards_never_again (calls : list (User * Z)) (db : Db) (id : nat) :
  rewardedId db id ->
  forall reward, In (Some reward) (fst (applyRewards db calls)) ->
                 Subscriptions.rw_inviteId reward <> id.
Proof.
  revert db. induction calls as [|[user now] rest IH]; intros db Hrew reward Hin;
    simpl in *; [destruct Hin|].
  destruct (Subscriptions.applyReferralReward db user now) as [r db'] eqn:E1.
  destruct (applyRewards db' rest) as [rs db''] eqn:E2. simpl in Hin.
  destruct Hin as [Hr|Hin].
  - intros <-. subst r.
    apply (applyReferralReward_not_rewardedId db user now reward); [now rewrite E1|exact Hrew].
  - apply (IH db'); [|now rewrite E2].
    apply (staysRewarded_rewardedId db); [|exact Hrew].
    pose proof (applyReferralReward_staysRewarded db user now) as H.
    now rewrite E1 in H.
Qed.

End RewardOnce.

(** ** PayPal activation *)

Section Upsert.

Variables (db : Db) (now : Z) (userId : nat).
Variables (paypalSubscriptionId planName st : string) (startedAt nextBillingAt : Z).

Let upserted :=
  Subscriptions.upsertByGatewayId db now userId paypalSubscriptionId planName st
                                  startedAt nextBillingAt.







Lemma upsert_bonus_count :
  (List.length (bonusSubscriptions (snd upserted))
   <= List.length (bonusSubscriptions db))%nat.
Proof.
  subst upserted. unfold bonusSubscriptions.
  unfold Subscriptions.upsertByGatewayId, Prisma.findFirst.
  destruct (find _ _) as [existing|]; simpl.
  - apply updateMany_filter_le. intros x H. discriminate H.
  - rewrite filter_app. simpl. rewrite app_nil_r. lia.
Qed.

End Upsert.




Section NormalizeEmail.

Lemma isWhiteSpace_lowerChar (c : ascii) :
  JS.isWhiteSpace (JS.lowerChar c) = JS.isWhiteSpace c.
Proof. destruct c as [[] [] [] [] [] [] [] []]; reflexivity. Qed.

Lemma trimStart_toLowerCase (s : string) :
  JS.trimStart (JS.toLowerCase s) = JS.toLowerCase (JS.trimStart s).
Proof.
  unfold JS.toLowerCase. induction s as [|c r IH]; simpl; [reflexivity|].
  rewrite isWhiteSpace_lowerChar. destruct (JS.isWhiteSpace c); [exact IH|reflexivity].
Qed.

Lemma trimEnd_toLowerCase (s : string) :
  JS.trimEnd (JS.toLowerCase s) = JS.toLowerCase (JS.trimEnd s).
Proof.
  unfold JS.toLowerCase. induction s as [|c r IH]; simpl; [reflexivity|].
  rewrite IH, isWhiteSpace_lowerChar.
  destruct (JS.trimEnd r); simpl; [|reflexivity].
  destruct (JS.isWhiteSpace c); reflexivity.
Qed.

Lemma trimEnd_idem (s : string) : JS.trimEnd (JS.trimEnd s) = JS.trimEnd s.
Proof.
  induction s as [|c r IH]; simpl; [reflexivity|].
  destruct (JS.trimEnd r) as [|c' r'] eqn:E.
  - destruct (JS.isWhiteSpace c) eqn:W; simpl; [reflexivity|]. now rewrite W.
  - simpl in *. now rewrite IH.
Qed.

(** A string without leading white space keeps its head under [trimEnd]. *)
Lemma trimStart_trimEnd (s : string) :
  JS.trimStart s = s -> JS.trimStart (JS.trimEnd s) = JS.trimEnd s.
Proof.
  destruct s as [|c r]; simpl; [reflexivity|].
  destruct (JS.isWhiteSpace c) eqn:W.
  - intro H. exfalso.
    assert (Hlen : forall t, (String.length (JS.trimStart t) <= String.length t)%nat).
    { induction t as [|d t IH]; simpl; [lia|].
      destruct (JS.isWhiteSpace d); simpl; lia. }
    specialize (Hlen r). rewrite H in Hlen. simpl in Hlen. lia.
  - intros _. destruct (JS.trimEnd r); simpl; now rewrite W.
Qed.

Lemma trimStart_idem (s : string) : JS.trimStart (JS.trimStart s) = JS.trimStart s.
Proof.
  induction s as [|c r IH]; simpl; [reflexivity|].
  destruct (JS.isWhiteSpace c) eqn:W; [exact IH|]. simpl. now rewrite W.
Qed.

Lemma trim_idem (s : string) : JS.trim (JS.trim s) = JS.trim s.
Proof.
  unfold JS.trim.
  rewrite (trimStart_trimEnd (JS.trimStart s)) by apply trimStart_idem.
  apply trimEnd_idem.
Qed.

Lemma trim_toLowerCase (s : string) :
  JS.trim (JS.toLowerCase s) = JS.toLowerCase (JS.trim s).
Proof. unfold JS.trim. now rewrite trimStart_toLowerCase, trimEnd_toLowerCase. Qed.

(** [normalizeEmail] is idempotent. *)
Lemma normalizeEmail_idem (email : string) :
  Subscriptions.normalizeEmail (Subscriptions.normalizeEmail email)
  = Subscriptions.normalizeEmail email.
Proof.
  unfold Subscriptions.normalizeEmail.
  now rewrite trim_toLowerCase, trim_idem, toLowerCase_idem.
Qed.

End NormalizeEmail.

Section Activation.

Variables (env : Subscriptions.Env) (db : Db) (now : Z) (user : User).
Variables (paypalSubscriptionId planName localStatus : string).
Variables (startedAt nextBillingAt : Z).

Let canceled :=
  withSubscriptions db
    (Prisma.updateMany
       (Subscriptions.otherActive env (user_id user) paypalSubscriptionId)
       (Subscriptions.setStatus "canceled") (db_subscriptions db))
    (db_nextId db).

Let upserted :=
  Subscriptions.upsertByGatewayId canceled now (user_id user) paypalSubscriptionId
    planName (if (localStatus =? "pending")%string then "active" else localStatus)
    startedAt nextBillingAt.

Let rewarded :=
  if (sub_status (fst upserted) =? "active")%string
  then Subscriptions.applyReferralReward (snd upserted) user now
  else (None, snd upserted).

Let tx :=
  Subscriptions.activateTransaction env db now user paypalSubscriptionId planName
                                    localStatus startedAt nextBillingAt.

Lemma activateTransaction_steps :
  Subscriptions.tx_subscription (fst tx) = fst upserted
  /\ Subscriptions.tx_referralReward (fst tx) = fst rewarded
  /\ snd tx = snd rewarded.
Proof.
  subst tx rewarded upserted canceled. unfold Subscriptions.activateTransaction.
  destruct (Subscriptions.upsertByGatewayId _ _ _ _ _ _ _ _) as [row db2]. simpl.
  destruct (sub_status row =? "active")%string.
  - destruct (Subscriptions.applyReferralReward db2 user now); simpl; auto.
  - simpl; auto.
Qed.











(** With no open invite for the user, the transaction grants nothing. *)
Lemma activateTransaction_no_reward :
  Subscriptions.findOpenInvite db (user_email user) = None ->
  Subscriptions.tx_referralReward (fst tx) = None
  /\ db_referralInvites (snd tx) = db_referralInvites db
  /\ (List.length (bonusSubscriptions (snd tx)) <= List.length (bonusSubscriptions db))%nat.
Proof.
  intro Hnone.
  destruct activateTransaction_steps as (_ & -> & ->).
  assert (Hinv : db_referralInvites (snd upserted) = db_referralInvites db).
  { subst upserted. unfold Subscriptions.upsertByGatewayId.
    destruct (Prisma.findFirst _ _); reflexivity. }
  assert (Hfind : Subscriptions.findOpenInvite (snd upserted) (user_email user) = None).
  { unfold Subscriptions.findOpenInvite in *. now rewrite Hinv. }
  assert (Hcount : (List.length (bonusSubscriptions (snd upserted))
                    <= List.length (bonusSubscriptions db))%nat).
  { subst upserted. etransitivity; [apply upsert_bonus_count|].
    subst canceled. unfold bonusSubscriptions. simpl.
    now rewrite updateMany_filter by reflexivity. }
  subst rewarded.
  destruct (sub_status (fst upserted) =? "active")%string; simpl; auto.
  unfold Subscriptions.applyReferralReward. rewrite Hfind. simpl. auto.
Qed.

End Activation.


Example parsePlanInput_business_monthly :
  Subscriptions.parsePlanInput "" "business" "monthly"
  = {| Subscriptions.tier := business; Subscriptions.billingCycle := Subscriptions.monthly |}
  /\ Subscriptions.parsePlanInput "business_monthly" "" ""
     = {| Subscriptions.tier := business; Subscriptions.billingCycle := Subscriptions.monthly |}.
Proof. split; reflexivity. Qed.




Lemma winner_is_pairwise_reduction_witness :
  rankOf sampleOldSubscription = rankOf sampleReferrerSubscription
  /\ sub_expiresAt sampleOldSubscription < sub_expiresAt sampleReferrerSubscription
  /\ Subscriptions.selectSubscription [sampleReferrerSubscription; sampleOldSubscription]
     = Some sampleReferrerSubscription
  /\ Subscriptions.selectSubscription [sampleOldSubscription; sampleReferrerSubscription]
     = Some sampleReferrerSubscription.
Proof.
  split; [reflexivity|]. split; [reflexivity|].
  destruct (winner_is_pairwise_reduction sampleOldSubscription []) as (_ & _ & H).
  destruct (H sampleReferrerSubscription sampleOldSubscription) as (H1 & H2 & _).
  - reflexivity.
  - reflexivity.
  - split; assumption.
Defined.

Lemma referral_reward_bonus_rows_witness :
  Subscriptions.findOpenInvite sampleDb (user_email sampleInvitee) = Some sampleInvite
  /\ inv_referrerUserId sampleInvite <> user_id sampleInvitee
  /\ - JSDate.maxTime <= sampleNow
  /\ oneMonthAfter (laterOfNowAndExpiry sampleDb (inv_referrerUserId sampleInvite) sampleNow)
     <= JSDate.maxTime
  /\ oneMonthAfter (laterOfNowAndExpiry sampleDb (user_id sampleInvitee) sampleNow)
     <= JSDate.maxTime
  /\ db_subscriptions
       (snd (Subscriptions.applyReferralReward sampleDb sampleInvitee sampleNow))
     = [sampleOldSubscription; sampleReferrerSubscription;
        bonusRow 6 1 1720000000000 sampleNow;
        bonusRow 7 2 1701000000000 sampleNow]
  /\ sub_expiresAt (bonusRow 6 1 1720000000000 sampleNow)
     = 1720000000000 + 31 * JSDate.msPerDay
  /\ sub_expiresAt (bonusRow 7 2 1701000000000 sampleNow)
     = 1701000000000 + 30 * JSDate.msPerDay.
Proof.
  assert (Hfind : Subscriptions.findOpenInvite sampleDb (user_email sampleInvitee)
                  = Some sampleInvite) by reflexivity.
  assert (Hne : inv_referrerUserId sampleInvite <> user_id sampleInvitee) by discriminate.
  assert (Hnow : - JSDate.maxTime <= sampleNow) by (vm_compute; discriminate).
  assert (Hreferrer :
            oneMonthAfter (laterOfNowAndExpiry sampleDb (inv_referrerUserId sampleInvite)
                                               sampleNow) <= JSDate.maxTime)
    by (vm_compute; discriminate).
  assert (Hinvitee :
            oneMonthAfter (laterOfNowAndExpiry sampleDb (user_id sampleInvitee) sampleNow)
            <= JSDate.maxTime)
    by (vm_compute; discriminate).
  pose proof (referral_reward_bonus_rows sampleDb sampleInvitee sampleNow sampleInvite
                Hfind Hne Hnow Hreferrer Hinvitee) as H.
  destruct H as (Hrows & _).
  split; [exact Hfind|]. split; [exact Hne|]. split; [exact Hnow|].
  split; [exact Hreferrer|]. split; [exact Hinvitee|].
  split; [rewrite Hrows; reflexivity|].
  split; reflexivity.
Defined.

Example addMonths_one_month :
  Subscriptions.addMonths 1720000000000 1 = 1722678400000
  /\ Subscriptions.addMonths 1706659200000 1 = 1709337600000.
Proof. split; reflexivity. Qed.

(** ** A reward is granted at most once per invite *)

Lemma handleInvite_keeps_invites (db : Db) (now : Z) (code referrerEmail inviteeEmail : string) :
  exists added,
    db_referralInvites (snd (Referrals.handleInvite db now code referrerEmail inviteeEmail))
    = (db_referralInvites db ++ added)%list
    /\ Forall (fun i => inv_status i = PENDING) added.
Proof.
  unfold Referrals.handleInvite.
  destruct (_ || _); [exists []; split; [now rewrite app_nil_r | constructor]|].
  destruct (negb _); [exists []; split; [now rewrite app_nil_r | constructor]|].
  destruct (_ =? _)%string; [exists []; split; [now rewrite app_nil_r | constructor]|].
  destruct (Subscriptions.getOrCreateUserByEmail db now _) as [[referrer db0]|] eqn:G;
    [|exists []; split; [now rewrite app_nil_r | constructor]].
  assert (Hinv : db_referralInvites db0 = db_referralInvites db).
  { unfold Subscriptions.getOrCreateUserByEmail in G.
    destruct (negb _); [discriminate|].
    destruct (Subscriptions.findUserByEmail db _); injection G as _ <-; reflexivity. }
  destruct (Referrals.findInvite db0 _ _).
  - exists []. simpl. rewrite Hinv. split; [now rewrite app_nil_r | constructor].
  - eexists [_]. simpl. rewrite Hinv. split; [reflexivity|]. repeat constructor.
Qed.

(** C6: a reward attempt only ever picks an invite that is pending or
    registered and addressed to the invitee; the invite it picks is rewarded
    afterwards; rewarded rows stay rewarded through every later attempt, so
    no later attempt rewards that invite again; and activating for an
    invitee whose invites are all rewarded grants nothing, leaves the
    invites as they are and adds no bonus subscription. *)
Theorem referral_reward_at_most_once (db : Db) (user : User) (now : Z) :
  let attempt := Subscriptions.applyReferralReward db user now in
  (forall reward, fst attempt = Some reward ->
     (exists invite, In invite (db_referralInvites db)
                     /\ inv_id invite = Subscriptions.rw_inviteId reward
                     /\ inv_inviteeEmail invite = user_email user
                     /\ (inv_status invite = PENDING \/ inv_status invite = REGISTERED))
     /\ rewardedId (snd attempt) (Subscriptions.rw_inviteId reward)
     /\ forall calls later,
          In (Some later) (fst (applyRewards (snd attempt) calls)) ->
          Subscriptions.rw_inviteId later <> Subscriptions.rw_inviteId reward)
  /\ staysRewarded (db_referralInvites db) (db_referralInvites (snd attempt))
  /\ ((forall i, In i (db_referralInvites db) ->
                 inv_inviteeEmail i = user_email user -> inv_status i = REWARDED) ->
      attempt = (None, db)
      /\ forall env paypalSubscriptionId planName localStatus startedAt nextBillingAt,
           let tx := Subscriptions.activateTransaction env db now user paypalSubscriptionId
                       planName localStatus startedAt nextBillingAt in
           Subscriptions.tx_referralReward (fst tx) = None
           /\ db_referralInvites (snd tx) = db_referralInvites db
           /\ (List.length (bonusSubscriptions (snd tx))
               <= List.length (bonusSubscriptions db))%nat).
Proof.
  intro attempt. split; [|split].
  - intros reward Hreward. split; [|split].
    + destruct (applyReferralReward_rewards_open _ _ _ _ Hreward) as (invite & Hfind & Hid).
      apply findOpenInvite_sound in Hfind. destruct Hfind as (Hin & Hemail & Hst).
      now exists invite.
    + now apply applyReferralReward_marks.
    + intros calls later Hlater.
      apply (applyRewards_never_again calls (snd attempt)); [|exact Hlater].
      now apply applyReferralReward_marks.
  - apply applyReferralReward_staysRewarded.
  - intro Hall. pose proof (findOpenInvite_none db (user_email user) Hall) as Hnone.
    split.
    + subst attempt. unfold Subscriptions.applyReferralReward. now rewrite Hnone.
    + intros. now apply activateTransaction_no_reward.
Qed.

Lemma referral_reward_at_most_once_witness :
  fst (Subscriptions.applyReferralReward sampleDb sampleInvitee sampleNow)
  = Some {| Subscriptions.rw_inviteId := 5; Subscriptions.rw_referrerUserId := 1;
            Subscriptions.rw_inviteeUserId := Some 2%nat;
            Subscriptions.rw_rewardedAt := Some sampleNow |}
  /\ rewardedId sampleDbActivated 5
  /\ Subscriptions.applyReferralReward sampleDbActivated sampleInvitee (sampleNow + 1000)
     = (None, sampleDbActivated)
  /\ Subscriptions.tx_referralReward
       (fst (Subscriptions.activateTransaction sampleEnv sampleDbActivated (sampleNow + 1000)
               sampleInvitee "I-1" "business_monthly" "active"
               (sampleNow + 1000) (sampleNow + 2000)))
     = None.
Proof.
  assert (Hall : forall i, In i (db_referralInvites sampleDbActivated) ->
                           inv_inviteeEmail i = user_email sampleInvitee ->
                           inv_status i = REWARDED).
  { intros i Hin _. vm_compute in Hin. destruct Hin as [<-|[]]. reflexivity. }
  split; [reflexivity|].
  split.
  - intros r Hin _. vm_compute in Hin. destruct Hin as [<-|[]]. reflexivity.
  - destruct (referral_reward_at_most_once sampleDbActivated sampleInvitee (sampleNow + 1000))
      as (_ & _ & H).
    destruct (H Hall) as [Hnone Htx]. split; [exact Hnone|].
    apply (Htx sampleEnv "I-1" "business_monthly" "active" (sampleNow + 1000) (sampleNow + 2000)).
Defined.

(** ** Client profiles *)

Section KeyedRows.

Context {A K : Type} (k : A -> K).

Lemma updateMany_split (p : A -> bool) (f : A -> A) (l1 l2 : list A) (x : A) :
  (forall y, In y l1 -> p y = false) ->
  (forall y, In y l2 -> p y = false) ->
  p x = true ->
  Prisma.updateMany p f (l1 ++ x :: l2) = (l1 ++ f x :: l2)%list.
Proof.
  intros H1 H2 Hx. unfold Prisma.updateMany.
  rewrite map_app. simpl. rewrite Hx. f_equal; [|f_equal].
  - rewrite <- (map_id l1) at 2. apply map_ext_in. intros y Hy. now rewrite (H1 y Hy).
  - rewrite <- (map_id l2) at 2. apply map_ext_in. intros y Hy. now rewrite (H2 y Hy).
Qed.

Lemma NoDup_map_others (l1 l2 : list A) (x : A) :
  NoDup (map k (l1 ++ x :: l2)) ->
  forall y, In y (l1 ++ l2) -> k y <> k x.
Proof.
  rewrite map_app. simpl. intros H y Hy Heq.
  apply NoDup_remove_2 in H. apply H.
  rewrite <- map_app, <- Heq. now apply in_map.
Qed.

Lemma NoDup_map_inj_In (l : list A) (a b : A) :
  NoDup (map k l) -> In a l -> In b l -> k a = k b -> a = b.
Proof.
  intros H Ha Hb Heq. apply in_split in Ha. destruct Ha as (l1 & l2 & ->).
  apply in_app_or in Hb. simpl in Hb.
  assert (Hb' : b = a \/ In b (l1 ++ l2)).
  { destruct Hb as [Hb|[Hb|Hb]]; [right|left|right]; auto using in_or_app. }
  destruct Hb' as [Hb'|Hb']; [exact (eq_sym Hb')|].
  exfalso. exact (NoDup_map_others l1 l2 a H b Hb' (eq_sym Heq)).
Qed.

Lemma NoDup_map_replace (l1 l2 : list A) (x x' : A) :
  NoDup (map k (l1 ++ x :: l2)) ->
  (forall y, In y (l1 ++ l2) -> k y <> k x') ->
  NoDup (map k (l1 ++ x' :: l2)).
Proof.
  rewrite !map_app. simpl. intros H Hnew.
  apply NoDup_remove_1 in H.
  apply (NoDup_Add (Add_app (k x') (map k l1) (map k l2))).
  split; [exact H|].
  rewrite <- map_app. intro Hin. apply in_map_iff in Hin.
  destruct Hin as (y & Hy & Hin). exact (Hnew y Hin Hy).
Qed.

Lemma NoDup_map_snoc (l : list A) (x : A) :
  NoDup (map k l) -> (forall y, In y l -> k y <> k x) -> NoDup (map k (l ++ [x])).
Proof.
  intros H Hnew.
  replace (l ++ [x])%list with (l ++ x :: [])%list by reflexivity.
  rewrite map_app. simpl.
  apply (NoDup_Add (Add_app (k x) (map k l) [])).
  rewrite app_nil_r. split; [exact H|].
  intro Hin. apply in_map_iff in Hin. destruct Hin as (y & Hy & Hin).
  exact (Hnew y Hin Hy).
Qed.

Lemma find_split (p : A -> bool) (l : list A) (x : A) :
  find p l = Some x ->
  exists l1 l2, l = (l1 ++ x :: l2)%list /\ p x = true
                /\ forall y, In y l1 -> p y = false.
Proof.
  induction l as [|y r IH]; simpl; [discriminate|].
  destruct (p y) eqn:E.
  - intro H. injection H as <-. exists [], r. repeat split; auto. intros ? [].
  - intro H. destruct (IH H) as (l1 & l2 & -> & Hx & Hl1).
    exists (y :: l1), l2. repeat split; auto.
    intros z [<-|Hz]; auto.
Qed.

Lemma find_app_first (p : A -> bool) (l1 l2 : list A) (x : A) :
  (forall y, In y l1 -> p y = false) -> p x = true ->
  find p (l1 ++ x :: l2) = Some x.
Proof.
  intros H Hx. induction l1 as [|y r IH]; simpl; [now rewrite Hx|].
  rewrite (H y) by now left. apply IH. intros z Hz. apply H. now right.
Qed.

Lemma find_none_all (p : A -> bool) (l : list A) :
  find p l = None -> forall y, In y l -> p y = false.
Proof. intros H y Hy. exact (find_none p l H y Hy). Qed.

End KeyedRows.

Section SaveProfile.

Variables (db : Db) (now : Z) (user : User).
Variables (clientId clientEmail clientName : string).

Hypothesis Hids : profileIdsFresh db.
Hypothesis Hkeys : clientIdsUnique db.

Local Abbreviation rows := (db_clientProfiles db).
Local Abbreviation u := (user_id user).

Lemma hasKey_iff (uid : nat) (c : string) (r : ClientProfile) :
  ClientProfiles.hasKey uid c r = true <-> profileKey r = (uid, c).
Proof.
  unfold ClientProfiles.hasKey, profileKey.
  rewrite andb_true_iff, Nat.eqb_eq, String.eqb_eq.
  split; [intros [-> ->]; reflexivity | intro H; injection H; auto].
Qed.

Lemma ownsEmail_iff (uid : nat) (e : string) (r : ClientProfile) :
  ClientProfiles.ownsEmail uid e r = true <-> profileEmailKey r = (uid, JS.toLowerCase e).
Proof.
  unfold ClientProfiles.ownsEmail, ClientProfiles.equalsInsensitive, profileEmailKey.
  rewrite andb_true_iff, Nat.eqb_eq, String.eqb_eq.
  split; [intros [-> ->]; reflexivity | intro H; injection H; auto].
Qed.

Lemma hasKey_false (uid : nat) (c : string) (r : ClientProfile) :
  profileKey r <> (uid, c) -> ClientProfiles.hasKey uid c r = false.
Proof.
  intro H. destruct (ClientProfiles.hasKey uid c r) eqn:E; [|reflexivity].
  apply hasKey_iff in E. contradiction.
Qed.

Lemma ownsEmail_false (uid : nat) (e : string) (r : ClientProfile) :
  profileEmailKey r <> (uid, JS.toLowerCase e) -> ClientProfiles.ownsEmail uid e r = false.
Proof.
  intro H. destruct (ClientProfiles.ownsEmail uid e r) eqn:E; [|reflexivity].
  apply ownsEmail_iff in E. contradiction.
Qed.

Lemma filter_none {A} (q : A -> bool) (l : list A) :
  (forall y, In y l -> q y = false) -> filter q l = [].
Proof.
  intro H. induction l as [|x r IH]; simpl; [reflexivity|].
  rewrite (H x) by now left. apply IH. intros y Hy. apply H. now right.
Qed.

(** Under the unique index a key that occurs, occurs once. *)
Lemma profilesOf_one (d : Db) (uid : nat) (c : string) (p : ClientProfile) :
  clientIdsUnique d -> In p (db_clientProfiles d) ->
  ClientProfiles.hasKey uid c p = true ->
  List.length (profilesOf d uid c) = 1%nat.
Proof.
  unfold clientIdsUnique, profilesOf. intros Hu Hin Hp.
  apply in_split in Hin. destruct Hin as (l1 & l2 & E). rewrite E in *.
  pose proof (NoDup_map_others profileKey l1 l2 p Hu) as Hothers.
  apply hasKey_iff in Hp as Hk.
  rewrite filter_app. simpl. rewrite Hp.
  rewrite !filter_none; [reflexivity| |].
  - intros y Hy. apply hasKey_false. rewrite <- Hk. apply Hothers.
    apply in_or_app. now right.
  - intros y Hy. apply hasKey_false. rewrite <- Hk. apply Hothers.
    apply in_or_app. now left.
Qed.

Lemma setEmailAndName_owns (r : ClientProfile) :
  cp_userId r = u ->
  ClientProfiles.ownsEmail u clientEmail
    (ClientProfiles.setEmailAndName clientEmail clientName now r) = true.
Proof.
  intro H. apply ownsEmail_iff. unfold profileEmailKey. simpl. now rewrite H.
Qed.

Lemma upsertProfile_saved :
  match Prisma.findFirst (ClientProfiles.ownsEmail u clientEmail) rows with
  | Some existing => cp_clientId existing = clientId
  | None => True
  end ->
  Saved db user clientId clientEmail
        (fst (ClientProfiles.upsertProfile db now user clientId clientEmail clientName))
        (snd (ClientProfiles.upsertProfile db now user clientId clientEmail clientName)).
Proof.
  intro Hfirst. unfold ClientProfiles.upsertProfile, Prisma.findFirst in *.
  destruct Hids as [Hnodup Hfresh].
  destruct (find (ClientProfiles.hasKey u clientId) rows) as [r|] eqn:Fr.
  - (* the row with the key is rewritten in place *)
    destruct (find_split _ _ _ Fr) as (l1 & l2 & E & Hr & Hl1).
    unfold clientIdsUnique in Hkeys.
    assert (Hothers : forall y, In y (l1 ++ l2) -> profileKey y <> profileKey r)
      by (apply NoDup_map_others; now rewrite <- E).
    apply hasKey_iff in Hr as Hk.
    assert (Hl2 : forall y, In y l2 -> ClientProfiles.hasKey u clientId y = false).
    { intros y Hy. apply hasKey_false. rewrite <- Hk. apply Hothers.
      apply in_or_app. now right. }
    assert (Hrows : Prisma.updateMany (ClientProfiles.hasKey u clientId)
                      (ClientProfiles.setEmailAndName clientEmail clientName now) rows
                    = (l1 ++ ClientProfiles.setEmailAndName clientEmail clientName now r :: l2)%list).
    { rewrite E at 1. now apply updateMany_split. }
    assert (Hu : cp_userId r = u) by (injection Hk; auto).
    cbn [fst snd].
    constructor; unfold profileIdsFresh, clientIdsUnique, clientEmailsUnique;
      cbn [db_users db_clientProfiles withClientProfiles db_nextId].
    + reflexivity.
    + rewrite Hrows. split.
      * assert (Hsame : map cp_id (l1 ++ ClientProfiles.setEmailAndName clientEmail
                                              clientName now r :: l2)
                        = map cp_id rows)
          by (rewrite E, !map_app; reflexivity).
        rewrite Hsame. exact Hnodup.
      * rewrite E in Hfresh. apply Forall_app in Hfresh. destruct Hfresh as [F1 F2].
        apply Forall_app. split; [exact F1|].
        inversion F2; subst. constructor; auto.
    + rewrite Hrows.
      assert (Hsame : map profileKey (l1 ++ ClientProfiles.setEmailAndName clientEmail
                                                clientName now r :: l2)
                      = map profileKey rows)
        by (rewrite E, !map_app; reflexivity).
      rewrite Hsame. exact Hkeys.
    + rewrite Hrows. intro Hemails.
      apply (NoDup_map_replace profileEmailKey l1 l2 r); [now rewrite <- E|].
      intros y Hy.
      change (profileEmailKey (ClientProfiles.setEmailAndName clientEmail clientName now r))
        with (cp_userId r, JS.toLowerCase clientEmail).
      rewrite Hu.
      destruct (find (ClientProfiles.ownsEmail u clientEmail) rows) as [e|] eqn:Fe.
      * apply find_some in Fe. destruct Fe as [He Howns].
        assert (e = r).
        { apply (NoDup_map_inj_In profileKey rows); auto.
          - rewrite E. apply in_elt.
          - rewrite Hk. unfold profileKey. apply ownsEmail_iff in Howns.
            injection Howns as -> _. now rewrite Hfirst. }
        subst e. apply ownsEmail_iff in Howns. rewrite <- Howns.
        apply (NoDup_map_others profileEmailKey l1 l2 r); [now rewrite <- E|exact Hy].
      * intro Hbad. apply ownsEmail_iff in Hbad.
        assert (Hin : In y rows).
        { rewrite E. apply in_app_or in Hy. apply in_or_app.
          destruct Hy; [now left | right; now right]. }
        rewrite (find_none _ _ Fe y Hin) in Hbad. discriminate.
    + rewrite Hrows. apply in_elt.
    + apply hasKey_iff. unfold profileKey. simpl. exact Hk.
    + rewrite Hrows.
      destruct (find (ClientProfiles.ownsEmail u clientEmail) rows) as [e|] eqn:Fe.
      * destruct (find_split _ _ _ Fe) as (m1 & m2 & E' & He & Hm1).
        (* the first match is the row with the key *)
        assert (e = r).
        { apply (NoDup_map_inj_In profileKey rows); auto.
          - rewrite E'. apply in_elt.
          - rewrite E. apply in_elt.
          - rewrite Hk. unfold profileKey. apply ownsEmail_iff in He.
            injection He as -> _. now rewrite Hfirst. }
        subst e.
        exists (ClientProfiles.setEmailAndName clientEmail clientName now r).
        split; [|injection Hk; auto].
        apply find_app_first; [|now apply setEmailAndName_owns].
        intros y Hy. apply (find_none_all _ (l1 ++ [])).
        -- rewrite app_nil_r.
           assert (Hpre : find (ClientProfiles.ownsEmail u clientEmail) (l1 ++ r :: l2) = Some r)
             by now rewrite <- E.
           clear - Hpre Hl1 Hr. induction l1 as [|z t IH]; [reflexivity|].
           simpl in *. destruct (ClientProfiles.ownsEmail u clientEmail z) eqn:Ez.
           ++ injection Hpre as ->. rewrite (Hl1 r) in Hr by now left. discriminate.
           ++ apply IH; auto.
        -- rewrite app_nil_r. exact Hy.
      * exists (ClientProfiles.setEmailAndName clientEmail clientName now r).
        split; [|injection Hk; auto].
        apply find_app_first; [|now apply setEmailAndName_owns].
        intros y Hy. apply (find_none _ _ Fe). rewrite E. apply in_or_app. now left.
  - (* no row has the key: one is created *)
    set (row := {| cp_id := db_nextId db; cp_userId := u; cp_clientId := clientId;
                   cp_clientEmail := clientEmail;
                   cp_clientName := ClientProfiles.orNull clientName;
                   cp_createdAt := now; cp_updatedAt := now |}).
    assert (Hnoemail : find (ClientProfiles.ownsEmail u clientEmail) rows = None).
    { destruct (find (ClientProfiles.ownsEmail u clientEmail) rows) as [e|] eqn:Fe;
        [|reflexivity].
      exfalso. apply find_some in Fe. destruct Fe as [He Howns].
      assert (Hk : ClientProfiles.hasKey u clientId e = true).
      { apply hasKey_iff. unfold profileKey. apply ownsEmail_iff in Howns.
        injection Howns as -> _. now rewrite Hfirst. }
      rewrite (find_none _ _ Fr e He) in Hk. discriminate. }
    cbn [fst snd].
    constructor; unfold profileIdsFresh, clientIdsUnique, clientEmailsUnique;
      cbn [db_users db_clientProfiles withClientProfiles db_nextId].
    + reflexivity.
    + split.
      * apply NoDup_map_snoc; [exact Hnodup|].
        intros y Hy. rewrite Forall_forall in Hfresh. specialize (Hfresh y Hy).
        simpl. lia.
      * apply Forall_app. split.
        -- eapply Forall_impl; [|exact Hfresh]. simpl. intros; lia.
        -- constructor; [simpl; lia | constructor].
    + apply NoDup_map_snoc; [exact Hkeys|].
      intros y Hy Hbad. change (profileKey row) with (u, clientId) in Hbad.
      apply hasKey_iff in Hbad. rewrite (find_none _ _ Fr y Hy) in Hbad. discriminate.
    + intro Hemails.
      apply NoDup_map_snoc; [exact Hemails|].
      intros y Hy Hbad.
      change (profileEmailKey row) with (u, JS.toLowerCase clientEmail) in Hbad.
      apply ownsEmail_iff in Hbad. rewrite (find_none _ _ Hnoemail y Hy) in Hbad.
      discriminate.
    + apply in_or_app. right. now left.
    + apply hasKey_iff. reflexivity.
    + exists row. split; [|reflexivity].
      apply find_app_first; [apply (find_none _ _ Hnoemail)|].
      apply ownsEmail_iff. reflexivity.
Qed.

End SaveProfile.

Section SaveProfileCases.

Variables (db : Db) (now : Z) (user : User).
Variables (clientId clientEmail clientName : string).

Hypothesis Hids : profileIdsFresh db.
Hypothesis Hkeys : clientIdsUnique db.

Local Abbreviation rows := (db_clientProfiles db).
Local Abbreviation u := (user_id user).

(** The email-matched row takes the new client id, in place. *)
Lemma moveToClientId_saved (existing : ClientProfile) :
  Prisma.findFirst (ClientProfiles.ownsEmail u clientEmail) rows = Some existing ->
  ClientProfiles.clientIdTaken db clientId existing = false ->
  Saved db user clientId clientEmail
        (ClientProfiles.moveToClientId clientId clientName now existing)
        (withClientProfiles db
           (Prisma.updateMany (fun r => (cp_id r =? cp_id existing)%nat)
                              (ClientProfiles.moveToClientId clientId clientName now) rows)
           (db_nextId db)).
Proof.
  unfold Prisma.findFirst. intros Fe Hfree.
  destruct Hids as [Hnodup Hfresh].
  destruct (find_split _ _ _ Fe) as (l1 & l2 & E & Howns & Hl1).
  assert (Hidothers : forall y, In y (l1 ++ l2) -> cp_id y <> cp_id existing)
    by (apply NoDup_map_others; now rewrite <- E).
  assert (Hu : cp_userId existing = u).
  { apply ownsEmail_iff in Howns. injection Howns; auto. }
  assert (Hrows : Prisma.updateMany (fun r => (cp_id r =? cp_id existing)%nat)
                    (ClientProfiles.moveToClientId clientId clientName now) rows
                  = (l1 ++ ClientProfiles.moveToClientId clientId clientName now existing
                        :: l2)%list).
  { rewrite E at 1. apply updateMany_split.
    - intros y Hy. apply Nat.eqb_neq, Hidothers, in_or_app. now left.
    - intros y Hy. apply Nat.eqb_neq, Hidothers, in_or_app. now right.
    - apply Nat.eqb_refl. }
  assert (Hfreekey : forall y, In y (l1 ++ l2) -> profileKey y <> (u, clientId)).
  { intros y Hy Hbad. unfold ClientProfiles.clientIdTaken in Hfree.
    assert (Hin : In y rows).
    { rewrite E. apply in_app_or in Hy. apply in_or_app.
      destruct Hy; [now left | right; now right]. }
    assert (Hnot : existsb (fun r => ClientProfiles.hasKey (cp_userId existing) clientId r
                                     && negb (cp_id r =? cp_id existing)%nat) rows = true).
    { apply existsb_exists. exists y. split; [exact Hin|].
      rewrite Hu. apply andb_true_iff. split; [now apply hasKey_iff|].
      apply negb_true_iff, Nat.eqb_neq. now apply Hidothers. }
    rewrite Hnot in Hfree. discriminate. }
  constructor; unfold profileIdsFresh, clientIdsUnique, clientEmailsUnique;
    cbn [db_users db_clientProfiles withClientProfiles db_nextId]; try rewrite Hrows.
  - reflexivity.
  - split.
    + assert (Hsame : map cp_id (l1 ++ ClientProfiles.moveToClientId clientId clientName
                                          now existing :: l2) = map cp_id rows)
        by (rewrite E, !map_app; reflexivity).
      rewrite Hsame. exact Hnodup.
    + rewrite E in Hfresh. apply Forall_app in Hfresh. destruct Hfresh as [F1 F2].
      apply Forall_app. split; [exact F1|].
      inversion F2; subst. constructor; auto.
  - apply (NoDup_map_replace profileKey l1 l2 existing); [now rewrite <- E|].
    intros y Hy.
    change (profileKey (ClientProfiles.moveToClientId clientId clientName now existing))
      with (cp_userId existing, clientId).
    rewrite Hu. now apply Hfreekey.
  - intro Hemails.
    assert (Hsame : map profileEmailKey
                      (l1 ++ ClientProfiles.moveToClientId clientId clientName
                               now existing :: l2) = map profileEmailKey rows)
      by (rewrite E, !map_app; reflexivity).
    rewrite Hsame. exact Hemails.
  - apply in_elt.
  - apply hasKey_iff. unfold profileKey. simpl. now rewrite Hu.
  - exists (ClientProfiles.moveToClientId clientId clientName now existing).
    split; [|reflexivity].
    apply find_app_first; [exact Hl1|].
    apply ownsEmail_iff. apply ownsEmail_iff in Howns. exact Howns.
Qed.

Lemma saveProfile_saved (p : ClientProfile) (d : Db) :
  ClientProfiles.saveProfile db now user clientId clientEmail clientName = Some (p, d) ->
  Saved db user clientId clientEmail p d.
Proof.
  unfold ClientProfiles.saveProfile.
  destruct (Prisma.findFirst (ClientProfiles.ownsEmail u clientEmail) rows)
    as [existing|] eqn:Fe.
  - destruct (String.eqb_spec (cp_clientId existing) clientId) as [Heq|Hne]; simpl.
    + intro H. injection H as H.
      pose proof (upsertProfile_saved db now user clientId clientEmail clientName
                    Hids Hkeys) as HS.
      rewrite H in HS. apply HS. now rewrite Fe.
    + destruct (ClientProfiles.clientIdTaken db clientId existing) eqn:Ht; [discriminate|].
      intro H. injection H as <- <-. now apply moveToClientId_saved.
  - intro H. injection H as H.
    pose proof (upsertProfile_saved db now user clientId clientEmail clientName
                  Hids Hkeys) as HS.
    rewrite H in HS. apply HS. now rewrite Fe.
Qed.

(** The transaction fails only when a row of the user already has the
    client id. *)
Lemma saveProfile_conflict :
  ClientProfiles.saveProfile db now user clientId clientEmail clientName = None ->
  exists r, In r rows /\ ClientProfiles.hasKey u clientId r = true.
Proof.
  unfold ClientProfiles.saveProfile.
  destruct (Prisma.findFirst (ClientProfiles.ownsEmail u clientEmail) rows)
    as [existing|] eqn:Fe; [|discriminate].
  destruct (negb _); [|discriminate].
  destruct (ClientProfiles.clientIdTaken db clientId existing) eqn:Ht; [|discriminate].
  intros _. unfold ClientProfiles.clientIdTaken in Ht.
  apply existsb_exists in Ht. destruct Ht as (r & Hin & Hr).
  apply andb_prop in Hr. destruct Hr as [Hr _].
  exists r. split; [exact Hin|].
  apply find_some in Fe. destruct Fe as [_ Howns]. apply ownsEmail_iff in Howns.
  injection Howns as Hu _. now rewrite <- Hu.
Qed.

(** Once the first email-matched row has the client id, the transaction
    is the upsert's update and adds no row. *)
Lemma saveProfile_settled (q : ClientProfile) :
  Prisma.findFirst (ClientProfiles.ownsEmail u clientEmail) rows = Some q ->
  cp_clientId q = clientId ->
  ClientProfiles.saveProfile db now user clientId clientEmail clientName
  = Some (ClientProfiles.upsertProfile db now user clientId clientEmail clientName)
  /\ List.length (db_clientProfiles
                    (snd (ClientProfiles.upsertProfile db now user clientId
                                                        clientEmail clientName)))
     = List.length rows.
Proof.
  intros Fq Hq. unfold ClientProfiles.saveProfile. rewrite Fq, Hq, String.eqb_refl. simpl.
  split; [reflexivity|].
  unfold ClientProfiles.upsertProfile.
  destruct (Prisma.findFirst (ClientProfiles.hasKey u clientId) rows) as [r|] eqn:Fr.
  - simpl. apply updateMany_length.
  - exfalso. unfold Prisma.findFirst in *. apply find_some in Fq.
    destruct Fq as [Hin Howns].
    assert (Hk : ClientProfiles.hasKey u clientId q = true).
    { apply hasKey_iff. unfold profileKey. apply ownsEmail_iff in Howns.
      injection Howns as -> _. now rewrite Hq. }
    rewrite (find_none _ _ Fr q Hin) in Hk. discriminate.
Qed.

End SaveProfileCases.

Section HandlePost.

Variables (email clientId clientEmail : string).

Local Abbreviation c := (ClientProfiles.normalizeClientId clientId).
Local Abbreviation ce := (ClientProfiles.normalizeEmail clientEmail).
Local Abbreviation e := (ClientProfiles.normalizeEmail email).

Hypothesis Hemail : e <> "".
Hypothesis HclientId : c <> "".
Hypothesis HclientEmail : ce <> "".
Hypothesis Hvalid : ClientProfiles.isValidEmail ce = true.

Lemma handlePost_valid (d : Db) (now : Z) (name : string) :
  ClientProfiles.handlePost d now email clientId clientEmail name =
  match ClientProfiles.getOrCreateUserByEmail d now e with
  | None =>
      ({| ClientProfiles.res_status := 500;
          ClientProfiles.res_body := ClientProfiles.BError "Client profiles service error" |}, d)
  | Some (user, d0) =>
      ClientProfiles.respond d0 (ClientProfiles.saveProfile d0 now user c ce (JS.trim name))
  end.
Proof.
  unfold ClientProfiles.handlePost, ClientProfiles.respond.
  destruct (JS.truthy e) eqn:T1; [|apply truthy_spec in T1; contradiction].
  destruct (JS.truthy c) eqn:T2; [|apply truthy_spec in T2; contradiction].
  destruct (JS.truthy ce) eqn:T3; [|apply truthy_spec in T3; contradiction].
  rewrite Hvalid. reflexivity.
Qed.

Lemma getOrCreateUserByEmail_found (d : Db) (now : Z) :
  exists user d0,
    ClientProfiles.getOrCreateUserByEmail d now e = Some (user, d0)
    /\ Subscriptions.findUserByEmail d0 e = Some user
    /\ db_clientProfiles d0 = db_clientProfiles d
    /\ (db_nextId d <= db_nextId d0)%nat
    /\ (forall user0, Subscriptions.findUserByEmail d e = Some user0 ->
                      user0 = user /\ d0 = d).
Proof.
  unfold ClientProfiles.getOrCreateUserByEmail, Subscriptions.getOrCreateUserByEmail.
  assert (Hidem : Subscriptions.normalizeEmail e = e) by apply normalizeEmail_idem.
  rewrite Hidem.
  destruct (JS.truthy e) eqn:T1; [|apply truthy_spec in T1; contradiction].
  simpl. destruct (Subscriptions.findUserByEmail d e) as [user|] eqn:F.
  - exists user, d. repeat split; auto. now injection H.
  - eexists _, _. split; [reflexivity|]. repeat split; try discriminate.
    + unfold Subscriptions.findUserByEmail, Prisma.findFirst in *. simpl.
      apply find_app_first; [apply (find_none _ _ F)|]. simpl. apply String.eqb_refl.
    + simpl. lia.
Qed.

Lemma profileIdsFresh_mono (d d0 : Db) :
  db_clientProfiles d0 = db_clientProfiles d -> (db_nextId d <= db_nextId d0)%nat ->
  profileIdsFresh d -> profileIdsFresh d0.
Proof.
  unfold profileIdsFresh. intros -> Hle [H1 H2]. split; [exact H1|].
  eapply Forall_impl; [|exact H2]. simpl. intros; lia.
Qed.

(** One POST: afterwards the user exists, holds exactly one profile with
    the client id, the unique indexes hold, and after a 200 the first
    email-matched row is the one with the client id. *)
Lemma handlePost_once (d : Db) (now : Z) (name : string) :
  profileIdsFresh d -> clientIdsUnique d ->
  let result := ClientProfiles.handlePost d now email clientId clientEmail name in
  exists user,
    Subscriptions.findUserByEmail (snd result) e = Some user
    /\ (forall user0, Subscriptions.findUserByEmail d e = Some user0 -> user0 = user)
    /\ List.length (profilesOf (snd result) (user_id user) c) = 1%nat
    /\ profileIdsFresh (snd result)
    /\ clientIdsUnique (snd result)
    /\ (clientEmailsUnique d -> clientEmailsUnique (snd result))
    /\ (ClientProfiles.res_status (fst result) = 200 ->
        exists q, Prisma.findFirst (ClientProfiles.ownsEmail (user_id user) ce)
                                   (db_clientProfiles (snd result)) = Some q
                  /\ cp_clientId q = c).
Proof.
  intros Hids Hkeys result. subst result. rewrite handlePost_valid.
  destruct (getOrCreateUserByEmail_found d now)
    as (user & d0 & -> & Hfind & Hrows & Hnext & Hsame).
  assert (Hids0 : profileIdsFresh d0) by now apply (profileIdsFresh_mono d).
  assert (Hkeys0 : clientIdsUnique d0) by (unfold clientIdsUnique; now rewrite Hrows).
  exists user. split; [|split; [intros user0 H0; now apply Hsame|]].
  - destruct (ClientProfiles.saveProfile d0 now user c ce (JS.trim name))
      as [[p d']|] eqn:S; simpl; [|exact Hfind].
    apply saveProfile_saved in S; auto. destruct S as [Husers _ _ _ _ _ _].
    unfold Subscriptions.findUserByEmail in *. now rewrite Husers.
  - destruct (ClientProfiles.saveProfile d0 now user c ce (JS.trim name))
      as [[p d']|] eqn:S; simpl.
    + apply saveProfile_saved in S; auto.
      destruct S as [_ Hi Hk He Hrow Hkey Hfirst].
      split; [now apply (profilesOf_one d' _ _ p)|].
      split; [exact Hi|]. split; [exact Hk|].
      split; [|intros _; exact Hfirst].
      intro H. apply He. unfold clientEmailsUnique in *. now rewrite Hrows.
    + destruct (saveProfile_conflict _ _ _ _ _ _ S) as (r & Hin & Hr).
      split; [now apply (profilesOf_one d0 _ _ r)|].
      split; [exact Hids0|]. split; [exact Hkeys0|].
      split; [|discriminate].
      unfold clientEmailsUnique. now rewrite Hrows.
Qed.

(** C9: with the unique index on (user, clientId) in place, POSTing the
    same (email, clientId, clientEmail) twice leaves exactly one profile
    row for that (user, clientId), and a second POST after a successful
    first one adds no row; a POST of an unused clientId with a clientEmail
    that one of the user's profiles already has (ignoring case) rewrites
    that row's clientId in place and adds no row; and every POST keeps at
    most one profile per (user, case-insensitive clientEmail). *)
Theorem client_profile_upsert (db : Db) (now1 now2 : Z) (name1 name2 : string) :
  profileIdsFresh db -> clientIdsUnique db ->
  let first := ClientProfiles.handlePost db now1 email clientId clientEmail name1 in
  let second := ClientProfiles.handlePost (snd first) now2 email clientId clientEmail name2 in
  exists user,
    Subscriptions.findUserByEmail (snd first) e = Some user
    /\ List.length (profilesOf (snd first) (user_id user) c) = 1%nat
    /\ List.length (profilesOf (snd second) (user_id user) c) = 1%nat
    /\ (ClientProfiles.res_status (fst first) = 200 ->
        ClientProfiles.res_status (fst second) = 200
        /\ List.length (db_clientProfiles (snd second))
           = List.length (db_clientProfiles (snd first)))
    /\ clientIdsUnique (snd first) /\ clientIdsUnique (snd second)
    /\ (clientEmailsUnique db ->
        clientEmailsUnique (snd first) /\ clientEmailsUnique (snd second))
    /\ (forall existing,
           clientEmailsUnique db ->
           In existing (db_clientProfiles db) ->
           cp_userId existing = user_id user ->
           ClientProfiles.equalsInsensitive (cp_clientEmail existing) ce = true ->
           (forall r, In r (db_clientProfiles db) ->
                      cp_userId r = user_id user -> cp_clientId r <> c) ->
           ClientProfiles.res_status (fst first) = 200
           /\ db_clientProfiles (snd first)
              = Prisma.updateMany (fun r => (cp_id r =? cp_id existing)%nat)
                  (ClientProfiles.moveToClientId c (JS.trim name1) now1)
                  (db_clientProfiles db)
           /\ In (ClientProfiles.moveToClientId c (JS.trim name1) now1 existing)
                 (db_clientProfiles (snd first))
           /\ List.length (db_clientProfiles (snd first))
              = List.length (db_clientProfiles db)).
Proof.
  intros Hids Hkeys first second.
  destruct (handlePost_once db now1 name1 Hids Hkeys)
    as (user & Hfind1 & Hsame1 & Hone1 & Hids1 & Hkeys1 & Hemails1 & Hsettled1).
  fold first in Hfind1, Hone1, Hids1, Hkeys1, Hemails1, Hsettled1.
  destruct (handlePost_once (snd first) now2 name2 Hids1 Hkeys1)
    as (user2 & Hfind2 & Hsame2 & Hone2 & Hids2 & Hkeys2 & Hemails2 & _).
  fold second in Hfind2, Hone2, Hids2, Hkeys2, Hemails2.
  assert (user2 = user) by (symmetry; now apply Hsame2). subst user2.
  exists user.
  split; [exact Hfind1|]. split; [exact Hone1|]. split; [exact Hone2|].
  split; [|split; [exact Hkeys1|split; [exact Hkeys2|split; [now auto|]]]].
  - (* the second POST is the update branch of the upsert *)
    intro H200. destruct (Hsettled1 H200) as (q & Hq & Hqc).
    subst second. rewrite handlePost_valid.
    destruct (getOrCreateUserByEmail_found (snd first) now2)
      as (user' & d0 & -> & _ & _ & _ & Hsame).
    destruct (Hsame user Hfind1) as [<- ->].
    destruct (saveProfile_settled (snd first) now2 user c ce (JS.trim name2) q Hq Hqc)
      as [-> Hlen].
    unfold ClientProfiles.respond.
    destruct (ClientProfiles.upsertProfile _ _ _ _ _ _) as [p d']. simpl in *. auto.
  - (* an unused client id with a known email moves the matched row *)
    intros existing Hemails Hin Huser Hci Hunused.
    subst first. rewrite handlePost_valid in *.
    destruct (getOrCreateUserByEmail_found db now1)
      as (user' & d0 & Hget & Hfind0 & Hrows & Hnext & Hsame).
    rewrite Hget in *.
    assert (Hids0 : profileIdsFresh d0) by now apply (profileIdsFresh_mono db).
    assert (user' = user).
    { destruct (ClientProfiles.saveProfile d0 now1 user' c ce (JS.trim name1))
        as [[p d']|] eqn:S; simpl in Hfind1.
      - apply saveProfile_saved in S; auto;
          [|unfold clientIdsUnique; now rewrite Hrows].
        destruct S as [Husers _ _ _ _ _ _].
        unfold Subscriptions.findUserByEmail in *. rewrite Husers in Hfind1. congruence.
      - congruence. }
    subst user'.
    assert (Hfirst : Prisma.findFirst (ClientProfiles.ownsEmail (user_id user) ce)
                                      (db_clientProfiles d0) = Some existing).
    { rewrite Hrows. unfold Prisma.findFirst.
      destruct (find _ _) as [x|] eqn:F.
      - f_equal. apply find_some in F. destruct F as [Hx Hox].
        apply (NoDup_map_inj_In profileEmailKey (db_clientProfiles db)); auto.
        apply ownsEmail_iff in Hox. rewrite Hox. symmetry. apply ownsEmail_iff.
        unfold ClientProfiles.ownsEmail. now rewrite Huser, Nat.eqb_refl, Hci.
      - exfalso. pose proof (find_none _ _ F existing Hin) as Hno.
        unfold ClientProfiles.ownsEmail in Hno.
        now rewrite Huser, Nat.eqb_refl, Hci in Hno. }
    assert (Hfree : ClientProfiles.clientIdTaken d0 c existing = false).
    { unfold ClientProfiles.clientIdTaken. rewrite Hrows.
      destruct (existsb _ _) eqn:Eb; [|reflexivity].
      exfalso. apply existsb_exists in Eb. destruct Eb as (r & Hr & Hk).
      apply andb_prop in Hk. destruct Hk as [Hk _]. apply hasKey_iff in Hk.
      injection Hk as Hu Hc. apply (Hunused r Hr); congruence. }
    assert (Hsave : ClientProfiles.saveProfile d0 now1 user c ce (JS.trim name1)
                    = Some (ClientProfiles.moveToClientId c (JS.trim name1) now1 existing,
                            withClientProfiles d0
                              (Prisma.updateMany (fun r => (cp_id r =? cp_id existing)%nat)
                                 (ClientProfiles.moveToClientId c (JS.trim name1) now1)
                                 (db_clientProfiles d0))
                              (db_nextId d0))).
    { unfold ClientProfiles.saveProfile. rewrite Hfirst, Hfree.
      destruct (String.eqb_spec (cp_clientId existing) c) as [Heq|_]; [|reflexivity].
      exfalso. now apply (Hunused existing Hin Huser). }
    rewrite Hsave. unfold ClientProfiles.respond. cbn [fst snd db_clientProfiles withClientProfiles].
    rewrite Hrows. split; [reflexivity|]. split; [reflexivity|].
    split; [|apply updateMany_length].
    apply updateMany_In_hit; [exact Hin|apply Nat.eqb_refl].
Qed.

End HandlePost.

Lemma client_profile_upsert_witness :
  profileIdsFresh sampleProfileDb
  /\ clientIdsUnique sampleProfileDb
  /\ clientEmailsUnique sampleProfileDb
  /\ db_clientProfiles
       (snd (ClientProfiles.handlePost sampleProfileDb sampleNow
               "Ann@Example.com" " C-2 " "bob@client.com" ""))
     = [ClientProfiles.moveToClientId "C-2" "" sampleNow sampleProfile]
  /\ List.length
       (profilesOf
          (snd (ClientProfiles.handlePost
                  (snd (ClientProfiles.handlePost sampleProfileDb sampleNow
                          "Ann@Example.com" " C-2 " "bob@client.com" ""))
                  (sampleNow + 1) "Ann@Example.com" " C-2 " "bob@client.com" ""))
          2 "C-2")
     = 1%nat.
Proof.
  assert (Hids : profileIdsFresh sampleProfileDb).
  { split; simpl; repeat constructor; simpl; auto. }
  assert (Hkeys : clientIdsUnique sampleProfileDb).
  { unfold clientIdsUnique. simpl. repeat constructor. simpl. auto. }
  assert (Hemails : clientEmailsUnique sampleProfileDb).
  { unfold clientEmailsUnique. simpl. repeat constructor. simpl. auto. }
  split; [exact Hids|]. split; [exact Hkeys|]. split; [exact Hemails|].
  destruct (client_profile_upsert "Ann@Example.com" " C-2 " "bob@client.com"
              ltac:(discriminate) ltac:(discriminate) ltac:(discriminate) eq_refl
              sampleProfileDb sampleNow (sampleNow + 1) "" "" Hids Hkeys)
    as (user & Hfind & _ & Hone & _ & _ & _ & _ & Hmove).
  vm_compute in Hfind. injection Hfind as <-.
  split; [|exact Hone].
  destruct (Hmove sampleProfile Hemails) as (_ & Hrows & _ & _).
  - left. reflexivity.
  - reflexivity.
  - reflexivity.
  - intros r [<-|[]] _. discriminate.
  - rewrite Hrows. reflexivity.
Defined.

(** ** The numeric sign-in code *)

Section Digits.

Lemma length_append (s t : string) :
  String.length (s ++ t) = (String.length s + String.length t)%nat.
Proof. induction s as [|ch r IH]; simpl; [reflexivity|now rewrite IH]. Qed.

Lemma length_repeatChar (ch : ascii) (n : nat) : String.length (JS.repeatChar ch n) = n.
Proof. induction n as [|n IH]; simpl; [reflexivity|now rewrite IH]. Qed.

Lemma allDigits_append (s t : string) :
  JS.allDigits (s ++ t) = JS.allDigits s && JS.allDigits t.
Proof.
  induction s as [|ch r IH]; simpl; [reflexivity|]. now rewrite IH, andb_assoc.
Qed.

Lemma allDigits_repeat_zero (n : nat) : JS.allDigits (JS.repeatChar "0" n) = true.
Proof. induction n as [|n IH]; simpl; [reflexivity|exact IH]. Qed.

Lemma isDigit_of_small (d : N) : (d < 10)%N -> JS.isDigit (ascii_of_N (48 + d)) = true.
Proof.
  intro H.
  assert (Hcases : (d = 0 \/ d = 1 \/ d = 2 \/ d = 3 \/ d = 4 \/ d = 5 \/ d = 6
                    \/ d = 7 \/ d = 8 \/ d = 9)%N) by lia.
  repeat (destruct Hcases as [->|Hcases]; [reflexivity|]). now subst d.
Qed.

Lemma digitsOf_allDigits (fuel : nat) (n : N) (acc : string) :
  JS.allDigits acc = true -> JS.allDigits (JS.digitsOf fuel n acc) = true.
Proof.
  revert n acc. induction fuel as [|f IH]; intros n acc Hacc; simpl; [exact Hacc|].
  assert (Hd : JS.allDigits (String (ascii_of_N (48 + n mod 10)) acc) = true).
  { cbn [JS.allDigits]. rewrite Hacc, isDigit_of_small; [reflexivity|].
    apply N.mod_lt. discriminate. }
  destruct (n / 10 =? 0)%N; [exact Hd|]. now apply IH.
Qed.

Lemma digitsOf_length (fuel k : nat) (n : N) (acc : string) :
  (n < 10 ^ N.of_nat (S k))%N ->
  (String.length (JS.digitsOf fuel n acc) <= String.length acc + S k)%nat.
Proof.
  revert k n acc. induction fuel as [|f IH]; intros k n acc Hn; simpl; [lia|].
  destruct (N.eqb_spec (n / 10) 0) as [Hz|Hnz]; [simpl; lia|].
  destruct k as [|k'].
  - exfalso. apply Hnz. apply N.div_small. exact Hn.
  - specialize (IH k' (n / 10)%N (String (ascii_of_N (48 + n mod 10)) acc)).
    simpl String.length in IH.
    assert (Hdiv : (n / 10 < 10 ^ N.of_nat (S k'))%N).
    { apply N.Div0.div_lt_upper_bound.
      replace (N.of_nat (S (S k'))) with (N.succ (N.of_nat (S k'))) in Hn by lia.
      now rewrite N.pow_succ_r' in Hn. }
    specialize (IH Hdiv). lia.
Qed.

Lemma numberToString_of_N (n : N) : JS.numberToString (Z.of_N n) = JS.decimal n.
Proof.
  unfold JS.numberToString.
  destruct (Z.ltb_spec (Z.of_N n) 0) as [H|_]; [lia|].
  now rewrite N2Z.id.
Qed.

(** A number below one million, zero-padded to six places, is six
    digits. *)
Lemma padded_six_digits (n : N) :
  (n < 1000000)%N ->
  String.length (JS.padStart 6 "0" (JS.numberToString (Z.of_N n))) = 6%nat
  /\ JS.allDigits (JS.padStart 6 "0" (JS.numberToString (Z.of_N n))) = true.
Proof.
  intro Hn. rewrite numberToString_of_N. unfold JS.padStart, JS.decimal.
  set (digits := JS.digitsOf _ n "").
  assert (Hlen : (String.length digits <= 6)%nat).
  { subst digits.
    pose proof (digitsOf_length (S (N.to_nat (N.log2 n))) 5 n "") as H.
    simpl String.length in H. apply H. exact Hn. }
  split.
  - rewrite length_append, length_repeatChar. lia.
  - rewrite allDigits_append, allDigits_repeat_zero. subst digits.
    now apply digitsOf_allDigits.
Qed.

Lemma filterChars_allDigits (s : string) :
  JS.allDigits s = true -> JS.filterChars JS.isDigit s = s.
Proof.
  induction s as [|ch r IH]; simpl; [reflexivity|].
  intro H. apply andb_prop in H. destruct H as [Hc Hr].
  now rewrite Hc, IH.
Qed.

Lemma substring_all (n : nat) (s : string) :
  (String.length s <= n)%nat -> String.substring 0 n s = s.
Proof.
  revert n. induction s as [|ch r IH]; intros n H.
  - destruct n; reflexivity.
  - destruct n as [|n]; simpl in *; [lia|]. rewrite IH; [reflexivity|lia].
Qed.

(** A six-digit code is left as it is by [normalizeSignInCode]. *)
Lemma normalizeSignInCode_code (s : string) :
  String.length s = 6%nat -> JS.allDigits s = true -> Auth.normalizeSignInCode s = s.
Proof.
  intros Hlen Hd. unfold Auth.normalizeSignInCode, JS.slice0.
  rewrite filterChars_allDigits by exact Hd. apply substring_all. lia.
Qed.

End Digits.

Section LoginCode.

Open Scope N_scope.

Lemma lor_shift_byte (a b : N) : b < 256 -> N.lor (N.shiftl a 8) b = a * 256 + b.
Proof.
  intro Hb. rewrite N.shiftl_mul_pow2. change (2 ^ 8) with 256.
  assert (Hland : N.land (a * 256) b = 0).
  { apply N.bits_inj. intro i. rewrite N.land_spec, N.bits_0.
    destruct (N.lt_ge_cases i 8) as [Hi|Hi].
    - change 256 with (2 ^ 8). now rewrite N.mul_pow2_bits_low.
    - destruct (N.eq_dec b 0) as [->|Hnz]; [now rewrite N.bits_0, andb_false_r|].
      rewrite (N.bits_above_log2 b i), andb_false_r; [reflexivity|].
      apply N.lt_le_trans with 8; [|exact Hi].
      apply N.log2_lt_pow2; [lia|exact Hb]. }
  now rewrite (N.add_nocarry_lxor _ _ Hland), (N.lxor_lor _ _ Hland).
Qed.

(** [readUInt32BE(0)] is the big-endian value of the first four bytes. *)
Lemma readUInt32BE_value (b0 b1 b2 b3 : N) (rest : list N) :
  b0 < 256 -> b1 < 256 -> b2 < 256 -> b3 < 256 ->
  Crypto.readUInt32BE (b0 :: b1 :: b2 :: b3 :: rest)
  = b0 * 2 ^ 24 + b1 * 2 ^ 16 + b2 * 2 ^ 8 + b3.
Proof.
  intros H0 H1 H2 H3. unfold Crypto.readUInt32BE. cbn [firstn Crypto.fromBigEndian].
  rewrite !lor_shift_byte by assumption. lia.
Qed.

Lemma land_byte_lt (x : N) : N.land x 0xFF < 256.
Proof.
  change 0xFF with (N.ones 8). rewrite N.land_ones.
  apply N.mod_lt. discriminate.
Qed.

(** The digest starts with four bytes. *)
Lemma sha256_first_bytes (msg : list N) :
  exists b0 b1 b2 b3 rest,
    Crypto.sha256 msg = b0 :: b1 :: b2 :: b3 :: rest
    /\ b0 < 256 /\ b1 < 256 /\ b2 < 256 /\ b3 < 256.
Proof.
  unfold Crypto.sha256.
  set (st := Crypto.blocks _ _ _).
  cbn [flat_map Crypto.bigEndian seq rev app map].
  do 5 eexists. split; [reflexivity|].
  repeat split; apply land_byte_lt.
Qed.

Lemma readUInt32BE_hmac (key msg : list N) :
  exists b0 b1 b2 b3 rest,
    Crypto.hmacSha256 key msg = b0 :: b1 :: b2 :: b3 :: rest
    /\ b0 < 256 /\ b1 < 256 /\ b2 < 256 /\ b3 < 256
    /\ Crypto.readUInt32BE (Crypto.hmacSha256 key msg)
       = b0 * 2 ^ 24 + b1 * 2 ^ 16 + b2 * 2 ^ 8 + b3.
Proof.
  unfold Crypto.hmacSha256.
  destruct (sha256_first_bytes
              (map (N.lxor 0x5c)
                   ((if 64 <? N.of_nat (List.length key) then Crypto.sha256 key else key)
                    ++ repeat 0 (64 - List.length
                                        (if 64 <? N.of_nat (List.length key)
                                         then Crypto.sha256 key else key)))
               ++ Crypto.sha256
                    (map (N.lxor 0x36)
                         ((if 64 <? N.of_nat (List.length key) then Crypto.sha256 key else key)
                          ++ repeat 0 (64 - List.length
                                              (if 64 <? N.of_nat (List.length key)
                                               then Crypto.sha256 key else key)))
                     ++ msg)))
    as (b0 & b1 & b2 & b3 & rest & E & H0 & H1 & H2 & H3).
  exists b0, b1, b2, b3, rest. rewrite E.
  repeat split; auto. now apply readUInt32BE_value.
Qed.

End LoginCode.

Section LoginCodeWindow.

Lemma computeLoginCode_shape (email secret : string) (slot : Z) :
  String.length (Auth.computeLoginCode email secret slot) = 6%nat
  /\ JS.allDigits (Auth.computeLoginCode email secret slot) = true.
Proof.
  unfold Auth.computeLoginCode. apply padded_six_digits.
  apply N.mod_lt. discriminate.
Qed.

Lemma trim_lower_idem (email : string) :
  JS.toLowerCase (JS.trim (JS.toLowerCase (JS.trim email))) = JS.toLowerCase (JS.trim email).
Proof. apply normalizeEmail_idem. Qed.

Lemma memberOf_two (x a b : string) :
  Auth.memberOf x [a; b] = true <-> x = a \/ x = b.
Proof.
  unfold Auth.memberOf. simpl. rewrite orb_false_r, orb_true_iff, !String.eqb_eq.
  reflexivity.
Qed.

(** Past the earlier checks, the handler accepts exactly the requests
    whose normalized code is the code of the current or of the previous
    slot, and answers 401 to the others. *)
Lemma verifyLoginCode_window (env : Auth.Env) (now : Z) (email code : string) :
  emailMaySignIn env email ->
  String.length (Auth.normalizeSignInCode code) = 6%nat ->
  let e := JS.toLowerCase (JS.trim email) in
  let secret := Auth.getMagicLinkSecret env in
  let slot := Auth.getLoginCodeSlot now (Auth.getMagicLinkTTLMinutes env) in
  Auth.verifyLoginCode env now email code =
  if Auth.memberOf (Auth.normalizeSignInCode code)
                   [Auth.computeLoginCode e secret slot;
                    Auth.computeLoginCode e secret (slot - 1)]
  then Auth.CodeAccepted e
  else Auth.Rejected 401 "Invalid or expired sign-in code." "INVALID_SIGNIN_CODE".
Proof.
  intros (He & Hpat & Hsecret & Hallowed) Hlen e secret slot.
  unfold Auth.verifyLoginCode. fold e.
  destruct (JS.truthy e) eqn:T1; [|apply truthy_spec in T1; contradiction].
  fold e in Hpat. rewrite Hpat. cbn [negb].
  destruct (JS.truthy (Auth.normalizeSignInCode code)) eqn:T2.
  2:{ apply truthy_spec in T2. rewrite T2 in Hlen. discriminate. }
  rewrite Hlen. cbn [negb orb Nat.eqb].
  destruct (JS.truthy (Auth.getMagicLinkSecret env)) eqn:T3;
    [|apply truthy_spec in T3; contradiction].
  cbn [negb].
  assert (Hgate : ((0 <? List.length (Auth.getAllowedEmails env))%nat
                   && negb (Auth.memberOf e (Auth.getAllowedEmails env))) = false).
  { destruct Hallowed as [Hnone | Hmember]; [now rewrite Hnone|].
    subst e. rewrite Hmember. cbn [negb]. apply andb_false_r. }
  rewrite Hgate. fold secret. fold slot.
  destruct (Auth.memberOf (Auth.normalizeSignInCode code) _); reflexivity.
Qed.

(** C7 (amended): the sign-in code is a function of the normalized email,
    the secret and the slot; it is six decimal digits, the zero-padded value
    of the first four bytes of HMAC-SHA256(secret, email|slot|separator) read
    as a big-endian unsigned integer, modulo 1,000,000; and verify_login_code
    accepts exactly the codes of slots N and N-1, so the code of slot N-2 is
    rejected unless it coincides with one of those two. *)
Theorem login_code_window :
  (forall (email secret : string) (slot : Z),
      let code := Auth.computeLoginCode email secret slot in
      code = Auth.computeLoginCode (JS.toLowerCase (JS.trim email)) secret slot
      /\ String.length code = 6%nat
      /\ JS.allDigits code = true
      /\ exists b0 b1 b2 b3 rest,
           Crypto.hmacSha256 (Crypto.bytesOfString secret)
                             (Crypto.bytesOfString (Auth.loginCodeBase email slot))
           = b0 :: b1 :: b2 :: b3 :: rest
           /\ (b0 < 256 /\ b1 < 256 /\ b2 < 256 /\ b3 < 256)%N
           /\ code = JS.padStart 6 "0"
                       (JS.numberToString
                          (Z.of_N ((b0 * 2 ^ 24 + b1 * 2 ^ 16 + b2 * 2 ^ 8 + b3)
                                   mod 1000000)%N)))
  /\ (forall (env : Auth.Env) (now : Z) (email : string),
         emailMaySignIn env email ->
         let e := JS.toLowerCase (JS.trim email) in
         let secret := Auth.getMagicLinkSecret env in
         let slot := Auth.getLoginCodeSlot now (Auth.getMagicLinkTTLMinutes env) in
         let codeOf := Auth.computeLoginCode e secret in
         (forall code,
             String.length (Auth.normalizeSignInCode code) = 6%nat ->
             (Auth.verifyLoginCode env now email code = Auth.CodeAccepted e <->
              Auth.normalizeSignInCode code = codeOf slot
              \/ Auth.normalizeSignInCode code = codeOf (slot - 1)))
         /\ Auth.verifyLoginCode env now email (codeOf slot) = Auth.CodeAccepted e
         /\ Auth.verifyLoginCode env now email (codeOf (slot - 1)) = Auth.CodeAccepted e
         /\ (Auth.verifyLoginCode env now email (codeOf (slot - 2))
               = Auth.Rejected 401 "Invalid or expired sign-in code." "INVALID_SIGNIN_CODE"
             <-> codeOf (slot - 2) <> codeOf slot /\ codeOf (slot - 2) <> codeOf (slot - 1))).
Proof.
  split.
  - intros email secret slot code. subst code.
    split; [|split; [|split]]; try apply computeLoginCode_shape.
    + unfold Auth.computeLoginCode, Auth.loginCodeBase. now rewrite trim_lower_idem.
    + destruct (readUInt32BE_hmac (Crypto.bytesOfString secret)
                  (Crypto.bytesOfString (Auth.loginCodeBase email slot)))
        as (b0 & b1 & b2 & b3 & rest & E & H0 & H1 & H2 & H3 & Hval).
      exists b0, b1, b2, b3, rest. split; [exact E|]. split; [auto|].
      unfold Auth.computeLoginCode. now rewrite Hval.
  - intros env now email Hok e secret slot codeOf.
    assert (Hown : forall k, Auth.normalizeSignInCode (codeOf k) = codeOf k).
    { intro k. apply normalizeSignInCode_code; apply computeLoginCode_shape. }
    assert (Hlen : forall k, String.length (Auth.normalizeSignInCode (codeOf k)) = 6%nat).
    { intro k. rewrite Hown. apply computeLoginCode_shape. }
    split; [|split; [|split]].
    + intros code Hcode. rewrite (verifyLoginCode_window env now email code Hok Hcode).
      fold e secret slot codeOf. rewrite <- memberOf_two.
      destruct (Auth.memberOf _ _); split; intro H;
        solve [reflexivity | discriminate H].
    + rewrite (verifyLoginCode_window env now email _ Hok (Hlen slot)).
      fold e secret slot codeOf. rewrite Hown.
      now rewrite (proj2 (memberOf_two _ _ _) (or_introl eq_refl)).
    + rewrite (verifyLoginCode_window env now email _ Hok (Hlen (slot - 1))).
      fold e secret slot codeOf. rewrite Hown.
      now rewrite (proj2 (memberOf_two _ _ _) (or_intror eq_refl)).
    + rewrite (verifyLoginCode_window env now email _ Hok (Hlen (slot - 2))).
      fold e secret slot codeOf. rewrite Hown.
      destruct (Auth.memberOf (codeOf (slot - 2)) [codeOf slot; codeOf (slot - 1)]) eqn:M.
      * apply memberOf_two in M. split; [discriminate|]. intros [H1 H2].
        destruct M; contradiction.
      * split; [|reflexivity]. intros _.
        split; intro H;
          assert (T : Auth.memberOf (codeOf (slot - 2)) [codeOf slot; codeOf (slot - 1)] = true)
            by (apply memberOf_two; auto);
          rewrite M in T; discriminate T.
Qed.

(** C7, as stated, fails: at slot 3341386 the code of slot N-2 equals the
    code of slot N, and the handler accepts it. *)
Lemma login_code_window_counterexample :
  emailMaySignIn sampleAuthEnv "ann@example.com"
  /\ Auth.getLoginCodeSlot 2004831600000 (Auth.getMagicLinkTTLMinutes sampleAuthEnv)
     = 3341386
  /\ Auth.computeLoginCode "ann@example.com" "renpay-dev-secret" (3341386 - 2) = "995465"
  /\ Auth.computeLoginCode "ann@example.com" "renpay-dev-secret" 3341386 = "995465"
  /\ Auth.verifyLoginCode sampleAuthEnv 2004831600000 "ann@example.com"
       (Auth.computeLoginCode "ann@example.com" "renpay-dev-secret" (3341386 - 2))
     = Auth.CodeAccepted "ann@example.com".
Proof.
  split; [|repeat split; vm_compute; reflexivity].
  unfold emailMaySignIn. repeat split; try discriminate; try reflexivity.
  now left.
Qed.

Lemma login_code_window_witness :
  emailMaySignIn sampleAuthEnv "ann@example.com"
  /\ Auth.verifyLoginCode sampleAuthEnv sampleNow "ann@example.com" "396160"
     = Auth.CodeAccepted "ann@example.com".
Proof.
  assert (Hok : emailMaySignIn sampleAuthEnv "ann@example.com").
  { unfold emailMaySignIn. repeat split; try discriminate; try reflexivity. now left. }
  split; [exact Hok|].
  destruct login_code_window as [_ H].
  destruct (H sampleAuthEnv sampleNow "ann@example.com" Hok) as (_ & Hcur & _).
  exact Hcur.
Defined.

End LoginCodeWindow.

(** ** Tokens: the codecs *)

Section Split.

Variable sep : ascii.

Lemma split_nonempty (s : string) : JS.split sep s <> [].
Proof.
  induction s as [|c r IH]; simpl; [discriminate|].
  destruct (Ascii.eqb c sep); [discriminate|].
  destruct (JS.split sep r); [contradiction|discriminate].
Qed.

Lemma split_lacks (s : string) : JS.lacks sep s = true -> JS.split sep s = [s].
Proof.
  induction s as [|c r IH]; simpl; [reflexivity|].
  intro H. apply andb_prop in H. destruct H as [Hc Hr].
  apply negb_true_iff in Hc. rewrite Hc, (IH Hr). reflexivity.
Qed.

Lemma split_append (a b : string) :
  JS.lacks sep a = true ->
  JS.split sep (a ++ String sep b)
  = a :: JS.split sep b.
Proof.
  induction a as [|c r IH]; simpl.
  - intros _. now rewrite Ascii.eqb_refl.
  - intro H. apply andb_prop in H. destruct H as [Hc Hr].
    apply negb_true_iff in Hc. rewrite Hc, (IH Hr). reflexivity.
Qed.

(** The pieces of a split, joined by the separator, give the string
    back; each piece is free of the separator. *)
Lemma split_two_inv (s a b : string) :
  JS.split sep s = [a; b] ->
  s = a ++ String sep b /\ JS.lacks sep a = true /\ JS.lacks sep b = true.
Proof.
  revert a. induction s as [|c r IH]; intros a; simpl; [discriminate|].
  destruct (Ascii.eqb_spec c sep) as [->|Hne].
  - intro H. injection H as <- H.
    assert (Hb : JS.lacks sep b = true /\ r = b).
    { clear IH. revert b H. induction r as [|d t IHt]; intros b H; simpl in *.
      - injection H as <-. auto.
      - destruct (Ascii.eqb_spec d sep) as [->|Hd];
          [injection H as _ H; now destruct (split_nonempty t)|].
        destruct (JS.split sep t) as [|p ps] eqn:E; [now destruct (split_nonempty t)|].
        injection H as <- ->.
        destruct (IHt p eq_refl) as [Hp ->]. simpl.
        split; [|reflexivity].
        rewrite Hp, andb_true_r. apply negb_true_iff. now apply Ascii.eqb_neq. }
    destruct Hb as [Hb ->]. simpl. auto.
  - destruct (JS.split sep r) as [|p ps] eqn:E; [discriminate|].
    intro H. injection H as <- ->.
    destruct (IH p eq_refl) as (-> & Hp & Hb). simpl.
    repeat split; auto.
    rewrite Hp, andb_true_r. apply negb_true_iff. now apply Ascii.eqb_neq.
Qed.

End Split.

Section Base64.

Open Scope N_scope.

Lemma get_lacks (c d : ascii) (s : string) (i : nat) :
  JS.lacks c s = true -> String.get i s = Some d -> d <> c.
Proof.
  revert i. induction s as [|e r IH]; intros i Hl Hg; simpl in *; [discriminate|].
  apply andb_prop in Hl. destruct Hl as [He Hr].
  destruct i as [|i].
  - injection Hg as <-. apply negb_true_iff in He. now apply Ascii.eqb_neq.
  - now apply (IH i).
Qed.

Lemma encodeSextet_not_dot (n : N) : Base64Url.encodeSextet n <> "."%char.
Proof.
  unfold Base64Url.encodeSextet.
  destruct (String.get (N.to_nat n) Base64Url.alphabet) as [c|] eqn:E; [|discriminate].
  apply (get_lacks "." c Base64Url.alphabet (N.to_nat n)); [reflexivity|exact E].
Qed.

Lemma toBase64Url_lacks_dot (bytes : list N) :
  JS.lacks "." (Base64Url.toBase64Url bytes) = true.
Proof.
  unfold Base64Url.toBase64Url.
  induction (Base64Url.encodeBytes bytes) as [|n l IH]; simpl; [reflexivity|].
  rewrite IH, andb_true_r. apply negb_true_iff, Ascii.eqb_neq, encodeSextet_not_dot.
Qed.

Lemma decodeChar_encodeSextet (n : N) :
  n < 64 -> Base64Url.decodeChar (Base64Url.encodeSextet n) = Some n.
Proof.
  intro H.
  assert (Hall : forallb (fun i => match Base64Url.decodeChar
                                           (Base64Url.encodeSextet (N.of_nat i)) with
                                   | Some m => m =? N.of_nat i
                                   | None => false
                                   end) (seq 0 64) = true) by (vm_compute; reflexivity).
  rewrite forallb_forall in Hall.
  specialize (Hall (N.to_nat n)). rewrite N2Nat.id in Hall.
  assert (Hin : In (N.to_nat n) (seq 0 64)) by (apply in_seq; lia).
  specialize (Hall Hin).
  destruct (Base64Url.decodeChar (Base64Url.encodeSextet n)) as [m|]; [|discriminate].
  apply N.eqb_eq in Hall. now subst m.
Qed.

Lemma sextetsOf_encode (l : list N) :
  Forall (fun n => n < 64) l ->
  Base64Url.sextetsOf (string_of_list_ascii (map Base64Url.encodeSextet l)) = l.
Proof.
  induction 1 as [|n l Hn _ IH]; simpl; [reflexivity|].
  now rewrite (decodeChar_encodeSextet n Hn), IH.
Qed.

Ltac divmod := Zify.zify; Z.to_euclidean_division_equations; lia.

(** Induction three bytes at a time. *)
Lemma triples_ind (P : list N -> Prop) :
  P [] -> (forall a, P [a]) -> (forall a b, P [a; b]) ->
  (forall a b c rest, P rest -> P (a :: b :: c :: rest)) ->
  forall l, P l.
Proof.
  intros H0 H1 H2 H3 l.
  assert (Hlen : forall n l, (List.length l <= n)%nat -> P l).
  { clear l. induction n as [|n IH]; intros l Hl.
    - destruct l; [exact H0|simpl in Hl; lia].
    - destruct l as [|a [|b [|c rest]]]; auto.
      apply H3. apply IH. simpl in Hl. lia. }
  apply (Hlen (List.length l) l). lia.
Qed.

Lemma encodeBytes_sextets (bytes : list N) :
  Forall (fun b => b < 256) bytes ->
  Forall (fun n => n < 64) (Base64Url.encodeBytes bytes).
Proof.
  induction bytes as [| a | a b | a b c rest IH] using triples_ind; intro H.
  - constructor.
  - inversion H; subst. simpl. repeat constructor; divmod.
  - inversion H as [|? ? Ha H']; subst. inversion H'; subst.
    simpl. repeat constructor; divmod.
  - inversion H as [|? ? Ha H']; subst. inversion H' as [|? ? Hb H'']; subst.
    inversion H'' as [|? ? Hc Hrest]; subst.
    cbn [Base64Url.encodeBytes].
    repeat (constructor; [divmod|]). now apply IH.
Qed.

Lemma decodeSextets_encodeBytes (bytes : list N) :
  Forall (fun b => b < 256) bytes ->
  Base64Url.decodeSextets (Base64Url.encodeBytes bytes) = bytes.
Proof.
  induction bytes as [| a | a b | a b c rest IH] using triples_ind; intro H.
  - reflexivity.
  - inversion H; subst. simpl. f_equal. divmod.
  - inversion H as [|? ? Ha H']; subst. inversion H'; subst.
    simpl. f_equal; [divmod|]. f_equal. divmod.
  - inversion H as [|? ? Ha H']; subst. inversion H' as [|? ? Hb H'']; subst.
    inversion H'' as [|? ? Hc Hrest]; subst.
    cbn [Base64Url.encodeBytes Base64Url.decodeSextets].
    rewrite (IH Hrest). f_equal; [divmod|]. f_equal; [divmod|]. f_equal. divmod.
Qed.

Lemma bytesOfString_bytes (s : string) :
  Forall (fun b => b < 256) (Crypto.bytesOfString s).
Proof.
  unfold Crypto.bytesOfString.
  induction s as [|c r IH]; simpl; constructor; [apply N_ascii_bounded|exact IH].
Qed.

Lemma stringOfBytes_bytesOfString (s : string) :
  Crypto.stringOfBytes (Crypto.bytesOfString s) = s.
Proof.
  unfold Crypto.stringOfBytes, Crypto.bytesOfString.
  induction s as [|c r IH]; simpl; [reflexivity|].
  now rewrite ascii_N_embedding, IH.
Qed.

(** Decoding undoes encoding. *)
Lemma base64Url_roundtrip (value : string) :
  Auth.base64UrlDecode (Auth.base64UrlEncode value) = value.
Proof.
  unfold Auth.base64UrlDecode, Auth.base64UrlEncode,
         Base64Url.fromBase64Url, Base64Url.toBase64Url.
  rewrite sextetsOf_encode by apply encodeBytes_sextets, bytesOfString_bytes.
  rewrite decodeSextets_encodeBytes by apply bytesOfString_bytes.
  apply stringOfBytes_bytesOfString.
Qed.

End Base64.

(** ** [JSON.parse] undoes [JSON.stringify] *)

Section JsonNumbers.

Lemma append_assoc (s t u : string) : (s ++ t) ++ u = s ++ (t ++ u).
Proof. induction s as [|c r IH]; simpl; [reflexivity|now rewrite IH]. Qed.

Lemma append_empty_r (s : string) : s ++ "" = s.
Proof. induction s as [|c r IH]; simpl; [reflexivity|now rewrite IH]. Qed.

Lemma digitsOf_append (fuel : nat) (n : N) (acc rest : string) :
  JS.digitsOf fuel n acc ++ rest = JS.digitsOf fuel n (acc ++ rest).
Proof.
  revert n acc. induction fuel as [|f IH]; intros n acc; simpl; [reflexivity|].
  destruct (n / 10 =? 0)%N; [reflexivity|]. now rewrite IH.
Qed.

Lemma digit_value (d : N) : (d < 10)%N -> (N_of_ascii (ascii_of_N (48 + d)) - 48 = d)%N.
Proof. intro H. rewrite N_ascii_embedding; lia. Qed.

Lemma takeDigits_digitsOf (f : nat) (n : N) (acc : string) :
  (n < 10 ^ N.of_nat f)%N ->
  JSON.takeDigits (JS.digitsOf f n acc) 0 = JSON.takeDigits acc n.
Proof.
  revert n acc. induction f as [|f IH]; intros n acc Hn.
  - simpl in *. assert (n = 0%N) by lia. now subst n.
  - assert (Hd : (n mod 10 < 10)%N) by (apply N.mod_lt; discriminate).
    assert (Hstep : JSON.takeDigits (String (ascii_of_N (48 + n mod 10)) acc) (n / 10)
                    = JSON.takeDigits acc n).
    { cbn [JSON.takeDigits]. rewrite (isDigit_of_small _ Hd), (digit_value _ Hd).
      f_equal. rewrite N.mul_comm. symmetry. apply N.div_mod. discriminate. }
    cbn [JS.digitsOf].
    destruct (N.eqb_spec (n / 10) 0) as [Hz|Hnz].
    + rewrite <- Hstep, Hz. reflexivity.
    + rewrite IH; [exact Hstep|].
      apply N.Div0.div_lt_upper_bound.
      replace (N.of_nat (S f)) with (N.succ (N.of_nat f)) in Hn by lia.
      now rewrite N.pow_succ_r' in Hn.
Qed.

Lemma decimal_fuel (n : N) : (n < 10 ^ N.of_nat (S (N.to_nat (N.log2 n))))%N.
Proof.
  replace (N.of_nat (S (N.to_nat (N.log2 n)))) with (N.succ (N.log2 n)) by lia.
  destruct (N.eq_dec n 0) as [->|Hnz]; [reflexivity|].
  apply N.lt_le_trans with (2 ^ N.succ (N.log2 n))%N.
  - apply N.log2_spec. lia.
  - apply N.pow_le_mono_l. lia.
Qed.

Lemma digitsOf_head (f : nat) (n : N) (acc : string) :
  (0 < n)%N -> (n < 10 ^ N.of_nat f)%N ->
  exists c r, JS.digitsOf f n acc = String c r
              /\ JS.isDigit c = true /\ N_of_ascii c <> 48%N.
Proof.
  revert n acc. induction f as [|f IH]; intros n acc Hpos Hn.
  - simpl in Hn. lia.
  - cbn [JS.digitsOf].
    destruct (N.eqb_spec (n / 10) 0) as [Hz|Hnz].
    + assert (Hsmall : (n < 10)%N).
      { destruct (N.lt_ge_cases n 10) as [H|H]; [exact H|].
        exfalso. assert (1 <= n / 10)%N; [|lia].
        apply N.div_le_lower_bound; lia. }
      exists (ascii_of_N (48 + n mod 10)), acc. split; [reflexivity|].
      rewrite N.mod_small by exact Hsmall.
      split; [now apply isDigit_of_small|].
      rewrite N_ascii_embedding; lia.
    + apply IH; [now apply N.neq_0_lt_0|].
      apply N.Div0.div_lt_upper_bound.
      replace (N.of_nat (S f)) with (N.succ (N.of_nat f)) in Hn by lia.
      now rewrite N.pow_succ_r' in Hn.
Qed.

Lemma delimited_not_number (rest : string) :
  JSON.delimited rest = true ->
  JSON.startsNumberTail rest = false
  /\ match rest with
     | EmptyString => True
     | String d _ => JS.isDigit d = false
     end.
Proof.
  destruct rest as [|d r]; [auto|].
  destruct d as [[] [] [] [] [] [] [] []]; simpl; intro H;
    solve [discriminate H | auto].
Qed.

Lemma takeDigits_stop (rest : string) (n : N) :
  JSON.delimited rest = true -> JSON.takeDigits rest n = (n, rest).
Proof.
  intro H. apply delimited_not_number in H. destruct H as [_ H].
  destruct rest as [|d r]; [reflexivity|]. simpl. now rewrite H.
Qed.

(** The decimal text of a natural number reads back as the number. *)
Lemma parseNatural_decimal (n : N) (rest : string) :
  JSON.delimited rest = true ->
  JSON.parseNatural (JS.decimal n ++ rest) = Some (n, rest).
Proof.
  intro Hrest. pose proof (delimited_not_number rest Hrest) as [Htail Hdigit].
  destruct (N.eq_dec n 0) as [->|Hnz].
  - change (JS.decimal 0) with "0". cbn [append JSON.parseNatural].
    change (N_of_ascii "0" =? 48)%N with true. cbn iota.
    destruct rest as [|d r]; [reflexivity|]. now rewrite Hdigit, Htail.
  - unfold JS.decimal.
    destruct (digitsOf_head (S (N.to_nat (N.log2 n))) n "" ltac:(lia) (decimal_fuel n))
      as (c & r & Hhead & Hc & Hnot0).
    assert (Htake : JSON.takeDigits (JS.digitsOf (S (N.to_nat (N.log2 n))) n "" ++ rest) 0
                    = (n, rest)).
    { rewrite digitsOf_append, takeDigits_digitsOf by apply decimal_fuel.
      now apply takeDigits_stop. }
    rewrite Hhead in *. cbn [append] in *. unfold JSON.parseNatural.
    rewrite (proj2 (N.eqb_neq _ _) Hnot0), Hc, Htake. now rewrite Htail.
Qed.

End JsonNumbers.

Section JsonStrings.

(** A string literal reads back as the string. *)
Lemma parseStringBody_escape (s rest : string) :
  JSON.parseStringBody (JSON.escape s ++ String JSON.doubleQuote rest) = Some (s, rest).
Proof.
  induction s as [|c r IH]; [reflexivity|].
  cbn [JSON.escape]. rewrite append_assoc.
  destruct c as [[] [] [] [] [] [] [] []];
    cbn -[JSON.escape] in IH |- *; rewrite IH; reflexivity.
Qed.

Lemma parse_quote (s rest : string) :
  exists t, JSON.quote s ++ rest = String JSON.doubleQuote t
            /\ JSON.parseStringBody t = Some (s, rest).
Proof.
  unfold JSON.quote. cbn [append]. eexists. split; [reflexivity|].
  rewrite append_assoc. apply parseStringBody_escape.
Qed.

End JsonStrings.

Section JsonValues.

Import JSON.

Lemma json_induction (P : json -> Prop) :
  P JNull -> (forall b, P (JBool b)) -> (forall z, P (JNum z)) -> (forall s, P (JStr s)) ->
  (forall items, Forall P items -> P (JArr items)) ->
  (forall members, Forall (fun kv => P (snd kv)) members -> P (JObj members)) ->
  forall v, P v.
Proof.
  intros Hnull Hbool Hnum Hstr Harr Hobj.
  fix IH 1. intros [| b | z | s | items | members].
  - exact Hnull.
  - apply Hbool.
  - apply Hnum.
  - apply Hstr.
  - apply Harr. induction items as [|x r IHr]; constructor; [apply IH | exact IHr].
  - apply Hobj. induction members as [|[k x] r IHr]; constructor; [apply IH | exact IHr].
Qed.

Lemma valueHead_facts (c : ascii) :
  valueHead c = true ->
  isJsonSpace c = false
  /\ (N_of_ascii c =? 93)%N = false
  /\ (N_of_ascii c =? 125)%N = false.
Proof.
  destruct c as [[] [] [] [] [] [] [] []]; intro H;
    solve [discriminate H | repeat split; reflexivity].
Qed.

Lemma digit_facts (c : ascii) :
  JS.isDigit c = true ->
  valueHead c = true
  /\ (N_of_ascii c =? 110)%N = false /\ (N_of_ascii c =? 116)%N = false
  /\ (N_of_ascii c =? 102)%N = false /\ (N_of_ascii c =? 34)%N = false
  /\ (N_of_ascii c =? 45)%N = false.
Proof.
  destruct c as [[] [] [] [] [] [] [] []]; intro H;
    solve [discriminate H | repeat split; reflexivity].
Qed.

Lemma decimal_starts_with_digit (n : N) :
  exists c r, JS.decimal n = String c r /\ JS.isDigit c = true.
Proof.
  destruct (N.eq_dec n 0) as [->|Hnz].
  - exists "0"%char, "". split; reflexivity.
  - destruct (digitsOf_head (S (N.to_nat (N.log2 n))) n "" ltac:(lia) (decimal_fuel n))
      as (c & r & Hhead & Hc & _).
    exists c, r. split; assumption.
Qed.

(** The text of a value starts with a character that announces it. *)
Lemma stringify_head (v : json) :
  exists c t, stringify v = String c t /\ valueHead c = true.
Proof.
  destruct v as [| [|] | z | s | items | members];
    try (do 2 eexists; split; reflexivity).
  cbn [stringify]. unfold JS.numberToString.
  destruct (z <? 0); [do 2 eexists; split; reflexivity|].
  destruct (decimal_starts_with_digit (Z.to_N z)) as (c & r & -> & Hc).
  exists c, r. split; [reflexivity|]. now apply digit_facts.
Qed.

Lemma prefix_append (word rest : string) : String.prefix word (word ++ rest) = true.
Proof.
  induction word as [|c w IH]; simpl; [now destruct rest|].
  destruct (ascii_dec c c) as [_|Hne]; [exact IH|contradiction].
Qed.

Lemma substring_after (word rest : string) :
  String.substring (String.length word) (String.length rest) (word ++ rest) = rest.
Proof.
  induction word as [|c w IH]; simpl; [|exact IH].
  apply substring_all. lia.
Qed.

Lemma expect_word (word : string) (v : json) (rest : string) :
  expect word v (word ++ rest) = Some (v, rest).
Proof.
  unfold expect. rewrite prefix_append. f_equal. f_equal.
  rewrite length_append.
  replace (String.length word + String.length rest - String.length word)%nat
    with (String.length rest) by lia.
  apply substring_after.
Qed.

Lemma readsBack_null : ReadsBack JNull.
Proof.
  intros [|f] rest Hfuel Hrest; [simpl in Hfuel; lia|].
  cbn [parseValue]. change (stringify JNull ++ rest) with ("null" ++ rest).
  cbn [append skipSpace]. change (isJsonSpace "n") with false. cbn iota.
  change (N_of_ascii "n" =? 110)%N with true. cbn iota.
  apply (expect_word "null" JNull rest).
Qed.

Lemma readsBack_bool (b : bool) : ReadsBack (JBool b).
Proof.
  intros [|f] rest Hfuel Hrest; [simpl in Hfuel; lia|].
  destruct b.
  - apply (expect_word "true" (JBool true) rest).
  - apply (expect_word "false" (JBool false) rest).
Qed.

Lemma readsBack_num (z : Z) : ReadsBack (JNum z).
Proof.
  intros [|f] rest Hfuel Hrest; [simpl in Hfuel; lia|].
  cbn [stringify]. unfold JS.numberToString.
  destruct (Z.ltb_spec z 0) as [Hneg|Hpos].
  - cbn [append parseValue skipSpace]. change (isJsonSpace "-") with false. cbn iota.
    change (N_of_ascii "-" =? 110)%N with false.
    change (N_of_ascii "-" =? 116)%N with false.
    change (N_of_ascii "-" =? 102)%N with false.
    change (N_of_ascii "-" =? 34)%N with false.
    change (N_of_ascii "-" =? 45)%N with true. cbn iota.
    rewrite parseNatural_decimal by exact Hrest.
    f_equal. f_equal. f_equal. lia.
  - destruct (decimal_starts_with_digit (Z.to_N z)) as (c & r & Hhead & Hc).
    destruct (digit_facts c Hc) as (Hv & H1 & H2 & H3 & H4 & H5).
    destruct (valueHead_facts c Hv) as (Hspace & _ & _).
    pose proof (parseNatural_decimal (Z.to_N z) rest Hrest) as Hparse.
    rewrite Hhead in *. cbn [append parseValue skipSpace] in *.
    rewrite Hspace, H1, H2, H3, H4, H5, Hc, Hparse.
    f_equal. f_equal. f_equal. lia.
Qed.

Lemma readsBack_str (s : string) : ReadsBack (JStr s).
Proof.
  intros [|f] rest Hfuel Hrest; [simpl in Hfuel; lia|].
  cbn [stringify]. destruct (parse_quote s rest) as (t & -> & Ht).
  cbn [parseValue skipSpace]. unfold doubleQuote.
  change (isJsonSpace (ascii_of_N 34)) with false. cbn iota.
  change (N_of_ascii (ascii_of_N 34) =? 110)%N with false.
  change (N_of_ascii (ascii_of_N 34) =? 116)%N with false.
  change (N_of_ascii (ascii_of_N 34) =? 102)%N with false.
  change (N_of_ascii (ascii_of_N 34) =? 34)%N with true. cbn iota.
  now rewrite Ht.
Qed.

Lemma skipSpace_head (c : ascii) (t : string) :
  isJsonSpace c = false -> skipSpace (String c t) = String c t.
Proof. intro H. cbn [skipSpace]. now rewrite H. Qed.

Lemma delimited_cons (c : ascii) (t : string) :
  ((N_of_ascii c =? 44) || (N_of_ascii c =? 93) || (N_of_ascii c =? 125))%N = true ->
  delimited (String c t) = true.
Proof. intro H. exact H. Qed.

Lemma join_cons2 (x y : string) (r : list string) :
  joinWith "," (x :: y :: r) = x ++ "," ++ joinWith "," (y :: r).
Proof. reflexivity. Qed.

(** The elements of a non-empty array, up to the closing bracket. *)
Lemma parseElements_join (items : list json) :
  Forall ReadsBack items -> items <> [] ->
  forall fuel rest, (elementsFuel items <= fuel)%nat ->
    parseElements fuel (joinWith "," (map stringify items) ++ String "]" rest)
    = Some (items, rest).
Proof.
  induction 1 as [|x r Hx Hr IH]; intros Hne fuel rest Hfuel; [contradiction|].
  destruct fuel as [|f]; [simpl in Hfuel; lia|].
  cbn [elementsFuel] in Hfuel.
  destruct r as [|y r'].
  - cbn [map joinWith parseElements].
    rewrite (Hx f (String "]" rest)) by (try reflexivity; lia).
    rewrite skipSpace_head by reflexivity.
    reflexivity.
  - cbn [map]. rewrite join_cons2, !append_assoc.
    cbn [parseElements].
    rewrite (Hx f) by (try reflexivity; lia).
    change ("," ++ ?t) with (String "," t).
    cbn [append]. rewrite skipSpace_head by reflexivity.
    change (N_of_ascii "," =? 44)%N with true. cbn iota.
    change (stringify y :: map stringify r') with (map stringify (y :: r')).
    rewrite IH by (try discriminate; lia).
    reflexivity.
Qed.

Lemma join_values_head (items : list json) (tail : string) :
  items <> [] ->
  exists c t, joinWith "," (map stringify items) ++ tail = String c t
              /\ valueHead c = true.
Proof.
  destruct items as [|x r]; [contradiction|]. intros _.
  destruct (stringify_head x) as (c & t & Hx & Hc).
  destruct r as [|y r'].
  - cbn [map joinWith]. rewrite Hx. cbn [append]. eauto.
  - cbn [map]. rewrite join_cons2, Hx. cbn [append]. eauto.
Qed.

Lemma readsBack_arr (items : list json) : Forall ReadsBack items -> ReadsBack (JArr items).
Proof.
  intros Hitems [|f] rest Hfuel Hrest; [simpl in Hfuel; lia|].
  assert (Hf : (elementsFuel items <= f)%nat).
  { change (fuelOf (JArr items)) with (S (elementsFuel items)) in Hfuel. lia. }
  cbn [stringify]. rewrite !append_assoc. cbn [append parseValue].
  rewrite skipSpace_head by reflexivity.
  change (N_of_ascii "[" =? 110)%N with false.
  change (N_of_ascii "[" =? 116)%N with false.
  change (N_of_ascii "[" =? 102)%N with false.
  change (N_of_ascii "[" =? 34)%N with false.
  change (N_of_ascii "[" =? 45)%N with false.
  change (JS.isDigit "[") with false.
  change (N_of_ascii "[" =? 91)%N with true. cbn iota.
  destruct items as [|x r].
  - reflexivity.
  - pose proof (parseElements_join (x :: r) Hitems ltac:(discriminate) f rest Hf) as Hparse.
    destruct (join_values_head (x :: r) (String "]" rest) ltac:(discriminate))
      as (c & t & Hhead & Hc).
    destruct (valueHead_facts c Hc) as (Hspace & Hclose & _).
    rewrite Hhead in *. rewrite skipSpace_head by exact Hspace.
    rewrite Hclose, Hparse. reflexivity.
Qed.

(** One member, [key:value], followed by [rest]. *)
Lemma member_text (k : string) (v : json) (rest : string) :
  exists t, memberText (k, v) ++ rest = String doubleQuote t
            /\ parseStringBody t = Some (k, String ":" (stringify v ++ rest)).
Proof.
  unfold memberText. cbn [fst snd]. rewrite !append_assoc.
  destruct (parse_quote k (":" ++ stringify v ++ rest)) as (t & -> & Ht).
  exists t. split; [reflexivity | exact Ht].
Qed.

(** The members of a non-empty object, up to the closing brace. *)
Lemma parseMembers_join (members : list (string * json)) :
  Forall (fun kv => ReadsBack (snd kv)) members -> members <> [] ->
  forall fuel rest, (entriesFuel members <= fuel)%nat ->
    parseMembers fuel (joinWith "," (map memberText members) ++ String "}" rest)
    = Some (members, rest).
Proof.
  induction 1 as [|[k x] r Hx Hr IH]; intros Hne fuel rest Hfuel; [contradiction|].
  destruct fuel as [|f]; [simpl in Hfuel; lia|].
  cbn [elementsFuel entriesFuel snd] in Hx, Hfuel.
  destruct r as [|y r'].
  - cbn [map joinWith].
    destruct (member_text k x (String "}" rest)) as (t & -> & Ht).
    cbn [parseMembers].
    rewrite skipSpace_head by reflexivity.
    change (N_of_ascii doubleQuote =? 34)%N with true. cbn iota.
    rewrite Ht. rewrite skipSpace_head by reflexivity.
    change (N_of_ascii ":" =? 58)%N with true. cbn iota.
    rewrite (Hx f (String "}" rest)) by (try reflexivity; lia).
    rewrite skipSpace_head by reflexivity.
    reflexivity.
  - cbn [map]. rewrite join_cons2, !append_assoc.
    destruct (member_text k x ("," ++ joinWith "," (memberText y :: map memberText r')
                                   ++ String "}" rest)) as (t & -> & Ht).
    cbn [parseMembers].
    rewrite skipSpace_head by reflexivity.
    change (N_of_ascii doubleQuote =? 34)%N with true. cbn iota.
    rewrite Ht. rewrite skipSpace_head by reflexivity.
    change (N_of_ascii ":" =? 58)%N with true. cbn iota.
    rewrite (Hx f) by (try reflexivity; lia).
    cbn [append]. rewrite skipSpace_head by reflexivity.
    change (N_of_ascii "," =? 44)%N with true. cbn iota.
    change (memberText y :: map memberText r') with (map memberText (y :: r')).
    rewrite IH by (try discriminate; lia).
    reflexivity.
Qed.

Lemma readsBack_obj (members : list (string * json)) :
  Forall (fun kv => ReadsBack (snd kv)) members -> ReadsBack (JObj members).
Proof.
  intros Hmembers [|f] rest Hfuel Hrest; [simpl in Hfuel; lia|].
  assert (Hf : (entriesFuel members <= f)%nat).
  { change (fuelOf (JObj members)) with (S (entriesFuel members)) in Hfuel. lia. }
  cbn [stringify]. fold memberText. rewrite !append_assoc. cbn [append parseValue].
  rewrite skipSpace_head by reflexivity.
  change (N_of_ascii "{" =? 110)%N with false.
  change (N_of_ascii "{" =? 116)%N with false.
  change (N_of_ascii "{" =? 102)%N with false.
  change (N_of_ascii "{" =? 34)%N with false.
  change (N_of_ascii "{" =? 45)%N with false.
  change (JS.isDigit "{") with false.
  change (N_of_ascii "{" =? 91)%N with false.
  change (N_of_ascii "{" =? 123)%N with true. cbn iota.
  destruct members as [|[k x] r].
  - reflexivity.
  - pose proof (parseMembers_join ((k, x) :: r) Hmembers ltac:(discriminate) f rest Hf)
      as Hparse.
    assert (Hhead : exists t, joinWith "," (map memberText ((k, x) :: r)) ++ String "}" rest
                              = String doubleQuote t).
    { destruct r as [|y r'].
      - cbn [map joinWith]. destruct (member_text k x (String "}" rest)) as (t & -> & _).
        eauto.
      - cbn [map]. rewrite join_cons2, !append_assoc.
        destruct (member_text k x ("," ++ joinWith "," (memberText y :: map memberText r')
                                       ++ String "}" rest)) as (t & -> & _).
        eauto. }
    destruct Hhead as (t & Hhead). rewrite Hhead in *.
    rewrite skipSpace_head by reflexivity.
    change (N_of_ascii doubleQuote =? 125)%N with false. cbn iota.
    rewrite Hparse. reflexivity.
Qed.

(** Every value's text reads back as the value. *)
Lemma readsBack (v : json) : ReadsBack v.
Proof.
  induction v using json_induction;
    auto using readsBack_null, readsBack_bool, readsBack_num, readsBack_str,
               readsBack_arr, readsBack_obj.
Qed.

Lemma stringify_length (v : json) : (1 <= String.length (stringify v))%nat.
Proof.
  destruct (stringify_head v) as (c & t & -> & _). simpl. lia.
Qed.

Lemma elementsFuel_bound (items : list json) :
  Forall (fun v => (fuelOf v <= String.length (stringify v))%nat) items ->
  (elementsFuel items <= String.length (joinWith "," (map stringify items)) + 1)%nat.
Proof.
  induction 1 as [|x r Hx Hr IH]; [simpl; lia|].
  cbn [elementsFuel]. destruct r as [|y r'].
  - cbn [map joinWith elementsFuel]. lia.
  - cbn [map] in *. rewrite join_cons2, !length_append.
    change (String.length ",") with 1%nat. lia.
Qed.

Lemma entriesFuel_bound (members : list (string * json)) :
  Forall (fun kv => (fuelOf (snd kv) <= String.length (stringify (snd kv)))%nat) members ->
  (entriesFuel members <= String.length (joinWith "," (map memberText members)) + 1)%nat.
Proof.
  assert (Hmember : forall kv, (String.length (stringify (snd kv))
                                <= String.length (memberText kv))%nat).
  { intro kv. unfold memberText. rewrite !length_append. lia. }
  induction 1 as [|x r Hx Hr IH]; [simpl; lia|].
  cbn [entriesFuel]. specialize (Hmember x). destruct r as [|y r'].
  - cbn [map joinWith entriesFuel]. lia.
  - cbn [map] in *. rewrite join_cons2, !length_append.
    change (String.length ",") with 1%nat. lia.
Qed.

(** The text of a value is at least as long as the parser's recursion
    on it is deep. *)
Lemma fuelOf_bound (v : json) : (fuelOf v <= String.length (stringify v))%nat.
Proof.
  induction v as [| b | z | s | items IH | members IH] using json_induction;
    try apply stringify_length.
  - change (fuelOf (JArr items)) with (S (elementsFuel items)).
    pose proof (elementsFuel_bound items IH).
    cbn [stringify]. rewrite !length_append.
    change (String.length "[") with 1%nat. change (String.length "]") with 1%nat. lia.
  - change (fuelOf (JObj members)) with (S (entriesFuel members)).
    pose proof (entriesFuel_bound members IH).
    cbn [stringify]. fold memberText. rewrite !length_append.
    change (String.length "{") with 1%nat. change (String.length "}") with 1%nat. lia.
Qed.

(** [JSON.parse(JSON.stringify(v))] is [v], for every value of the model. *)
Lemma parse_stringify (v : json) : parse (stringify v) = Some v.
Proof.
  unfold parse.
  pose proof (readsBack v (2 * String.length (stringify v) + 2)%nat "") as Hback.
  rewrite append_empty_r in Hback.
  rewrite Hback; [reflexivity | | reflexivity].
  pose proof (fuelOf_bound v). lia.
Qed.

End JsonValues.

(** ** Tokens: signing and verification *)

Section TimingSafeEqual.

Open Scope N_scope.

Lemma fold_lor_zero (l : list N) (acc : N) :
  fold_left N.lor l acc = 0 <-> acc = 0 /\ Forall (fun x => x = 0) l.
Proof.
  revert acc. induction l as [|x r IH]; intro acc; simpl.
  - split; [intro H; split; [exact H|constructor] | intros [H _]; exact H].
  - rewrite IH, N.lor_eq_0_iff. split.
    + intros [[Ha Hx] Hr]. split; [exact Ha|]. now constructor.
    + intros [Ha Hxr]. inversion Hxr; subst. auto.
Qed.

Lemma xor_pairs_zero (a b : list N) :
  List.length a = List.length b ->
  Forall (fun x => x = 0) (map (fun '(x, y) => N.lxor x y) (combine a b)) <-> a = b.
Proof.
  revert b. induction a as [|x a IH]; intros [|y b] Hlen; simpl in *; try discriminate.
  - split; [reflexivity|constructor].
  - injection Hlen as Hlen. split.
    + intro H. inversion H as [|? ? Hxy Hrest]; subst.
      apply N.lxor_eq in Hxy. subst y. f_equal. now apply IH.
    + intro H. injection H as -> ->. constructor; [apply N.lxor_nilpotent|].
      now apply IH.
Qed.

(** On buffers of one length the comparison is equality; on buffers of
    different lengths it throws. *)
Lemma timingSafeEqual_spec (a b : list N) :
  (List.length a = List.length b ->
   exists r, Crypto.timingSafeEqual a b = Some r /\ (r = true <-> a = b))
  /\ (List.length a <> List.length b -> Crypto.timingSafeEqual a b = None).
Proof.
  unfold Crypto.timingSafeEqual. split; intro Hlen.
  - rewrite (proj2 (Nat.eqb_eq _ _) Hlen). eexists. split; [reflexivity|].
    rewrite N.eqb_eq, fold_lor_zero, xor_pairs_zero by exact Hlen. tauto.
  - now rewrite (proj2 (Nat.eqb_neq _ _) Hlen).
Qed.

Lemma bytesOfString_inj (s t : string) :
  Crypto.bytesOfString s = Crypto.bytesOfString t -> s = t.
Proof.
  intro H. rewrite <- (stringOfBytes_bytesOfString s), <- (stringOfBytes_bytesOfString t).
  now rewrite H.
Qed.

End TimingSafeEqual.

Section VerifyToken.

Variables (secret : string) (now : Z).

(** The verification, with the buffers and the exception folded away:
    the token must be two dot-separated parts whose second part is the
    signature of the first. *)
Lemma verifyMagicToken_spec (token : string) :
  Auth.verifyMagicToken token secret now =
  Some (if (token =? "")%string then Auth.Invalid "Missing token"
        else match JS.split "." token with
             | [payloadPart; signaturePart] =>
                 if (signaturePart =? Auth.hmacBase64Url secret payloadPart)%string
                 then match JSON.parse (Auth.base64UrlDecode payloadPart) with
                      | None => Auth.Invalid "Invalid token payload"
                      | Some payload => Auth.checkPayload payload now
                      end
                 else Auth.Invalid "Invalid token signature"
             | _ => Auth.Invalid "Invalid token format"
             end).
Proof.
  unfold Auth.verifyMagicToken, JS.truthy.
  destruct (token =? "")%string; [reflexivity|]. cbn [negb].
  destruct (JS.split "." token) as [|payloadPart [|signaturePart [|x parts]]];
    try reflexivity.
  set (expected := Auth.hmacBase64Url secret payloadPart).
  destruct (timingSafeEqual_spec (Crypto.bytesOfString signaturePart)
                                 (Crypto.bytesOfString expected)) as [Hsame Hdiff].
  destruct (Nat.eqb_spec (List.length (Crypto.bytesOfString signaturePart))
                         (List.length (Crypto.bytesOfString expected))) as [Hlen|Hlen];
    cbn [negb].
  - destruct (Hsame Hlen) as (r & -> & Hr).
    destruct (String.eqb_spec signaturePart expected) as [Heq|Hne].
    + rewrite (proj2 Hr) by now rewrite Heq.
      destruct (JSON.parse _); reflexivity.
    + destruct r; [|reflexivity].
      exfalso. apply Hne, bytesOfString_inj. now apply Hr.
  - destruct (String.eqb_spec signaturePart expected) as [Heq|Hne]; [|reflexivity].
    exfalso. apply Hlen. now rewrite Heq.
Qed.

Lemma signMagicToken_parts (payloadObj : JSON.json) :
  JS.split "." (Auth.signMagicToken payloadObj secret)
  = [Auth.base64UrlEncode (JSON.stringify payloadObj);
     Auth.hmacBase64Url secret (Auth.base64UrlEncode (JSON.stringify payloadObj))].
Proof.
  unfold Auth.signMagicToken.
  change ("." ++ ?x) with (String "." x).
  rewrite split_append by apply toBase64Url_lacks_dot.
  now rewrite split_lacks by apply toBase64Url_lacks_dot.
Qed.

Lemma signMagicToken_not_empty (payloadObj : JSON.json) :
  (Auth.signMagicToken payloadObj secret =? "")%string = false.
Proof.
  apply String.eqb_neq. intro H.
  pose proof (signMagicToken_parts payloadObj) as Hparts.
  rewrite H in Hparts. discriminate Hparts.
Qed.

(** Verifying a freshly signed payload comes down to the checks on the
    payload itself. *)
Lemma verify_sign (payloadObj : JSON.json) :
  Auth.verifyMagicToken (Auth.signMagicToken payloadObj secret) secret now =
  Some (Auth.checkPayload payloadObj now).
Proof.
  rewrite verifyMagicToken_spec, signMagicToken_not_empty, signMagicToken_parts.
  now rewrite String.eqb_refl, base64Url_roundtrip, parse_stringify.
Qed.

End VerifyToken.

Lemma split_one_inv (sep : ascii) (s x : string) : JS.split sep s = [x] -> s = x.
Proof.
  revert x. induction s as [|c r IH]; intro x; simpl.
  - intro H. now injection H.
  - destruct (Ascii.eqb c sep).
    + intro H. injection H as _ H. now destruct (split_nonempty sep r).
    + destruct (JS.split sep r) as [|p ps] eqn:E; [now destruct (split_nonempty sep r)|].
      intro H. injection H as <- ->. now rewrite (IH p eq_refl).
Qed.

(** C2: a signed payload with a truthy email and an exp after now
    verifies to itself; a token is refused when
    its signature part is not the signature of its payload part, when exp
    is in the past, when it is not exactly two dot-separated parts, and when
    the decoded payload does not parse or has no truthy email or exp; and
    the signature comparison cannot throw: parts of different lengths are
    refused before the byte-wise comparison, which runs over every byte. *)
Theorem token_round_trip_and_rejections (secret : string) (now : Z) :
  (forall (payload : JSON.json) (members : list (string * JSON.json)) (exp : Z),
      payload = JSON.JObj members ->
      JSON.truthy (JSON.getField payload "email") = true ->
      JSON.getField payload "exp" = Some (JSON.JNum exp) ->
      0 <= now -> now < exp ->
      Auth.verifyMagicToken (Auth.signMagicToken payload secret) secret now
      = Some (Auth.Valid payload))
  /\ (forall (payload : JSON.json) (signaturePart : string),
         signaturePart
           <> Auth.hmacBase64Url secret (Auth.base64UrlEncode (JSON.stringify payload)) ->
         exists reason,
           Auth.verifyMagicToken
             (Auth.base64UrlEncode (JSON.stringify payload) ++ "." ++ signaturePart)
             secret now
           = Some (Auth.Invalid reason))
  /\ (forall (payload : JSON.json) (exp : Z),
         JSON.getField payload "exp" = Some (JSON.JNum exp) ->
         exp < now ->
         exists reason,
           Auth.verifyMagicToken (Auth.signMagicToken payload secret) secret now
           = Some (Auth.Invalid reason))
  /\ (forall token : string,
         List.length (JS.split "." token) <> 2%nat ->
         exists reason, Auth.verifyMagicToken token secret now = Some (Auth.Invalid reason))
  /\ (forall token payloadPart signaturePart : string,
         JS.split "." token = [payloadPart; signaturePart] ->
         match JSON.parse (Auth.base64UrlDecode payloadPart) with
         | None => True
         | Some payload =>
             JSON.truthy (JSON.getField payload "email") = false
             \/ JSON.truthy (JSON.getField payload "exp") = false
         end ->
         exists reason, Auth.verifyMagicToken token secret now = Some (Auth.Invalid reason))
  /\ (forall token : string,
         exists result, Auth.verifyMagicToken token secret now = Some result)
  /\ (forall token payloadPart signaturePart : string,
         JS.split "." token = [payloadPart; signaturePart] ->
         String.length signaturePart
           <> String.length (Auth.hmacBase64Url secret payloadPart) ->
         Auth.verifyMagicToken token secret now
         = Some (Auth.Invalid "Invalid token signature")).
Proof.
  repeat apply conj.
  - (* round trip *)
    intros payload members exp -> Hemail Hexp Hnow Hfuture.
    rewrite verify_sign. unfold Auth.checkPayload.
    rewrite Hemail, Hexp. cbn [JSON.truthy JSON.isObjectType JSON.toNumber negb orb].
    destruct (Z.eqb_spec exp 0) as [->|_]; [lia|]. cbn [negb].
    destruct (Z.ltb_spec exp now); [lia|reflexivity].
  - (* tampered signature *)
    intros payload signaturePart Hsig.
    rewrite verifyMagicToken_spec.
    set (payloadPart := Auth.base64UrlEncode (JSON.stringify payload)) in *.
    destruct (_ =? "")%string; [eauto|].
    change ("." ++ signaturePart) with (String "." signaturePart).
    rewrite split_append by apply toBase64Url_lacks_dot.
    destruct (JS.split "." signaturePart) as [|x [|y l]] eqn:E; [eauto| |eauto].
    apply split_one_inv in E. subst x.
    destruct (String.eqb_spec signaturePart (Auth.hmacBase64Url secret payloadPart));
      [contradiction|eauto].
  - (* expired *)
    intros payload exp Hexp Hpast.
    rewrite verify_sign. unfold Auth.checkPayload.
    destruct (_ || _); [eauto|].
    rewrite Hexp. cbn [JSON.toNumber].
    destruct (Z.ltb_spec exp now); [eauto|lia].
  - (* not two parts *)
    intros token Hparts. rewrite verifyMagicToken_spec.
    destruct (_ =? "")%string; [eauto|].
    destruct (JS.split "." token) as [|a [|b [|c l]]]; eauto.
    now contradiction Hparts.
  - (* unparseable or incomplete payload *)
    intros token payloadPart signaturePart Hparts Hbad.
    rewrite verifyMagicToken_spec, Hparts.
    destruct (_ =? "")%string; [eauto|].
    destruct (_ =? _)%string; [|eauto].
    destruct (JSON.parse _) as [payload|]; [|eauto].
    unfold Auth.checkPayload.
    destruct Hbad as [H | H]; rewrite H; cbn [negb];
      rewrite ?orb_true_r, ?orb_true_l; eauto.
  - (* no exception *)
    intro token. rewrite verifyMagicToken_spec. eauto.
  - (* lengths differ *)
    intros token payloadPart signaturePart Hparts Hlen.
    rewrite verifyMagicToken_spec, Hparts.
    destruct (String.eqb_spec token "") as [->|_]; [discriminate Hparts|].
    destruct (String.eqb_spec signaturePart (Auth.hmacBase64Url secret payloadPart))
      as [Heq|_]; [|reflexivity].
    now rewrite Heq in Hlen.
Qed.

Lemma token_round_trip_and_rejections_witness :
  JSON.truthy (JSON.getField samplePayload "email") = true
  /\ JSON.getField samplePayload "exp" = Some (JSON.JNum 1700000600000)
  /\ Auth.verifyMagicToken (Auth.signMagicToken samplePayload "renpay-dev-secret")
                           "renpay-dev-secret" sampleNow
     = Some (Auth.Valid samplePayload).
Proof.
  split; [reflexivity|]. split; [reflexivity|].
  destruct (token_round_trip_and_rejections "renpay-dev-secret" sampleNow) as [Hround _].
  apply (Hround samplePayload _ 1700000600000 eq_refl); [reflexivity|reflexivity| |];
    unfold sampleNow; lia.
Defined.

Example sha256_abc :
  Crypto.toHex (Crypto.sha256 (Crypto.bytesOfString "abc"))
  = "ba7816bf8f01cfea414140de5dae2223b00361a396177a9cb410ff61f20015ad".
Proof. vm_compute. reflexivity. Qed.

Example hmacSha256_rfc4231_case2 :
  Crypto.toHex (Crypto.hmacSha256 (Crypto.bytesOfString "Jefe")
                                  (Crypto.bytesOfString "what do ya want for nothing?"))
  = "5bdcc146bf60754e6a042426089575c75a003f089d2739839dec58b964ec3843".
Proof. vm_compute. reflexivity. Qed.

Example signMagicToken_sample :
  Auth.signMagicToken samplePayload "renpay-dev-secret"
  = "eyJlbWFpbCI6ImFubkBleGFtcGxlLmNvbSIsImlhdCI6MTcwMDAwMDAwMDAwMCwiZXhwIjoxNzAwMDAwNjAwMDAwLCJub25jZSI6IjVmMmQ4YzBhOWIxZTRmN2E2YzNkMmUxZjBhOWI4YzdkIn0.ZEOgzwBy2hUO-hQxexC0Fs84I9IHB7jVVSMlFIhA44I".
Proof. vm_compute. reflexivity. Qed.

(* ================================================================== *)
(** * Part III: further properties of the handlers                    *)
(* ================================================================== *)

(** ** Calendar arithmetic of the handlers *)

(** X1: adding one month to a date, in a process whose time zone keeps one
    offset from UTC, moves the instant by the length of the local calendar
    month the date is in, 28 to 31 whole days. The result is that later
    instant when a [Date] can hold it and the Invalid Date when it cannot,
    as at the end of the range; in UTC it is the instant the handlers
    compute. *)
Theorem addMonths_one_month_length (offset t : Z) :
  - JSDate.maxTime <= t <= JSDate.maxTime ->
  let local := t + offset in
  let days := daysInMonth (JSDate.getFullYear local) (JSDate.getMonth local + 1) in
  28 <= days <= 31
  /\ Subscriptions.addMonthsIn (JSDate.fixedZone offset) t 1
     = JSDate.TimeClip (t + days * JSDate.msPerDay)
  /\ (t + days * JSDate.msPerDay <= JSDate.maxTime ->
      Subscriptions.addMonthsIn (JSDate.fixedZone offset) t 1
      = Some (t + days * JSDate.msPerDay))
  /\ (JSDate.maxTime < t + days * JSDate.msPerDay ->
      Subscriptions.addMonthsIn (JSDate.fixedZone offset) t 1 = None)
  /\ Subscriptions.addMonthsIn JSDate.utc t 1
     = JSDate.TimeClip (Subscriptions.addMonths t 1).
Proof.
  intros Ht local days.
  pose proof (daysInMonth_bounds (JSDate.getFullYear local) (JSDate.getMonth local + 1))
    as Hdays. fold days in Hdays.
  assert (Heq : Subscriptions.addMonthsIn (JSDate.fixedZone offset) t 1
                = JSDate.TimeClip (t + days * JSDate.msPerDay)).
  { rewrite addMonthsIn_fixedZone, addMonths_oneMonthAfter. unfold oneMonthAfter.
    fold local. fold days. f_equal. subst local. lia. }
  split; [exact Hdays|]. split; [exact Heq|]. split; [|split].
  - intro Hfit. rewrite Heq. apply TimeClip_some. unfold JSDate.msPerDay in *. lia.
  - intro Hover. rewrite Heq. now apply TimeClip_none.
  - apply addMonthsIn_utc.
Qed.


(** A plan interval in the UTC calendar is a whole number of days. *)
Lemma addPlanInterval_days (date : Z) (billingCycle : string) :
  exists days,
    Subscriptions.addPlanInterval date billingCycle = date + days * JSDate.msPerDay
    /\ if (JS.toLowerCase billingCycle =? "annual")%string
       then 365 <= days <= 366
       else 28 <= days <= 31.
Proof.
  unfold Subscriptions.addPlanInterval.
  pose proof (civil_roundtrip (JSDate.Day date)) as R.
  destruct (JS.toLowerCase billingCycle =? "annual")%string.
  - pose proof (addMonths_shift date 12) as H.
    destruct (JSDate.civilFromDays (JSDate.Day date)) as [[y m] d].
    destruct R as (_ & Hm & _).
    eexists. split; [exact H|]. now apply year_length.
  - pose proof (addMonths_shift date 1) as H.
    destruct (JSDate.civilFromDays (JSDate.Day date)) as [[y m] d].
    destruct R as (_ & Hm & _).
    eexists. split; [exact H|]. now apply month_length.
Qed.

Lemma addPlanIntervalIn_fixedZone (offset date : Z) (billingCycle : string) :
  Subscriptions.addPlanIntervalIn (JSDate.fixedZone offset) date billingCycle
  = JSDate.TimeClip (Subscriptions.addPlanInterval (date + offset) billingCycle - offset).
Proof.
  unfold Subscriptions.addPlanIntervalIn, Subscriptions.addPlanInterval.
  destruct (_ =? _)%string; apply addMonthsIn_fixedZone.
Qed.

(** X2: a plan interval from a date, in a process whose time zone keeps
    one offset from UTC, is a whole number of days, 365 or 366 for the
    annual cycle in any letter case and 28 to 31 for every other cycle: the
    result is the instant that many days later when a [Date] can hold it
    and the Invalid Date when it cannot; in UTC it is the instant the
    handlers compute. *)
Theorem addPlanInterval_length (offset date : Z) (billingCycle : string) :
  - JSDate.maxTime <= date <= JSDate.maxTime ->
  exists days,
    (if (JS.toLowerCase billingCycle =? "annual")%string
     then 365 <= days <= 366
     else 28 <= days <= 31)
    /\ Subscriptions.addPlanIntervalIn (JSDate.fixedZone offset) date billingCycle
       = JSDate.TimeClip (date + days * JSDate.msPerDay)
    /\ (date + days * JSDate.msPerDay <= JSDate.maxTime ->
        Subscriptions.addPlanIntervalIn (JSDate.fixedZone offset) date billingCycle
        = Some (date + days * JSDate.msPerDay))
    /\ (JSDate.maxTime < date + days * JSDate.msPerDay ->
        Subscriptions.addPlanIntervalIn (JSDate.fixedZone offset) date billingCycle = None)
    /\ Subscriptions.addPlanIntervalIn JSDate.utc date billingCycle
       = JSDate.TimeClip (Subscriptions.addPlanInterval date billingCycle).
Proof.
  intro Hdate.
  destruct (addPlanInterval_days (date + offset) billingCycle) as (days & Heq & Hdays).
  assert (Hin : Subscriptions.addPlanIntervalIn (JSDate.fixedZone offset) date billingCycle
                = JSDate.TimeClip (date + days * JSDate.msPerDay)).
  { rewrite addPlanIntervalIn_fixedZone, Heq. f_equal. lia. }
  exists days. split; [exact Hdays|]. split; [exact Hin|]. split; [|split].
  - intro Hfit. rewrite Hin. apply TimeClip_some.
    destruct (_ =? _)%string; unfold JSDate.msPerDay in *; lia.
  - intro Hover. rewrite Hin. now apply TimeClip_none.
  - unfold JSDate.utc. rewrite addPlanIntervalIn_fixedZone.
    now rewrite Z.add_0_r, Z.sub_0_r.
Qed.

Lemma year_range_cases (y : Z) :
  ((0 <=? y) && (y <=? 99) = true /\ 0 <= y <= 99)
  \/ ((0 <=? y) && (y <=? 99) = false /\ (y < 0 \/ 100 <= y)).
Proof.
  destruct (Z.leb_spec 0 y); destruct (Z.leb_spec y 99); simpl;
    [left | right | right | right]; split; auto; lia.
Qed.

Lemma Day_bounds (t : Z) :
  JSDate.Day t * JSDate.msPerDay <= t < JSDate.Day t * JSDate.msPerDay + JSDate.msPerDay.
Proof.
  pose proof (instant_parts t) as Ht.
  assert (Hr : 0 <= JSDate.TimeWithinDay t < JSDate.msPerDay)
    by (apply Z.mod_pos_bound; reflexivity).
  lia.
Qed.

(** X3: the start of the UTC day of a date is a midnight and a date
    itself. For a date outside the years 0 to 99 it is the midnight at or
    before the instant, less than a day back; for a date in the years 0 to
    99, whose year [Date.UTC] reads as 1900 to 1999, it is a midnight of
    the twentieth century, after the instant. *)
Theorem getUtcDayStart_midnight (t : Z) :
  - JSDate.maxTime <= t <= JSDate.maxTime ->
  let start := Subscriptions.getUtcDayStart t in
  start mod JSDate.msPerDay = 0
  /\ - JSDate.maxTime <= start <= JSDate.maxTime
  /\ if (0 <=? JSDate.getFullYear t) && (JSDate.getFullYear t <=? 99)
     then t < start /\ -2208988800000 <= start < 946684800000
     else start <= t < start + JSDate.msPerDay.
Proof.
  intros Ht start.
  destruct (getUtcDayStart_days t) as (day & Hday). fold start in Hday.
  split; [rewrite Hday; apply Z.mod_mul; discriminate|].
  pose proof (Day_bounds t) as Hb.
  destruct (year_range_cases (JSDate.getFullYear t)) as [[-> Hy] | [-> Hy]].
  - destruct (getUtcDayStart_two_digit_year t Hy) as (Hstart & Hearly). fold start in Hstart.
    unfold JSDate.maxTime. lia.
  - pose proof (getUtcDayStart_floor t Hy) as Hfloor. fold start in Hfloor.
    assert (Hlow : -100000000 <= JSDate.Day t).
    { unfold JSDate.Day, JSDate.msPerDay, JSDate.maxTime in *.
      Z.div_mod_to_equations. lia. }
    unfold JSDate.maxTime, JSDate.msPerDay in *. lia.
Qed.

Lemma getUtcWeekStart_days (t : Z) :
  exists day back, 0 <= back <= 6
                   /\ Subscriptions.getUtcDayStart t = day * JSDate.msPerDay
                   /\ Subscriptions.getUtcWeekStart t = (day - back) * JSDate.msPerDay
                   /\ (day - back + 4) mod 7 = 1.
Proof.
  destruct (getUtcDayStart_days t) as (day & Hday).
  unfold Subscriptions.getUtcWeekStart. rewrite Hday.
  unfold JSDate.getDay.
  destruct (Day_MakeDate day 0 ltac:(unfold JSDate.msPerDay; lia)) as [HD _].
  unfold JSDate.MakeDate in HD. rewrite Z.add_0_r in HD. rewrite HD.
  set (weekday := (day + 4) mod 7).
  assert (Hweekday : 0 <= weekday < 7) by (apply Z.mod_pos_bound; lia).
  exists day.
  destruct (Z.eqb_spec weekday 0) as [H0|Hn].
  - exists 6. repeat split; try lia; [unfold JSDate.msPerDay; lia|].
    subst weekday. Z.div_mod_to_equations. lia.
  - exists (weekday - 1). repeat split; try lia; [unfold JSDate.msPerDay; lia|].
    subst weekday. Z.div_mod_to_equations. lia.
Qed.

(** X4: the start of the UTC week of a date that lies at least six days
    after the earliest date is the midnight that begins a Monday, a date
    itself, at or before the start of the day and less than seven days
    before it. For a date outside the years 0 to 99 it is at or before the
    instant and less than seven days back; for a date in the years 0 to 99
    it is, like the start of the day, after the instant. *)
Theorem getUtcWeekStart_monday (t : Z) :
  - JSDate.maxTime + 6 * JSDate.msPerDay <= t <= JSDate.maxTime ->
  let week := Subscriptions.getUtcWeekStart t in
  let start := Subscriptions.getUtcDayStart t in
  JSDate.getDay week = 1
  /\ week mod JSDate.msPerDay = 0
  /\ - JSDate.maxTime <= week <= JSDate.maxTime
  /\ week <= start < week + 7 * JSDate.msPerDay
  /\ if (0 <=? JSDate.getFullYear t) && (JSDate.getFullYear t <=? 99)
     then t < week
     else week <= t < week + 7 * JSDate.msPerDay.
Proof.
  intros Ht week start.
  destruct (getUtcWeekStart_days t) as (day & back & Hback & Hstart & Hweek & Hmon).
  fold week in Hweek. fold start in Hstart.
  pose proof (Day_bounds t) as Hb.
  split.
  { unfold JSDate.getDay. rewrite Hweek.
    destruct (Day_MakeDate (day - back) 0 ltac:(unfold JSDate.msPerDay; lia)) as [HD _].
    unfold JSDate.MakeDate in HD. rewrite Z.add_0_r in HD. now rewrite HD. }
  split; [rewrite Hweek; apply Z.mod_mul; discriminate|].
  destruct (year_range_cases (JSDate.getFullYear t)) as [[-> Hy] | [-> Hy]].
  - destruct (getUtcDayStart_two_digit_year t Hy) as (Hcentury & Hearly).
    fold start in Hcentury.
    unfold JSDate.maxTime, JSDate.msPerDay in *. lia.
  - pose proof (getUtcDayStart_floor t Hy) as Hfloor. fold start in Hfloor.
    unfold JSDate.maxTime, JSDate.msPerDay in *. lia.
Qed.

Lemma countOrders_antitone (db : Db) (userId : nat) (a b : Z) :
  a <= b -> 0 <= Subscriptions.countOrders db userId b <= Subscriptions.countOrders db userId a.
Proof.
  intro Hab. unfold Subscriptions.countOrders. split; [lia|].
  apply inj_le. induction (db_orders db) as [|o r IH]; simpl; [lia|].
  destruct (order_userId o =? userId)%nat; simpl; [|exact IH].
  destruct (Z.leb_spec b (order_createdAt o)); destruct (Z.leb_spec a (order_createdAt o));
    simpl; lia.
Qed.

(** X5: the orders counted for today are among those counted for this
    week: neither counter is negative, today's is at most this week's, and
    this week's is at most the number of orders. *)
Theorem countOrderUsage_today_within_week (db : Db) (now : Z) (userId : nat) :
  let usage := Subscriptions.countOrderUsage db now userId in
  0 <= Subscriptions.ordersToday usage <= Subscriptions.ordersThisWeek usage
  /\ Subscriptions.ordersThisWeek usage <= Z.of_nat (List.length (db_orders db)).
Proof.
  cbv zeta. unfold Subscriptions.countOrderUsage. cbn [Subscriptions.ordersToday Subscriptions.ordersThisWeek].
  split.
  - apply countOrders_antitone.
    destruct (getUtcWeekStart_days now) as (day & back & Hback & -> & -> & _).
    unfold JSDate.msPerDay. lia.
  -
  unfold Subscriptions.countOrders. apply inj_le, filter_length_le.
Qed.

(** ** Plan names and the resolved tier *)

Section PlanNames.

Import Subscriptions.

Lemma split_head_empty (sep : ascii) (s : string) (ps : list string) :
  JS.split sep s = "" :: ps -> s = "" \/ exists r, s = String sep r.
Proof.
  destruct s as [|c r]; simpl; [now left|].
  destruct (Ascii.eqb_spec c sep) as [->|_]; [right; eauto|].
  destruct (JS.split sep r); discriminate.
Qed.

Lemma trim_underscore (r : string) : exists x, JS.trim (String "_" r) = String "_" x.
Proof.
  unfold JS.trim. cbn [JS.trimStart]. change (JS.isWhiteSpace "_") with false. cbn iota.
  cbn [JS.trimEnd]. destruct (JS.trimEnd r); change (JS.isWhiteSpace "_") with false; eauto.
Qed.

Lemma normalizeTier_underscore (r : string) : normalizeTier (String "_" r) = personal.
Proof.
  unfold normalizeTier, orElse. change (JS.truthy (String "_" r)) with true. cbn iota.
  destruct (trim_underscore r) as (x & ->). reflexivity.
Qed.

Lemma includes_underscore_names (plan : string) :
  JS.includes plan "_" = true ->
  (plan =? "monthly")%string = false /\ (plan =? "annual")%string = false /\ plan <> "".
Proof.
  intro H. repeat split.
  - destruct (String.eqb_spec plan "monthly") as [->|_]; [discriminate H|reflexivity].
  - destruct (String.eqb_spec plan "annual") as [->|_]; [discriminate H|reflexivity].
  - intros ->. discriminate H.
Qed.

(** X6: a plan value with an underscore is read the same way by the parser
    of the request and by the parser of the stored plan name, whatever
    tier and cycle the request names besides. *)
Theorem parsePlanInput_agrees_with_parsePlanForEmail
        (planRaw tierRaw billingCycleRaw : string) :
  JS.includes (JS.toLowerCase (JS.trim planRaw)) "_" = true ->
  parsePlanInput planRaw tierRaw billingCycleRaw = parsePlanForEmail planRaw.
Proof.
  intro H. unfold parsePlanInput, parsePlanForEmail.
  set (plan := JS.toLowerCase (JS.trim planRaw)) in *.
  destruct (includes_underscore_names plan H) as (-> & -> & Hne).
  cbn [orb]. rewrite H.
  destruct (JS.split "_" plan) as [|p ps] eqn:E.
  - now destruct (split_nonempty "_"%char plan).
  - cbn [nth]. f_equal.
    + destruct p as [|c p']; [|reflexivity].
      apply split_head_empty in E. destruct E as [->|(r & ->)]; [contradiction|].
      unfold orElse at 1. cbn [JS.truthy String.eqb negb].
      now rewrite normalizeTier_underscore.
    + destruct ps as [|[|c q] qs]; reflexivity.
Qed.

Lemma parsePlanInput_agrees_with_parsePlanForEmail_witness :
  parsePlanInput " Business_Annual " "free" "monthly" = parsePlanForEmail " Business_Annual ".
Proof.
  apply (parsePlanInput_agrees_with_parsePlanForEmail " Business_Annual " "free" "monthly").
  reflexivity.
Defined.

(** X7: the plan name that the handlers store parses back to the tier and
    the cycle it was composed from. *)
Theorem stored_plan_name_parses_back
        (t : Tier) (c : BillingCycle) (tierRaw billingCycleRaw : string) :
  let planName := tierName t ++ "_" ++ cycleName c in
  parsePlanInput planName tierRaw billingCycleRaw = {| tier := t; billingCycle := c |}
  /\ parsePlanForEmail planName = {| tier := t; billingCycle := c |}
  /\ getTierFromPlan planName = t.
Proof.
  destruct t, c; repeat split; reflexivity.
Qed.

End PlanNames.

Section BestTier.


Lemma getTierFromPlan_empty_plan (plan : string) :
  JS.truthy plan = false -> getTierFromPlan plan = free.
Proof. intro H. apply truthy_spec in H. now subst plan. Qed.

Lemma resolve_step (seen : list Subscription) (st : Tier * option string)
      (row : Subscription) :
  Resolved seen st ->
  Resolved (seen ++ [row])
           (let nextTier := getTierFromPlan (sub_plan row) in
            if getTierRank nextTier >? getTierRank (fst st)
            then (nextTier, if JS.truthy (sub_plan row) then Some (sub_plan row) else None)
            else st).
Proof.
  intros (Hfold & Hmax & Hsrc). unfold Resolved. cbv zeta.
  rewrite map_app, fold_left_app. cbn [map fold_left]. rewrite <- Hfold.
  unfold pickBestTier, tierOfRow at 1 2.
  destruct (Z.gtb_spec (getTierRank (getTierFromPlan (sub_plan row))) (getTierRank (fst st)))
    as [Hgt|Hle]; cbn [fst snd].
  - split; [reflexivity|]. split.
    + intros s Hs. apply in_app_or in Hs. destruct Hs as [Hs|[<-|[]]].
      * specialize (Hmax s Hs). lia.
      * unfold tierOfRow. lia.
    + destruct (JS.truthy (sub_plan row)) eqn:T.
      * exists row. split; [apply in_or_app; right; now left | auto].
      * rewrite (getTierFromPlan_empty_plan _ T) in *. destruct (fst st); simpl in Hgt; lia.
  - split; [reflexivity|]. split.
    + intros s Hs. apply in_app_or in Hs. destruct Hs as [Hs|[<-|[]]].
      * now apply Hmax.
      * unfold tierOfRow. lia.
    + destruct (snd st) as [plan|]; [|exact Hsrc].
      destruct Hsrc as (s & Hs & Hp & Ht). exists s.
      split; [apply in_or_app; now left | auto].
Qed.

Lemma resolve_all (l seen : list Subscription) (st : Tier * option string) :
  Resolved seen st ->
  Resolved (seen ++ l)
    (fold_left
       (fun (st : Tier * option string) subscription =>
          let nextTier := getTierFromPlan (sub_plan subscription) in
          if getTierRank nextTier >? getTierRank (fst st)
          then (nextTier,
                if JS.truthy (sub_plan subscription)
                then Some (sub_plan subscription) else None)
          else st)
       l st).
Proof.
  revert seen st. induction l as [|row l IH]; intros seen st H.
  - now rewrite app_nil_r.
  - cbn [fold_left]. replace (seen ++ row :: l)%list with ((seen ++ [row]) ++ l)%list
      by (rewrite <- app_assoc; reflexivity).
    apply IH. now apply resolve_step.
Qed.

(** X8: the tier resolved from a list of subscriptions is the best tier
    among them by rank, the fold of [pickBestTier] from the free tier; the
    plan it names as the source is the plan of a row of that tier, and it
    names none only when the resolved tier is the free one. *)
Theorem resolved_tier_is_best_tier (subscriptions : list Subscription) :
  let resolved := Subscriptions.resolveTierFromSubscriptions subscriptions in
  fst resolved = fold_left pickBestTier (map tierOfRow subscriptions) free
  /\ (forall s, In s subscriptions -> getTierRank (tierOfRow s) <= getTierRank (fst resolved))
  /\ match snd resolved with
     | Some plan =>
         exists s, In s subscriptions /\ sub_plan s = plan /\ getTierFromPlan plan = fst resolved
     | None => fst resolved = free
     end.
Proof.
  apply (resolve_all subscriptions [] (free, None)).
  repeat split. intros s [].
Qed.

End BestTier.

Section ResolvedTier.

Lemma getTierRank_least (t : Tier) : (getTierRank t >? getTierRank free) = false -> t = free.
Proof. destruct t; simpl; intro H; try reflexivity; discriminate H. Qed.

Lemma resolve_fold (l : list Subscription) (acc : Subscription) (sourcePlan : option string) :
  fst (fold_left
         (fun (st : Tier * option string) subscription =>
            let nextTier := getTierFromPlan (sub_plan subscription) in
            if getTierRank nextTier >? getTierRank (fst st)
            then (nextTier,
                  if JS.truthy (sub_plan subscription)
                  then Some (sub_plan subscription) else None)
            else st)
         l (getTierFromPlan (sub_plan acc), sourcePlan))
  = getTierFromPlan (sub_plan (fold_left better l acc)).
Proof.
  revert acc sourcePlan. induction l as [|row l IH]; intros acc sourcePlan; [reflexivity|].
  cbn [fold_left fst]. cbv zeta. unfold better at 2, rankOf.
  rewrite Z.gtb_ltb.
  destruct (_ <? _); [apply IH|].
  destruct (Z.eqb_spec (getTierRank (getTierFromPlan (sub_plan row)))
                       (getTierRank (getTierFromPlan (sub_plan acc)))) as [Heq|_];
    cbn [andb]; [|apply IH].
  destruct (_ <? _); [|apply IH].
  apply getTierRank_inj in Heq. rewrite <- Heq. apply IH.
Qed.

(** The resolved tier is the tier of the winning row. *)
Lemma resolveTier_winner (l : list Subscription) :
  fst (Subscriptions.resolveTierFromSubscriptions l)
  = match winner l with
    | Some s => getTierFromPlan (sub_plan s)
    | None => free
    end.
Proof.
  destruct l as [|first rest]; [reflexivity|].
  unfold Subscriptions.resolveTierFromSubscriptions, winner.
  cbn [fold_left fst]. cbv zeta.
  destruct (_ >? _) eqn:E; [apply resolve_fold|].
  apply getTierRank_least in E.
  rewrite <- (resolve_fold rest first None). now rewrite E.
Qed.

Lemma auth_selectLoop_tier (l : list Subscription) :
  fst (Auth.selectLoop l)
  = match winner l with
    | Some s => getTierFromPlan (sub_plan s)
    | None => free
    end.
Proof.
  destruct l as [|first rest]; [reflexivity|].
  unfold Auth.selectLoop. simpl. now rewrite auth_fold_selectStep.
Qed.

Lemma better_In (rest : list Subscription) (first : Subscription) :
  In (fold_left better rest first) (first :: rest).
Proof.
  revert first. induction rest as [|row rest IH]; intro first; [now left|].
  cbn [fold_left]. specialize (IH (better first row)).
  destruct IH as [H|H]; [|right; now right].
  rewrite <- H. unfold better.
  destruct (_ <? _); [right; now left|].
  destruct (_ && _); [right; now left | now left].
Qed.

Lemma buildPlanState_reads (env : Subscriptions.Env) (db : Db) (now : Z) (userId : nat) :
  let '(planState, db') := Subscriptions.buildPlanStateForUser env db now userId in
  let current := Subscriptions.getCurrentActiveSubscriptions db' now userId in
  Subscriptions.ps_subscription planState = winner current
  /\ Subscriptions.ps_tier planState
     = fst (Subscriptions.resolveTierFromSubscriptions current)
  /\ Subscriptions.ps_planFeatures planState = PLAN_FEATURES (Subscriptions.ps_tier planState).
Proof.
  unfold Subscriptions.buildPlanStateForUser.
  destruct (filter _ (Subscriptions.getCurrentActiveSubscriptions db now userId));
    cbn [Subscriptions.ps_subscription Subscriptions.ps_tier Subscriptions.ps_planFeatures];
    rewrite selectSubscription_winner; auto.
Qed.

(** X9: the tier that the plan state reports is the tier of the
    subscription it reports, and the free tier when it reports none. *)
Theorem plan_state_tier_is_tier_of_subscription
        (env : Subscriptions.Env) (db : Db) (now : Z) (userId : nat) :
  let planState := fst (Subscriptions.buildPlanStateForUser env db now userId) in
  Subscriptions.ps_tier planState
  = match Subscriptions.ps_subscription planState with
    | Some s => getTierFromPlan (sub_plan s)
    | None => free
    end
  /\ Subscriptions.ps_planFeatures planState = PLAN_FEATURES (Subscriptions.ps_tier planState).
Proof.
  cbv zeta. pose proof (buildPlanState_reads env db now userId) as H.
  destruct (Subscriptions.buildPlanStateForUser env db now userId) as [planState db'].
  cbv zeta in H. destruct H as (Hs & Ht & Hf). cbn [fst].
  split; [now rewrite Ht, Hs, resolveTier_winner | exact Hf].
Qed.

Lemma current_In (db : Db) (now : Z) (userId : nat) (s : Subscription) :
  In s (Subscriptions.getCurrentActiveSubscriptions db now userId) <->
  In s (db_subscriptions db)
  /\ sub_userId s = userId /\ sub_status s = "active" /\ sub_startedAt s <= now
  /\ (now < sub_expiresAt s \/ sub_gateway s = PAYPAL).
Proof.
  unfold Subscriptions.getCurrentActiveSubscriptions.
  rewrite orderBy_In, filter_In, !andb_true_iff, orb_true_iff.
  unfold Subscriptions.isActive.
  rewrite Nat.eqb_eq, String.eqb_eq, Z.leb_le, Z.ltb_lt.
  assert (Hg : PaymentGateway_eqb (sub_gateway s) PAYPAL = true <-> sub_gateway s = PAYPAL)
    by (destruct (sub_gateway s); simpl; split; congruence).
  rewrite Hg. tauto.
Qed.

(** X10: the subscription that the plan state reports is a row of the
    user that is active, has started, and has not expired or is billed
    through PayPal; it reports none only when the user has no such row. *)
Theorem plan_state_subscription_is_current
        (env : Subscriptions.Env) (db : Db) (now : Z) (userId : nat) :
  let '(planState, db') := Subscriptions.buildPlanStateForUser env db now userId in
  match Subscriptions.ps_subscription planState with
  | Some s =>
      In s (db_subscriptions db')
      /\ sub_userId s = userId /\ sub_status s = "active" /\ sub_startedAt s <= now
      /\ (now < sub_expiresAt s \/ sub_gateway s = PAYPAL)
  | None => Subscriptions.getCurrentActiveSubscriptions db' now userId = []
  end.
Proof.
  pose proof (buildPlanState_reads env db now userId) as H.
  destruct (Subscriptions.buildPlanStateForUser env db now userId) as [planState db'].
  cbv zeta in H. destruct H as (-> & _ & _).
  destruct (Subscriptions.getCurrentActiveSubscriptions db' now userId) as [|first rest] eqn:E;
    [reflexivity|].
  cbn [winner]. apply current_In. rewrite E. apply better_In.
Qed.

(** X11: signing in reports the subscription and the tier that the plan
    endpoint resolves from the same rows. *)
Theorem sign_in_reports_resolved_plan (db : Db) (now : Z) (userId : nat) :
  let active := Auth.getActiveSubscriptionOrNull db now userId in
  let current := Subscriptions.getCurrentActiveSubscriptions db now userId in
  Auth.as_subscription active = Subscriptions.selectSubscription current
  /\ Auth.as_tier active = fst (Subscriptions.resolveTierFromSubscriptions current)
  /\ Auth.as_planFeatures active = PLAN_FEATURES (Auth.as_tier active).
Proof.
  cbv zeta. unfold Auth.getActiveSubscriptionOrNull.
  pose proof (auth_selectLoop_winner
                (Subscriptions.getCurrentActiveSubscriptions db now userId)) as Hs.
  pose proof (auth_selectLoop_tier
                (Subscriptions.getCurrentActiveSubscriptions db now userId)) as Ht.
  destruct (Auth.selectLoop _) as [t selected]. cbn [fst snd] in *.
  cbn [Auth.as_subscription Auth.as_tier Auth.as_planFeatures].
  now rewrite selectSubscription_winner, resolveTier_winner, Hs, Ht.
Qed.

End ResolvedTier.

Section Synchronisation.

Lemma onlySynchronised_refl (db : Db) : onlySynchronised db db.
Proof. unfold onlySynchronised. tauto. Qed.

Lemma onlySynchronised_trans (a b c : Db) :
  onlySynchronised a b -> onlySynchronised b c -> onlySynchronised a c.
Proof. unfold onlySynchronised. intuition congruence. Qed.

Lemma syncPayPalSubscription_kept (env : Subscriptions.Env) (db db' : Db) (s : Subscription) :
  Subscriptions.syncPayPalSubscription env db s = Some db' -> onlySynchronised db db'.
Proof.
  unfold Subscriptions.syncPayPalSubscription.
  destruct (sub_gatewaySubscriptionId s) as [gid|];
    [|intro H; injection H as <-; apply onlySynchronised_refl].
  destruct (negb (JS.truthy gid)); [intro H; injection H as <-; apply onlySynchronised_refl|].
  destruct (Subscriptions.fetchPayPalSubscription env gid) as [details|]; [|discriminate].
  intro H. injection H as <-. unfold onlySynchronised. cbn.
  repeat split. unfold Prisma.updateMany. rewrite map_map.
  apply map_ext. intro r. now destruct (_ =? _)%nat.
Qed.

Lemma syncAll_kept (env : Subscriptions.Env) (subs : list Subscription) (db : Db) :
  onlySynchronised db (Subscriptions.syncAll env db subs).
Proof.
  unfold Subscriptions.syncAll. revert db.
  induction subs as [|s r IH]; intro db; [apply onlySynchronised_refl|].
  cbn [fold_left].
  destruct (Subscriptions.syncPayPalSubscription env db s) as [d|] eqn:E; [|apply IH].
  eapply onlySynchronised_trans; [eapply syncPayPalSubscription_kept, E | apply IH].
Qed.

(** X12: a GET of the plan creates and deletes nothing: what it leaves
    differs from what it found at most in the status and the billing dates
    of subscription rows. *)
Theorem handleGet_only_synchronises
        (env : Subscriptions.Env) (db : Db) (now : Z) (queryEmail : string) :
  onlySynchronised db (snd (Subscriptions.handleGet env db now queryEmail)).
Proof.
  unfold Subscriptions.handleGet.
  destruct (negb _); [apply onlySynchronised_refl|].
  destruct (Subscriptions.findUserByEmail db _) as [user|]; [|apply onlySynchronised_refl].
  unfold Subscriptions.buildPlanStateForUser.
  destruct (filter _ _); cbn [snd]; [apply onlySynchronised_refl | apply syncAll_kept].
Qed.

End Synchronisation.

(** ** Users *)

Section Users.

Import Subscriptions.

Lemma findUserByEmail_email (db : Db) (email : string) (user : User) :
  findUserByEmail db email = Some user -> In user (db_users db) /\ user_email user = email.
Proof.
  unfold findUserByEmail, Prisma.findFirst. intro H. apply find_some in H.
  destruct H as [Hin H]. split; [exact Hin | now apply String.eqb_eq].
Qed.

Lemma findUserByEmail_users (db db' : Db) (email : string) :
  db_users db' = db_users db -> findUserByEmail db' email = findUserByEmail db email.
Proof. unfold findUserByEmail. now intros ->. Qed.

(** A user that the lookup finds is returned as it is, and nothing is
    written. *)
Lemma getOrCreateUserByEmail_existing (db : Db) (now : Z) (email : string) (user : User) :
  normalizeEmail email <> "" ->
  findUserByEmail db (normalizeEmail email) = Some user ->
  getOrCreateUserByEmail db now email = Some (user, db).
Proof.
  intros Hne Hfind. unfold getOrCreateUserByEmail.
  destruct (JS.truthy (normalizeEmail email)) eqn:T; [|apply truthy_spec in T; contradiction].
  cbn [negb]. now rewrite Hfind.
Qed.


Lemma getOrCreateUserByEmail_cases (db : Db) (now : Z) (email : string) :
  match getOrCreateUserByEmail db now email with
  | None => normalizeEmail email = ""
  | Some (user, db') => UserGotOrCreated db email user db'
  end.
Proof.
  unfold UserGotOrCreated.
  unfold getOrCreateUserByEmail.
  destruct (JS.truthy (normalizeEmail email)) eqn:T; cbn [negb];
    [|now apply truthy_spec].
  assert (Hne : normalizeEmail email <> "") by (intro H; rewrite H in T; discriminate T).
  destruct (findUserByEmail db (normalizeEmail email)) as [user|] eqn:F.
  - destruct (findUserByEmail_email _ _ _ F) as [Hin He].
    repeat split; auto; [congruence|].
    intros now' email' Hsame. apply getOrCreateUserByEmail_existing; now rewrite Hsame.
  - set (user := {| user_id := db_nextId db; user_email := normalizeEmail email;
                    user_name := nth 0 (JS.split "@" (normalizeEmail email)) "";
                    user_emailVerifiedAt := None; user_createdAt := now |}).
    assert (Hfound : findUserByEmail (withUsers db (db_users db ++ [user]) (S (db_nextId db)))
                                     (normalizeEmail email) = Some user).
    { unfold findUserByEmail, Prisma.findFirst in *. cbn [withUsers db_users].
      apply find_app_first; [apply (find_none _ _ F) | apply String.eqb_refl]. }
    repeat split; auto.
    + intros now' email' Hsame. apply getOrCreateUserByEmail_existing; now rewrite Hsame.
    + intro Hnd. cbn [withUsers db_users]. apply NoDup_map_snoc; [exact Hnd|].
      intros y Hy Heq. unfold findUserByEmail, Prisma.findFirst in F.
      pose proof (find_none _ _ F y Hy) as Hy'. cbn beta in Hy'.
      apply String.eqb_neq in Hy'. now apply Hy'.
Qed.

(** X13: [getOrCreateUserByEmail] fails only on a blank email; the user it
    returns carries the normalised email and is found again by every later
    call with an email of the same normal form, which then writes
    nothing; and it adds a row only when no user had the email, so emails
    that were unique stay unique. *)
Theorem getOrCreateUserByEmail_finds_again (db : Db) (now : Z) (email : string) :
  match getOrCreateUserByEmail db now email with
  | None => normalizeEmail email = ""
  | Some (user, db') =>
      user_email user = normalizeEmail email
      /\ user_email user <> ""
      /\ findUserByEmail db' (normalizeEmail email) = Some user
      /\ (forall now' email',
             normalizeEmail email' = normalizeEmail email ->
             getOrCreateUserByEmail db' now' email' = Some (user, db'))
      /\ (db' = db
          \/ (findUserByEmail db (normalizeEmail email) = None
              /\ db' = withUsers db (db_users db ++ [user]) (S (db_nextId db))
              /\ user_id user = db_nextId db))
      /\ (NoDup (map user_email (db_users db)) -> NoDup (map user_email (db_users db')))
  end.
Proof. exact (getOrCreateUserByEmail_cases db now email). Qed.

End Users.

Section OrderedRows.

Context {A K : Type} (k : A -> K).

Lemma insertSorted_NoDup (before : A -> A -> bool) (x : A) (l : list A) :
  NoDup (map k (x :: l)) -> NoDup (map k (Prisma.insertSorted before x l)).
Proof.
  induction l as [|y r IH]; intro H; [exact H|].
  cbn [Prisma.insertSorted]. destruct (before x y); [exact H|].
  cbn [map] in *. inversion H as [|? ? Hx Hrest]; subst.
  inversion Hrest as [|? ? Hy Hr]; subst.
  constructor.
  - intro Hin. apply in_map_iff in Hin. destruct Hin as (z & Hz & Hin).
    apply insertSorted_perm in Hin. destruct Hin as [->|Hin].
    + apply Hx. left. now symmetry.
    + apply Hy. rewrite <- Hz. now apply in_map.
  - apply IH. constructor; [|exact Hr]. intro Hin. apply Hx. now right.
Qed.

Lemma orderBy_NoDup (before : A -> A -> bool) (l : list A) :
  NoDup (map k l) -> NoDup (map k (Prisma.orderBy before l)).
Proof.
  induction l as [|x r IH]; intro H; [exact H|].
  cbn [Prisma.orderBy fold_right]. apply insertSorted_NoDup.
  cbn [map] in *. inversion H as [|? ? Hx Hr]; subst.
  constructor; [|now apply IH].
  intro Hin. apply Hx. apply in_map_iff in Hin. destruct Hin as (z & Hz & Hin).
  apply orderBy_In in Hin. rewrite <- Hz. now apply in_map.
Qed.

Lemma filter_NoDup_map (p : A -> bool) (l : list A) :
  NoDup (map k l) -> NoDup (map k (filter p l)).
Proof.
  induction l as [|x r IH]; intro H; [exact H|].
  cbn [map filter] in *. inversion H as [|? ? Hx Hr]; subst.
  destruct (p x); [|now apply IH].
  cbn [map]. constructor; [|now apply IH].
  intro Hin. apply Hx. apply in_map_iff in Hin. destruct Hin as (z & Hz & Hin).
  apply filter_In in Hin. rewrite <- Hz. now apply in_map.
Qed.

End OrderedRows.

Section Cancel.

Import Subscriptions.

Variables (db : Db) (now : Z) (email : string) (user : User).

Hypothesis Hids : NoDup (map sub_id (db_subscriptions db)).
Hypothesis Hemail : normalizeEmail email <> "".
Hypothesis Huser : findUserByEmail db (normalizeEmail email) = Some user.

Lemma current_rows (d : Db) (t : Z) (userId : nat) (s : Subscription) :
  In s (getCurrentActiveSubscriptions d t userId) <->
  In s (db_subscriptions d)
  /\ (sub_userId s =? userId)%nat && isActive s && (sub_startedAt s <=? t)
     && ((t <? sub_expiresAt s) || PaymentGateway_eqb (sub_gateway s) PAYPAL) = true.
Proof.
  unfold getCurrentActiveSubscriptions. now rewrite orderBy_In, filter_In.
Qed.

Lemma current_NoDup : NoDup (map sub_id (getCurrentActiveSubscriptions db now (user_id user))).
Proof.
  unfold getCurrentActiveSubscriptions. now apply orderBy_NoDup, filter_NoDup_map.
Qed.

Lemma cancelRow_not_current (t : Z) (userId : nat) (s : Subscription) :
  (sub_userId (cancelRow now s) =? userId)%nat && isActive (cancelRow now s)
  && (sub_startedAt (cancelRow now s) <=? t)
  && ((t <? sub_expiresAt (cancelRow now s))
      || PaymentGateway_eqb (sub_gateway (cancelRow now s)) PAYPAL) = false.
Proof.
  unfold isActive. cbn [cancelRow sub_status sub_userId]. cbn [String.eqb Ascii.eqb Bool.eqb].
  now rewrite andb_false_r.
Qed.

(** X14: cancelling takes exactly the first of the user's current
    subscriptions out of the current ones: that row becomes canceled
    with its expiry set to now, no row is added or removed, and the other
    current subscriptions of the user stay current. *)
Theorem cancel_removes_first_current_subscription :
  let '(response, db') := handleCancelSubscription db now email in
  cres_status response = 200
  /\ db_users db' = db_users db
  /\ map sub_id (db_subscriptions db') = map sub_id (db_subscriptions db)
  /\ match getCurrentActiveSubscriptions db now (user_id user) with
     | [] => cres_body response = CNothing "No active subscription." /\ db' = db
     | current :: others =>
         cres_body response = CCanceled (cancelRow now current)
         /\ In (cancelRow now current) (db_subscriptions db')
         /\ forall s, In s (getCurrentActiveSubscriptions db' now (user_id user))
                      <-> In s others
     end.
Proof.
  unfold handleCancelSubscription.
  destruct (JS.truthy (normalizeEmail email)) eqn:T; [|apply truthy_spec in T; contradiction].
  cbn [negb]. rewrite Huser, findFirst_any.
  pose proof current_NoDup as Hnd.
  pose proof (current_rows db now (user_id user)) as Hcur.
  destruct (getCurrentActiveSubscriptions db now (user_id user)) as [|current others] eqn:E;
    cbn [hd_error cres_status cres_body].
  - repeat split.
  - assert (Hc : In current (db_subscriptions db)) by (apply Hcur; now left).
    repeat split.
    + cbn [withSubscriptions db_subscriptions]. unfold Prisma.updateMany.
      rewrite map_map. apply map_ext. intro r. now destruct (_ =? _)%nat.
    + cbn [withSubscriptions db_subscriptions].
      apply updateMany_In_hit; [exact Hc | apply Nat.eqb_refl].
    + intro Hin. apply current_rows in Hin. destruct Hin as [Hin Hok].
      cbn [withSubscriptions db_subscriptions] in Hin.
      unfold Prisma.updateMany in Hin. apply in_map_iff in Hin.
      destruct Hin as (r & Hr & Hin).
      destruct (Nat.eqb_spec (sub_id r) (sub_id current)) as [Heq|Hne].
      * subst s. now rewrite cancelRow_not_current in Hok.
      * subst s. assert (Hrc : In r (current :: others)) by (apply Hcur; auto).
        destruct Hrc as [->|Hrc]; [contradiction | exact Hrc].
    + intro Hin. assert (Hs : In s (current :: others)) by now right.
      apply Hcur in Hs. destruct Hs as [Hs Hok].
      apply current_rows. split; [|exact Hok].
      cbn [withSubscriptions db_subscriptions]. apply updateMany_In_miss; [exact Hs|].
      apply Nat.eqb_neq. intro Heq.
      cbn [map] in Hnd. inversion Hnd as [|? ? Hx _]; subst.
      apply Hx. rewrite <- Heq. now apply in_map.
Qed.

End Cancel.

(** ** Internal subscriptions *)

Section CreateInternal.

Import Subscriptions.



End CreateInternal.

(** ** Gateway status and refused activations *)

Section StatusImage.

Import Subscriptions.

Lemma upperChar_lowerChar_upperChar (c : ascii) :
  JS.upperChar (JS.lowerChar (JS.upperChar c)) = JS.upperChar c.
Proof. destruct c as [[] [] [] [] [] [] [] []]; reflexivity. Qed.

Lemma upperChar_idem (c : ascii) : JS.upperChar (JS.upperChar c) = JS.upperChar c.
Proof. destruct c as [[] [] [] [] [] [] [] []]; reflexivity. Qed.

Lemma upperChar_lowerChar (c : ascii) : JS.upperChar (JS.lowerChar c) = JS.upperChar c.
Proof. destruct c as [[] [] [] [] [] [] [] []]; reflexivity. Qed.

Lemma toUpperCase_of_lowered_upper (s : string) :
  JS.toUpperCase (JS.toLowerCase (JS.toUpperCase s)) = JS.toUpperCase s.
Proof.
  induction s as [|c r IH]; [reflexivity|].
  unfold JS.toLowerCase, JS.toUpperCase in *. simpl.
  now rewrite upperChar_lowerChar_upperChar, IH.
Qed.

Lemma toUpperCase_idem (s : string) : JS.toUpperCase (JS.toUpperCase s) = JS.toUpperCase s.
Proof.
  induction s as [|c r IH]; [reflexivity|].
  unfold JS.toUpperCase in *. simpl. now rewrite upperChar_idem, IH.
Qed.

Lemma toUpperCase_toLowerCase (s : string) :
  JS.toUpperCase (JS.toLowerCase s) = JS.toUpperCase s.
Proof.
  induction s as [|c r IH]; [reflexivity|].
  unfold JS.toLowerCase, JS.toUpperCase in *. simpl. now rewrite upperChar_lowerChar, IH.
Qed.

(** X16: the local status is never empty and has no upper-case letter; the
    gateway's EXPIRED and CANCELLED only ever come out as [canceled], never
    as [expired] or [cancelled]; and the letter case of the gateway's
    status does not matter. *)
Theorem mapPayPalStatusToLocal_image (paypalStatus : string) :
  let localStatus := mapPayPalStatusToLocal paypalStatus in
  localStatus <> ""
  /\ localStatus <> "expired"
  /\ localStatus <> "cancelled"
  /\ JS.toLowerCase localStatus = localStatus
  /\ mapPayPalStatusToLocal (JS.toUpperCase paypalStatus) = localStatus
  /\ mapPayPalStatusToLocal (JS.toLowerCase paypalStatus) = localStatus.
Proof.
  cbv zeta. unfold mapPayPalStatusToLocal.
  rewrite toUpperCase_idem, toUpperCase_toLowerCase.
  set (status := JS.toUpperCase paypalStatus).
  assert (Hstatus : JS.toUpperCase (JS.toLowerCase status) = status)
    by apply toUpperCase_of_lowered_upper.
  destruct (status =? "ACTIVE")%string; [repeat split; discriminate|].
  destruct (status =? "APPROVAL_PENDING")%string; [repeat split; discriminate|].
  destruct (status =? "SUSPENDED")%string; [repeat split; discriminate|].
  destruct (String.eqb_spec status "CANCELLED") as [|Hc]; [repeat split; discriminate|].
  destruct (String.eqb_spec status "EXPIRED") as [|He]; [repeat split; discriminate|].
  cbn [orb].
  destruct (JS.truthy status) eqn:T; [|repeat split; discriminate].
  repeat split.
  - intro H. apply mapChars_empty in H. rewrite H in T. discriminate T.
  - intro H. rewrite H in Hstatus. apply He. now rewrite <- Hstatus.
  - intro H. rewrite H in Hstatus. apply Hc. now rewrite <- Hstatus.
  - apply toLowerCase_idem.
Qed.

End StatusImage.

Section ActivationRefused.

Import Subscriptions.

(** X17: an activation that is not answered with 200 has written no
    subscription and no invite: at most the user row of the email exists
    afterwards. *)
Theorem activation_refused_writes_no_subscription
        (env : Env) (db : Db) (now : Z)
        (email plan paypalSubscriptionId tierRaw billingCycleRaw : string) :
  let '(response, db') :=
    handleActivatePayPal env db now email plan paypalSubscriptionId tierRaw billingCycleRaw in
  (res_status response = 200 \/ res_status response = 400 \/ res_status response = 500)
  /\ (res_status response <> 200 ->
      db_subscriptions db' = db_subscriptions db
      /\ db_referralInvites db' = db_referralInvites db
      /\ db_clientProfiles db' = db_clientProfiles db
      /\ db_orders db' = db_orders db
      /\ (db' = db
          \/ exists user, db' = withUsers db (db_users db ++ [user]) (S (db_nextId db))
                          /\ user_email user = normalizeEmail email)).
Proof.
  unfold handleActivatePayPal.
  destruct (_ || _); [cbn; intuition|].
  destruct (Tier_eqb _ _); [cbn; intuition|].
  destruct (negb (JS.truthy (getPayPalPlanId _ _ _))); [cbn; intuition|].
  pose proof (getOrCreateUserByEmail_cases db now (normalizeEmail email)) as Hu.
  destruct (getOrCreateUserByEmail db now (normalizeEmail email)) as [[user db0]|];
    [|cbn; intuition].
  destruct Hu as (Hue & _ & _ & _ & Hdb0 & _).
  rewrite normalizeEmail_idem in Hue.
  assert (Hkept : db_subscriptions db0 = db_subscriptions db
                  /\ db_referralInvites db0 = db_referralInvites db
                  /\ db_clientProfiles db0 = db_clientProfiles db
                  /\ db_orders db0 = db_orders db
                  /\ (db0 = db
                      \/ exists user, db0 = withUsers db (db_users db ++ [user])
                                                      (S (db_nextId db))
                                      /\ user_email user = normalizeEmail email)).
  { destruct Hdb0 as [->|(_ & -> & _)]; cbn; repeat split; eauto. }
  destruct (fetchPayPalSubscription env paypalSubscriptionId) as [details|];
    [|cbn; intuition].
  destruct (_ && _); [cbn; intuition|].
  destruct (_ || _); [cbn; intuition|].
  destruct (activateTransaction _ _ _ _ _ _ _ _ _) as [result db'].
  cbn [res_status]. split; [now left|]. intro H. now contradiction H.
Qed.

End ActivationRefused.

(** ** Referral invites *)

Section Invites.

Import Referrals.

Lemma findInvite_invites (db db' : Db) (referrerUserId : nat) (inviteeEmail : string) :
  db_referralInvites db' = db_referralInvites db ->
  findInvite db' referrerUserId inviteeEmail = findInvite db referrerUserId inviteeEmail.
Proof. unfold findInvite. now intros ->. Qed.

(** X18: inviting the same address twice makes one invite: after an
    invitation that was answered with an invite, the same request, at any
    later time and with any other random code, is answered with that same
    invite and writes nothing. *)
Theorem invite_twice_is_one_invite
        (db : Db) (now now2 : Z) (referralCode referralCode2 : string)
        (referrerEmail inviteeEmail : string) (invite : ReferralInvite) :
  res_body (fst (handleInvite db now referralCode referrerEmail inviteeEmail))
  = BInvite invite ->
  let db' := snd (handleInvite db now referralCode referrerEmail inviteeEmail) in
  handleInvite db' now2 referralCode2 referrerEmail inviteeEmail
  = ({| res_status := 200; res_body := BInvite invite |}, db').
Proof.
  cbv zeta. unfold handleInvite.
  destruct (_ || _); [discriminate|].
  destruct (negb (isValidEmail _)); [discriminate|].
  destruct (_ =? _)%string; [discriminate|].
  change (Referrals.normalizeEmail referrerEmail)
    with (Subscriptions.normalizeEmail referrerEmail).
  pose proof (getOrCreateUserByEmail_cases db now (Subscriptions.normalizeEmail referrerEmail))
    as Hu.
  destruct (Subscriptions.getOrCreateUserByEmail db now _) as [[referrer db0]|];
    [|discriminate].
  destruct Hu as (Hue & Hne & Hfind & Hagain & _).
  destruct (findInvite db0 (user_id referrer) (normalizeEmail inviteeEmail))
    as [existing|] eqn:F; cbn [fst snd res_body]; intro H; injection H as <-.
  - rewrite (Hagain now2 (Subscriptions.normalizeEmail referrerEmail) eq_refl). now rewrite F.
  - set (invite := {| inv_id := db_nextId db0; inv_referrerUserId := user_id referrer;
                      inv_inviteeEmail := normalizeEmail inviteeEmail;
                      inv_inviteeUserId := None; inv_status := PENDING;
                      inv_rewardedAt := None; inv_referralCode := referralCode;
                      inv_createdAt := now |}).
    set (db' := {| db_users := db_users db0; db_subscriptions := db_subscriptions db0;
                   db_referralInvites := db_referralInvites db0 ++ [invite];
                   db_clientProfiles := db_clientProfiles db0;
                   db_orders := db_orders db0; db_nextId := S (db_nextId db0) |}).
    assert (Huser : Subscriptions.getOrCreateUserByEmail
                      db' now2 (Subscriptions.normalizeEmail referrerEmail)
                    = Some (referrer, db')).
    { apply getOrCreateUserByEmail_existing; [congruence|].
      now rewrite (findUserByEmail_users db0 db' _ eq_refl). }
    rewrite Huser.
    assert (Hfound : findInvite db' (user_id referrer) (normalizeEmail inviteeEmail)
                     = Some invite).
    { unfold findInvite, Prisma.findFirst in *. cbn [db' db_referralInvites].
      apply find_app_first; [apply (find_none _ _ F)|].
      cbn [invite inv_referrerUserId inv_inviteeEmail].
      now rewrite Nat.eqb_refl, String.eqb_refl. }
    now rewrite Hfound.
Qed.

(** X19: an invitation is refused with 400, and nothing is written, when
    an email is missing, when the invitee's address is not an email
    address, and when referrer and invitee are the same address up to
    letter case and surrounding white space. *)
Theorem invite_refusals_write_nothing
        (db : Db) (now : Z) (referralCode referrerEmail inviteeEmail : string) :
  let '(response, db') := handleInvite db now referralCode referrerEmail inviteeEmail in
  (res_status response = 400 -> db' = db)
  /\ (normalizeEmail referrerEmail = normalizeEmail inviteeEmail ->
      res_status response = 400)
  /\ (isValidEmail (normalizeEmail inviteeEmail) = false -> res_status response = 400)
  /\ (res_status response = 200 ->
      exists invite, res_body response = BInvite invite
                     /\ In invite (db_referralInvites db')
                     /\ inv_inviteeEmail invite = normalizeEmail inviteeEmail).
Proof.
  unfold handleInvite.
  destruct (_ || _); [cbn; repeat split; auto; discriminate|].
  destruct (isValidEmail _); cbn [negb]; [|cbn; repeat split; auto; discriminate].
  destruct (String.eqb_spec (normalizeEmail referrerEmail) (normalizeEmail inviteeEmail));
    [cbn; repeat split; auto; discriminate|].
  destruct (Subscriptions.getOrCreateUserByEmail db now _) as [[referrer db0]|];
    [|cbn; repeat split; try discriminate; contradiction].
  destruct (findInvite db0 _ _) as [existing|] eqn:F; cbn [res_status res_body];
    (repeat split; [discriminate | contradiction | discriminate |]); intros _.
  - exists existing. split; [reflexivity|].
    unfold findInvite, Prisma.findFirst in F. apply find_some in F.
    destruct F as [Hin F]. apply andb_prop in F. destruct F as [_ F].
    split; [exact Hin | now apply String.eqb_eq].
  - eexists. split; [reflexivity|]. cbn. split; [|reflexivity].
    apply in_or_app. right. now left.
Qed.

Lemma filter_partition_length {A} (p : A -> bool) (l : list A) :
  (List.length (filter (fun x => negb (p x)) l) + List.length (filter p l))%nat
  = List.length l.
Proof.
  induction l as [|x r IH]; [reflexivity|]. simpl.
  destruct (p x); simpl; lia.
Qed.

Lemma firstn_In {A} (n : nat) (l : list A) (x : A) : In x (firstn n l) -> In x l.
Proof.
  intro H. rewrite <- (firstn_skipn n l). apply in_or_app. now left.
Qed.

(** X20: the referral statistics add up: the total is the number of
    invites listed, at most 100, every one of them an invite sent by the
    user, and it is the sum of the pending and the rewarded ones. *)
Theorem referral_stats_add_up (NEXT_PUBLIC_APP_URL : string) (db : Db) (queryEmail : string) :
  match gres_body (handleGet NEXT_PUBLIC_APP_URL db queryEmail) with
  | GError _ => normalizeEmail queryEmail = ""
  | GInvites stats invites referralLink =>
      st_total stats = Z.of_nat (List.length invites)
      /\ st_total stats = st_pending stats + st_rewarded stats
      /\ 0 <= st_rewarded stats /\ 0 <= st_pending stats /\ st_total stats <= 100
      /\ (forall item, In item invites ->
            exists user row,
              Subscriptions.findUserByEmail db (normalizeEmail queryEmail) = Some user
              /\ In row (db_referralInvites db)
              /\ inv_referrerUserId row = user_id user
              /\ item = inviteJson row)
  end.
Proof.
  unfold handleGet.
  destruct (JS.truthy (normalizeEmail queryEmail)) eqn:T; cbn [negb gres_body];
    [|now apply truthy_spec].
  destruct (Subscriptions.findUserByEmail db (normalizeEmail queryEmail)) as [user|];
    cbn [gres_body st_total st_pending st_rewarded].
  - rewrite length_map.
    pose proof (filter_partition_length isRewarded (invitesOf db (user_id user))) as Hsum.
    assert (Hmax : (List.length (invitesOf db (user_id user)) <= 100)%nat)
      by apply firstn_le_length.
    repeat split; try lia.
    intros item Hitem. apply in_map_iff in Hitem. destruct Hitem as (row & <- & Hrow).
    exists user, row. unfold invitesOf in Hrow.
    apply firstn_In, orderBy_In, filter_In in Hrow. destruct Hrow as [Hin Hr].
    apply Nat.eqb_eq in Hr. auto.
  - repeat split; try reflexivity; try lia. intros item [].
Qed.

End Invites.

(** ** Listing client profiles *)

Section ProfileListing.

Import ClientProfiles.

Lemma insertSorted_length {A} (before : A -> A -> bool) (x : A) (l : list A) :
  List.length (Prisma.insertSorted before x l) = S (List.length l).
Proof.
  induction l as [|y r IH]; [reflexivity|]. cbn [Prisma.insertSorted].
  destruct (before x y); cbn [List.length]; [reflexivity | now rewrite IH].
Qed.

Lemma orderBy_length {A} (before : A -> A -> bool) (l : list A) :
  List.length (Prisma.orderBy before l) = List.length l.
Proof.
  induction l as [|x r IH]; [reflexivity|].
  cbn [Prisma.orderBy fold_right]. rewrite insertSorted_length. cbn [List.length].
  f_equal. exact IH.
Qed.

(** The rows that a GET lists are rows of the user. *)
Lemma profilesOfUser_In (db : Db) (userId : nat) (r : ClientProfile) :
  In r (profilesOfUser db userId) -> In r (db_clientProfiles db) /\ cp_userId r = userId.
Proof.
  unfold profilesOfUser. intro H.
  apply firstn_In, orderBy_In, filter_In in H. destruct H as [Hin H].
  split; [exact Hin | now apply Nat.eqb_eq].
Qed.

(** All of them are listed when there are at most 500 rows. *)
Lemma profilesOfUser_all (db : Db) (userId : nat) (r : ClientProfile) :
  (List.length (db_clientProfiles db) <= 500)%nat ->
  In r (db_clientProfiles db) -> cp_userId r = userId ->
  In r (profilesOfUser db userId).
Proof.
  intros Hlen Hin Hu. unfold profilesOfUser.
  rewrite firstn_all2.
  - apply orderBy_In, filter_In. split; [exact Hin | now apply Nat.eqb_eq].
  - rewrite orderBy_length.
    pose proof (filter_length_le (fun r0 => (cp_userId r0 =? userId)%nat)
                                 (db_clientProfiles db)). lia.
Qed.

(** What the transaction leaves of the table: the row it returns, owned
    by the user, and at most one row more than before. *)
Lemma saveProfile_row (db : Db) (now : Z) (user : User)
      (clientId clientEmail clientName : string) (p : ClientProfile) (d : Db) :
  saveProfile db now user clientId clientEmail clientName = Some (p, d) ->
  In p (db_clientProfiles d) /\ cp_userId p = user_id user
  /\ db_users d = db_users db
  /\ (List.length (db_clientProfiles d) <= S (List.length (db_clientProfiles db)))%nat.
Proof.
  unfold saveProfile.
  assert (Hupsert : forall p0 d0,
             upsertProfile db now user clientId clientEmail clientName = (p0, d0) ->
             In p0 (db_clientProfiles d0) /\ cp_userId p0 = user_id user
             /\ db_users d0 = db_users db
             /\ (List.length (db_clientProfiles d0)
                 <= S (List.length (db_clientProfiles db)))%nat).
  { intros p0 d0. unfold upsertProfile.
    destruct (Prisma.findFirst (hasKey (user_id user) clientId) (db_clientProfiles db))
      as [existing|] eqn:F; intro H; injection H as <- <-.
    - unfold Prisma.findFirst in F. apply find_some in F. destruct F as [Hin Hk].
      cbn [withClientProfiles db_clientProfiles db_users setEmailAndName cp_userId].
      rewrite updateMany_length. repeat split; try lia.
      + now apply updateMany_In_hit.
      + unfold hasKey in Hk. apply andb_prop in Hk. now apply Nat.eqb_eq.
    - cbn [withClientProfiles db_clientProfiles db_users cp_userId].
      rewrite length_app. cbn [List.length]. repeat split; try lia.
      apply in_or_app. right. now left. }
  destruct (Prisma.findFirst (ownsEmail (user_id user) clientEmail) (db_clientProfiles db))
    as [existing|] eqn:F.
  - destruct (negb (cp_clientId existing =? clientId)%string).
    + destruct (clientIdTaken db clientId existing); [discriminate|].
      intro H. injection H as <- <-.
      unfold Prisma.findFirst in F. apply find_some in F. destruct F as [Hin Hk].
      cbn [withClientProfiles db_clientProfiles db_users moveToClientId cp_userId].
      rewrite updateMany_length. repeat split; try lia.
      * apply updateMany_In_hit; [exact Hin | apply Nat.eqb_refl].
      * unfold ownsEmail in Hk. apply andb_prop in Hk. now apply Nat.eqb_eq.
    + intro H. injection H as H. now apply Hupsert.
  - intro H. injection H as H. now apply Hupsert.
Qed.

(** X21: a profile that was saved is listed: after a POST answered with a
    profile, on a table of fewer than 500 rows, a GET for the same email
    lists that very profile and writes nothing. *)
Theorem saved_profile_is_listed
        (db : Db) (now now2 : Z) (email clientId clientEmail clientName : string)
        (profile : ProfileJson) :
  (List.length (db_clientProfiles db) < 500)%nat ->
  res_body (fst (handlePost db now email clientId clientEmail clientName))
  = BProfile profile ->
  let db' := snd (handlePost db now email clientId clientEmail clientName) in
  exists profiles,
    handleGet db' now2 email
    = ({| gres_status := 200; gres_body := GProfiles profiles |}, db')
    /\ In profile profiles.
Proof.
  cbv zeta. intro Hlen. unfold handlePost, handleGet.
  destruct (JS.truthy (normalizeEmail email)) eqn:T; [|discriminate].
  cbn [negb orb].
  destruct (_ || _); [discriminate|].
  destruct (negb (isValidEmail _)); [discriminate|].
  unfold getOrCreateUserByEmail.
  pose proof (getOrCreateUserByEmail_cases db now (normalizeEmail email)) as Hu.
  destruct (Subscriptions.getOrCreateUserByEmail db now (normalizeEmail email))
    as [[user db0]|]; [|discriminate].
  destruct Hu as (Hue & Hne & Hfind & _ & Hdb0 & _).
  destruct (saveProfile db0 now user _ _ _) as [[p d]|] eqn:S; [|discriminate].
  cbn [respond fst snd res_body]. intro H. injection H as <-.
  apply saveProfile_row in S. destruct S as (Hin & Hown & Husers & Hcount).
  assert (Hagain : Subscriptions.getOrCreateUserByEmail d now2 (normalizeEmail email)
                   = Some (user, d)).
  { apply getOrCreateUserByEmail_existing; [congruence|].
    now rewrite (findUserByEmail_users db0 d _ Husers). }
  rewrite Hagain. eexists. split; [reflexivity|].
  apply in_map. apply profilesOfUser_all; [|exact Hin|exact Hown].
  assert (Hp : db_clientProfiles db0 = db_clientProfiles db)
    by (destruct Hdb0 as [->|(_ & -> & _)]; reflexivity).
  rewrite Hp in Hcount. lia.
Qed.

(** X22: a GET of the profiles answers 200 for every email that is not
    blank, creating the user when the email is new; it lists only rows of
    that user, at most 500 of them, and leaves the profile table as it
    was. *)
Theorem profiles_get_lists_own_rows (db : Db) (now : Z) (queryEmail : string) :
  let '(response, db') := handleGet db now queryEmail in
  match gres_body response with
  | GError _ => normalizeEmail queryEmail = "" /\ db' = db
  | GProfiles profiles =>
      gres_status response = 200
      /\ db_clientProfiles db' = db_clientProfiles db
      /\ (List.length profiles <= 500)%nat
      /\ exists user,
           Subscriptions.findUserByEmail db' (normalizeEmail queryEmail) = Some user
           /\ (db' = db
               \/ db' = withUsers db (db_users db ++ [user]) (S (db_nextId db)))
           /\ forall item, In item profiles ->
                exists row, In row (db_clientProfiles db) /\ cp_userId row = user_id user
                            /\ item = profileJson row
  end.
Proof.
  unfold handleGet.
  destruct (JS.truthy (normalizeEmail queryEmail)) eqn:T; cbn [negb];
    [|cbn; split; [now apply truthy_spec | reflexivity]].
  unfold getOrCreateUserByEmail.
  pose proof (getOrCreateUserByEmail_cases db now (normalizeEmail queryEmail)) as Hu.
  destruct (Subscriptions.getOrCreateUserByEmail db now (normalizeEmail queryEmail))
    as [[user db0]|]; cbn [gres_body gres_status].
  - destruct Hu as (_ & _ & Hfind & _ & Hdb0 & _).
    rewrite normalizeEmail_idem in Hfind.
    assert (Hp : db_clientProfiles db0 = db_clientProfiles db)
      by (destruct Hdb0 as [->|(_ & -> & _)]; reflexivity).
    repeat split; [exact Hp | |].
    + rewrite length_map. apply firstn_le_length.
    + exists user. repeat split; [exact Hfind | tauto |].
      intros item Hitem. apply in_map_iff in Hitem. destruct Hitem as (row & <- & Hrow).
      apply profilesOfUser_In in Hrow. rewrite Hp in Hrow. exists row. tauto.
  - rewrite normalizeEmail_idem in Hu. unfold Subscriptions.normalizeEmail in Hu.
    unfold normalizeEmail in T. rewrite Hu in T. discriminate T.
Qed.

End ProfileListing.

(** ** Sign-in codes, links and sessions *)

Section SignInCodes.

Import Auth.

Lemma getMagicLinkTTLMinutes_bounds (env : Env) : 5 <= getMagicLinkTTLMinutes env <= 60.
Proof.
  unfold getMagicLinkTTLMinutes.
  destruct (AUTH_MAGIC_LINK_EXPIRES_MINUTES env) as [value|]; [|lia].
  destruct (value <=? 0); lia.
Qed.

Lemma getLoginCodeSlot_next (now now2 ttlMinutes : Z) :
  5 <= ttlMinutes ->
  now <= now2 <= now + ttlMinutes * 60 * 1000 ->
  getLoginCodeSlot now2 ttlMinutes = getLoginCodeSlot now ttlMinutes
  \/ getLoginCodeSlot now2 ttlMinutes - 1 = getLoginCodeSlot now ttlMinutes.
Proof.
  intros Httl Hwin. unfold getLoginCodeSlot.
  destruct (Z.eqb_spec ttlMinutes 0) as [|_]; [lia|].
  rewrite Z.max_r by lia.
  set (interval := ttlMinutes * 60 * 1000) in *.
  assert (Hpos : 0 < interval) by (unfold interval; lia).
  pose proof (Z.div_mod now interval ltac:(lia)) as H1.
  pose proof (Z.mod_pos_bound now interval Hpos) as B1.
  pose proof (Z.div_mod now2 interval ltac:(lia)) as H2.
  pose proof (Z.mod_pos_bound now2 interval Hpos) as B2.
  set (q1 := now / interval) in *. set (q2 := now2 / interval) in *.
  assert (q1 <= q2 <= q1 + 1) by nia.
  lia.
Qed.

(** X23: a sign-in code is honoured for the whole period it was issued
    for: the code computed when the email is sent is accepted at every
    later time up to one period (5 to 60 minutes) after that. *)
Theorem sign_in_code_honoured_for_its_period (env : Env) (now now2 : Z) (email : string) :
  emailMaySignIn env email ->
  let ttlMinutes := getMagicLinkTTLMinutes env in
  let normalizedEmail := JS.toLowerCase (JS.trim email) in
  let signInCode := computeLoginCode normalizedEmail (getMagicLinkSecret env)
                                     (getLoginCodeSlot now ttlMinutes) in
  now <= now2 <= now + ttlMinutes * 60 * 1000 ->
  verifyLoginCode env now2 email signInCode = CodeAccepted normalizedEmail.
Proof.
  intros Hok ttlMinutes normalizedEmail signInCode Hwin.
  assert (Hshape : String.length signInCode = 6%nat /\ JS.allDigits signInCode = true)
    by apply computeLoginCode_shape.
  assert (Hown : normalizeSignInCode signInCode = signInCode)
    by (apply normalizeSignInCode_code; apply Hshape).
  rewrite (verifyLoginCode_window env now2 email signInCode Hok)
    by (rewrite Hown; apply Hshape).
  rewrite Hown. fold ttlMinutes normalizedEmail.
  assert (Hin : memberOf signInCode
                  [computeLoginCode normalizedEmail (getMagicLinkSecret env)
                     (getLoginCodeSlot now2 ttlMinutes);
                   computeLoginCode normalizedEmail (getMagicLinkSecret env)
                     (getLoginCodeSlot now2 ttlMinutes - 1)] = true).
  { apply memberOf_two. unfold signInCode.
    destruct (getLoginCodeSlot_next now now2 ttlMinutes
                (proj1 (getMagicLinkTTLMinutes_bounds env)) Hwin) as [->| ->]; auto. }
  now rewrite Hin.
Qed.

Lemma allDigits_filterChars (s : string) : JS.allDigits (JS.filterChars JS.isDigit s) = true.
Proof.
  induction s as [|c r IH]; [reflexivity|]. cbn [JS.filterChars].
  destruct (JS.isDigit c) eqn:D; [|exact IH]. cbn [JS.allDigits]. now rewrite D.
Qed.

Lemma substring_prefix_digits (n : nat) (s : string) :
  JS.allDigits s = true ->
  JS.allDigits (String.substring 0 n s) = true
  /\ (String.length (String.substring 0 n s) <= n)%nat.
Proof.
  revert s. induction n as [|n IH]; intros s H.
  - destruct s; cbn; split; auto.
  - destruct s as [|c r]; [cbn; split; [reflexivity|lia]|].
    cbn [String.substring JS.allDigits String.length] in *.
    apply andb_prop in H. destruct H as [Hc Hr].
    destruct (IH r Hr) as [H1 H2]. rewrite Hc, H1. split; [reflexivity|lia].
Qed.

Lemma normalizeSignInCode_shape (value : string) :
  JS.allDigits (normalizeSignInCode value) = true
  /\ (String.length (normalizeSignInCode value) <= 6)%nat.
Proof.
  unfold normalizeSignInCode, JS.slice0.
  apply substring_prefix_digits, allDigits_filterChars.
Qed.

Lemma normalizeSignInCode_idem (value : string) :
  normalizeSignInCode (normalizeSignInCode value) = normalizeSignInCode value.
Proof.
  destruct (normalizeSignInCode_shape value) as [Hd Hl].
  unfold normalizeSignInCode at 1, JS.slice0.
  rewrite filterChars_allDigits by exact Hd. apply substring_all. exact Hl.
Qed.

(** X24: of what the user types as the code only the digits count, and of
    those the first six: spaces, dashes and any other characters in between
    change nothing of the answer. *)
Theorem sign_in_code_counts_digits_only (env : Env) (now : Z) (email code : string) :
  verifyLoginCode env now email code
  = verifyLoginCode env now email (normalizeSignInCode code)
  /\ JS.allDigits (normalizeSignInCode code) = true
  /\ (String.length (normalizeSignInCode code) <= 6)%nat
  /\ normalizeSignInCode code = JS.slice0 6 (JS.filterChars JS.isDigit code).
Proof.
  split; [|split; [|split]]; try apply normalizeSignInCode_shape; [|reflexivity].
  unfold verifyLoginCode. now rewrite normalizeSignInCode_idem.
Qed.

End SignInCodes.

Section Sessions.

Import Auth.

Variables (secret : string).

Lemma checkPayload_magicLink (normalizedEmail nonce : string) (now ttlMinutes t : Z) :
  normalizedEmail <> "" -> 0 <= now -> 0 < ttlMinutes ->
  checkPayload (magicLinkPayload normalizedEmail now ttlMinutes nonce) t
  = if now + ttlMinutes * 60 * 1000 <? t
    then Invalid "Token expired"
    else Valid (magicLinkPayload normalizedEmail now ttlMinutes nonce).
Proof.
  intros He Hnow Httl. unfold checkPayload, magicLinkPayload.
  cbn [JSON.truthy JSON.isObjectType JSON.getField JSON.lookup String.eqb Ascii.eqb Bool.eqb
       negb orb JSON.toNumber].
  destruct (JS.truthy normalizedEmail) eqn:T; [|apply truthy_spec in T; contradiction].
  destruct (Z.eqb_spec (now + ttlMinutes * 60 * 1000) 0) as [H0|_]; [lia|].
  reflexivity.
Qed.

(** X25: a sign-in link is honoured until it expires, 5 to 60 minutes after
    it was issued, and refused as expired afterwards; and it is never
    accepted as a session token. *)
Theorem magic_link_valid_until_expiry
        (env : Env) (normalizedEmail nonce : string) (now t : Z) :
  normalizedEmail <> "" -> 0 <= now ->
  let ttlMinutes := getMagicLinkTTLMinutes env in
  let payload := magicLinkPayload normalizedEmail now ttlMinutes nonce in
  let authToken := signMagicToken payload secret in
  let expiry := now + ttlMinutes * 60 * 1000 in
  now + 5 * 60 * 1000 <= expiry <= now + 60 * 60 * 1000
  /\ JSON.getField payload "exp" = Some (JSON.JNum expiry)
  /\ (t <= expiry -> verifyMagicToken authToken secret t = Some (Valid payload))
  /\ (expiry < t -> verifyMagicToken authToken secret t = Some (Invalid "Token expired"))
  /\ exists reason, verifySessionToken authToken secret t = Some (Invalid reason).
Proof.
  intros He Hnow ttlMinutes payload authToken expiry.
  pose proof (getMagicLinkTTLMinutes_bounds env) as Httl. fold ttlMinutes in Httl.
  assert (Hv : verifyMagicToken authToken secret t
               = Some (if expiry <? t then Invalid "Token expired" else Valid payload)).
  { unfold authToken. rewrite verify_sign. f_equal.
    apply checkPayload_magicLink; [exact He | exact Hnow | lia]. }
  split; [unfold expiry; lia|]. split; [reflexivity|]. split; [|split].
  - intro H. rewrite Hv. destruct (Z.ltb_spec expiry t); [lia|reflexivity].
  - intro H. rewrite Hv. destruct (Z.ltb_spec expiry t); [reflexivity|lia].
  - unfold verifySessionToken. rewrite Hv.
    destruct (expiry <? t); [eauto|]. cbn. eauto.
Qed.

Lemma createSessionToken_signs (userId email : string) (now : Z) (nonce : string) :
  createSessionToken userId email secret now nonce
  = signMagicToken (sessionPayload userId email now nonce) secret.
Proof. reflexivity. Qed.

Lemma checkPayload_session (userId email nonce : string) (now t : Z) :
  JS.toLowerCase (JS.trim email) <> "" -> 0 <= now ->
  checkPayload (sessionPayload userId email now nonce) t
  = if now + SESSION_TTL_SECONDS * 1000 <? t
    then Invalid "Token expired"
    else Valid (sessionPayload userId email now nonce).
Proof.
  intros He Hnow. unfold checkPayload, sessionPayload.
  cbn [JSON.truthy JSON.isObjectType JSON.getField JSON.lookup String.eqb Ascii.eqb Bool.eqb
       negb orb JSON.toNumber].
  destruct (JS.truthy (JS.toLowerCase (JS.trim email))) eqn:T;
    [|apply truthy_spec in T; contradiction].
  destruct (Z.eqb_spec (now + SESSION_TTL_SECONDS * 1000) 0) as [H0|_];
    [unfold SESSION_TTL_SECONDS in H0; lia|].
  reflexivity.
Qed.

(** X26: a session token is good for fourteen days: issued for a user id
    and an email that are not blank, it verifies to its payload up to
    fourteen days after it was issued and is refused as expired
    afterwards; the check of the sign-in link accepts it as well. *)
Theorem session_token_valid_for_fourteen_days
        (userId email nonce : string) (now t : Z) :
  userId <> "" -> JS.toLowerCase (JS.trim email) <> "" -> 0 <= now ->
  let sessionToken := createSessionToken userId email secret now nonce in
  let payload := sessionPayload userId email now nonce in
  let expiry := now + 14 * 24 * 60 * 60 * 1000 in
  (t <= expiry ->
   verifySessionToken sessionToken secret t = Some (Valid payload)
   /\ verifyMagicToken sessionToken secret t = Some (Valid payload))
  /\ (expiry < t ->
      verifySessionToken sessionToken secret t = Some (Invalid "Token expired")).
Proof.
  intros Hu He Hnow sessionToken payload expiry.
  assert (Hexp : now + SESSION_TTL_SECONDS * 1000 = expiry)
    by (unfold expiry, SESSION_TTL_SECONDS; lia).
  assert (Hv : verifyMagicToken sessionToken secret t
               = Some (if expiry <? t then Invalid "Token expired" else Valid payload)).
  { unfold sessionToken. rewrite createSessionToken_signs, verify_sign. f_equal.
    rewrite <- Hexp. now apply checkPayload_session. }
  split.
  - intro H. unfold verifySessionToken. rewrite Hv.
    destruct (Z.ltb_spec expiry t); [lia|]. split; [|reflexivity].
    unfold payload, sessionPayload.
    cbn [JSON.truthy JSON.getField JSON.lookup String.eqb Ascii.eqb Bool.eqb negb orb].
    destruct (JS.truthy userId) eqn:T1; [|apply truthy_spec in T1; contradiction].
    destruct (JS.truthy (JS.toLowerCase (JS.trim email))) eqn:T2;
      [|apply truthy_spec in T2; contradiction].
    reflexivity.
  - intro H. unfold verifySessionToken. rewrite Hv.
    destruct (Z.ltb_spec expiry t); [reflexivity|lia].
Qed.

End Sessions.

Section Codec.

(** X27: decoding undoes encoding: every string comes back from its
    base64url text, which has no dot in it. *)
Theorem base64UrlDecode_base64UrlEncode (value : string) :
  Auth.base64UrlDecode (Auth.base64UrlEncode value) = value
  /\ JS.lacks "." (Auth.base64UrlEncode value) = true.
Proof.
  split; [apply base64Url_roundtrip | apply toBase64Url_lacks_dot].
Qed.

End Codec.

Section Invited.

Import Auth.

Lemma find_filter_hd {A} (p : A -> bool) (l : list A) :
  (exists x, List.find p l = Some x) <-> filter p l <> [].
Proof.
  induction l as [|y r IH]; cbn [List.find filter].
  - split; [intros (x & H); discriminate | congruence].
  - destruct (p y); [split; [discriminate | eauto] | exact IH].
Qed.

(** X28: an email counts as invited exactly when an activation by the user
    of that email would be rewarded: both look for an invite to the email
    that is pending or registered. *)
Theorem invited_iff_activation_rewards (db : Db) (user : User) (now : Z) :
  isInvitedEmail db (user_email user) = true
  <-> exists reward, fst (Subscriptions.applyReferralReward db user now) = Some reward.
Proof.
  unfold isInvitedEmail, Subscriptions.applyReferralReward, Subscriptions.findOpenInvite.
  rewrite findFirst_any. unfold Prisma.findFirst.
  set (open := fun i : ReferralInvite =>
                 (inv_inviteeEmail i =? user_email user)%string
                 && Subscriptions.isOpenInvite i).
  pose proof (find_filter_hd open (db_referralInvites db)) as Hfind.
  destruct (Prisma.orderBy Subscriptions.byCreatedAtAsc (filter open (db_referralInvites db)))
    as [|invite rest] eqn:E; cbn [hd_error fst].
  - apply orderBy_nil_inv in E.
    destruct (find open (db_referralInvites db)) as [x|].
    + exfalso. apply (proj1 Hfind); eauto.
    + split; [discriminate | intros (reward & H); discriminate].
  - destruct (find open (db_referralInvites db)) as [x|]; [split; eauto|].
    exfalso. assert (Hne : filter open (db_referralInvites db) <> []).
    { intro H. rewrite H in E. discriminate E. }
    apply Hfind in Hne. destruct Hne as (x & Hx). discriminate Hx.
Qed.

(** X29: the allow list holds the entries of the setting trimmed and in
    lower case, the blank ones left out: an email is on it exactly when it
    is the normal form of an entry. *)
Theorem allowed_emails_are_normalised (env : Env) (normalizedEmail : string) :
  Forall (fun entry => entry <> "" /\ JS.toLowerCase (JS.trim entry) = entry)
         (getAllowedEmails env)
  /\ (memberOf normalizedEmail (getAllowedEmails env) = true
      <-> normalizedEmail <> ""
          /\ exists item, In item (JS.split "," (JS.trim (AUTH_ALLOWED_EMAILS env)))
                          /\ JS.toLowerCase (JS.trim item) = normalizedEmail).
Proof.
  unfold getAllowedEmails.
  set (raw := JS.trim (AUTH_ALLOWED_EMAILS env)).
  destruct (JS.truthy raw) eqn:T; cbn [negb].
  - split.
    + apply Forall_forall. intros entry H. apply filter_In in H.
      destruct H as [Hin Ht]. apply in_map_iff in Hin. destruct Hin as (item & <- & _).
      split; [intro H0; rewrite H0 in Ht; discriminate Ht | apply trim_lower_idem].
    + unfold memberOf. rewrite existsb_exists. split.
      * intros (x & Hx & Heq). apply String.eqb_eq in Heq. subst x.
        apply filter_In in Hx. destruct Hx as [Hin Ht].
        apply in_map_iff in Hin. destruct Hin as (item & Hitem & Hin).
        split; [intro H0; rewrite H0 in Ht; discriminate Ht | eauto].
      * intros (Hne & item & Hin & Heq). exists normalizedEmail.
        split; [|apply String.eqb_refl]. apply filter_In. split.
        -- apply in_map_iff. eauto.
        -- destruct (JS.truthy normalizedEmail) eqn:T2; [reflexivity|].
           apply truthy_spec in T2. contradiction.
  - apply truthy_spec in T. rewrite T. split; [constructor|].
    cbn. split; [discriminate|]. intros (Hne & item & [<-|[]] & Heq).
    exfalso. apply Hne. now rewrite <- Heq.
Qed.

End Invited.

(** ** Signing in *)

Section SignIn.

Import Auth.

Lemma getActiveSubscriptionOrNull_features (db : Db) (now : Z) (userId : nat) :
  as_planFeatures (getActiveSubscriptionOrNull db now userId)
  = PLAN_FEATURES (as_tier (getActiveSubscriptionOrNull db now userId)).
Proof.
  unfold getActiveSubscriptionOrNull. now destruct (selectLoop _).
Qed.

(** X30: signing in creates an account only for an email that is invited
    or when automatic sign-up is switched on; otherwise an unknown email is
    answered 401 and nothing is written. Who is signed in has the email,
    and a verification time that is never overwritten once set; signing in
    writes no subscription and no invite, and reports the plan that
    [getActiveSubscriptionOrNull] resolves. *)
Theorem sign_in_creates_accounts_by_invitation_only
        (autoSignup : string) (db : Db) (now : Z) (verifiedEmail : string) :
  let '(result, db') := buildAuthSuccessResponse autoSignup db now verifiedEmail in
  db_subscriptions db' = db_subscriptions db
  /\ db_referralInvites db' = db_referralInvites db
  /\ match ar_body result with
     | AError _ code =>
         ar_ok result = false /\ ar_status result = 401 /\ code = "ACCOUNT_NOT_FOUND"
         /\ db' = db
         /\ Subscriptions.findUserByEmail db verifiedEmail = None
         /\ isInvitedEmail db verifiedEmail = false
         /\ envFlag autoSignup = false
     | ASignedIn user subscription tier planFeatures =>
         ar_ok result = true /\ ar_status result = 200
         /\ user_email user = verifiedEmail
         /\ In user (db_users db')
         /\ (exists verifiedAt, user_emailVerifiedAt user = Some verifiedAt)
         /\ (Subscriptions.findUserByEmail db verifiedEmail = None ->
             isInvitedEmail db verifiedEmail = true \/ envFlag autoSignup = true)
         /\ (forall known verifiedAt,
                Subscriptions.findUserByEmail db verifiedEmail = Some known ->
                user_emailVerifiedAt known = Some verifiedAt ->
                user = known /\ db' = db)
         /\ tier = as_tier (getActiveSubscriptionOrNull db' now (user_id user))
         /\ planFeatures = PLAN_FEATURES tier
     end.
Proof.
  unfold buildAuthSuccessResponse, findOrCreateUserByEmailWithFlag.
  destruct (Subscriptions.findUserByEmail db verifiedEmail) as [known|] eqn:F.
  - destruct (findUserByEmail_email _ _ _ F) as [Hin He].
    destruct (user_emailVerifiedAt known) as [t|] eqn:V;
      cbn [ar_body ar_ok ar_status withUsers db_subscriptions db_referralInvites db_users
           user_id user_email user_emailVerifiedAt setEmailVerifiedAt].
    + repeat split; eauto; try discriminate; try congruence;
        try apply getActiveSubscriptionOrNull_features.
    + repeat split; eauto; try discriminate; try congruence;
        try apply getActiveSubscriptionOrNull_features.
      apply (updateMany_In_hit (fun u => (user_id u =? user_id known)%nat)
                               (setEmailVerifiedAt now) _ _ Hin), Nat.eqb_refl.
  - destruct (isInvitedEmail db verifiedEmail) eqn:I; cbn [negb andb].
    + cbn [ar_body ar_ok ar_status withUsers db_subscriptions db_referralInvites db_users
           user_id user_email user_emailVerifiedAt setEmailVerifiedAt].
      repeat split; eauto; try discriminate; try apply getActiveSubscriptionOrNull_features.
      apply updateMany_In_hit; [|apply Nat.eqb_refl].
      apply in_or_app. right. now left.
    + destruct (envFlag autoSignup) eqn:E; cbn [negb].
      * cbn [ar_body ar_ok ar_status withUsers db_subscriptions db_referralInvites db_users
             user_id user_email user_emailVerifiedAt setEmailVerifiedAt].
        repeat split; eauto; try discriminate; try apply getActiveSubscriptionOrNull_features.
        apply updateMany_In_hit; [|apply Nat.eqb_refl].
        apply in_or_app. right. now left.
      * cbn. repeat split.
Qed.

End SignIn.

(** ** Worked instances *)

Example getUtcDayStart_two_digit_year_sample :
  JSDate.getFullYear (-60590000000000) = 49
  /\ Subscriptions.getUtcDayStart (-60590000000000) = -631929600000
  /\ Subscriptions.getUtcWeekStart (-60590000000000) = -632275200000.
Proof. repeat split; vm_compute; reflexivity. Qed.

Example addMonths_end_of_range :
  Subscriptions.addMonthsIn JSDate.utc 8640000000000000 1 = None
  /\ Subscriptions.addMonthsIn JSDate.utc 1706659200000 1 = Some 1709337600000.
Proof. split; vm_compute; reflexivity. Qed.

Lemma addMonths_one_month_length_witness :
  - JSDate.maxTime <= sampleNow <= JSDate.maxTime
  /\ Subscriptions.addMonthsIn (JSDate.fixedZone 25200000) sampleNow 1
     = Some (sampleNow + 30 * JSDate.msPerDay).
Proof.
  assert (H : - JSDate.maxTime <= sampleNow <= JSDate.maxTime)
    by (unfold JSDate.maxTime, sampleNow; lia).
  split; [exact H|].
  exact (proj1 (proj2 (proj2 (addMonths_one_month_length 25200000 sampleNow H)))
           ltac:(vm_compute; discriminate)).
Defined.

Lemma addPlanInterval_length_witness :
  - JSDate.maxTime <= sampleNow <= JSDate.maxTime
  /\ exists days,
       365 <= days <= 366
       /\ Subscriptions.addPlanIntervalIn (JSDate.fixedZone 25200000) sampleNow "Annual"
          = Some (sampleNow + days * JSDate.msPerDay).
Proof.
  assert (H : - JSDate.maxTime <= sampleNow <= JSDate.maxTime)
    by (unfold JSDate.maxTime, sampleNow; lia).
  split; [exact H|].
  destruct (addPlanInterval_length 25200000 sampleNow "Annual" H)
    as (days & Hdays & _ & Hsome & _).
  exists days. simpl in Hdays. split; [exact Hdays|].
  apply Hsome. unfold JSDate.maxTime, JSDate.msPerDay, sampleNow. lia.
Defined.

Lemma getUtcDayStart_midnight_witness :
  - JSDate.maxTime <= sampleNow <= JSDate.maxTime
  /\ Subscriptions.getUtcDayStart sampleNow mod JSDate.msPerDay = 0
  /\ Subscriptions.getUtcDayStart sampleNow <= sampleNow
     < Subscriptions.getUtcDayStart sampleNow + JSDate.msPerDay.
Proof.
  assert (H : - JSDate.maxTime <= sampleNow <= JSDate.maxTime)
    by (unfold JSDate.maxTime, sampleNow; lia).
  split; [exact H|].
  destruct (getUtcDayStart_midnight sampleNow H) as (Hmid & _ & Hday).
  split; [exact Hmid | exact Hday].
Defined.

Lemma getUtcWeekStart_monday_witness :
  - JSDate.maxTime + 6 * JSDate.msPerDay <= sampleNow <= JSDate.maxTime
  /\ JSDate.getDay (Subscriptions.getUtcWeekStart sampleNow) = 1
  /\ Subscriptions.getUtcWeekStart sampleNow <= sampleNow
     < Subscriptions.getUtcWeekStart sampleNow + 7 * JSDate.msPerDay.
Proof.
  assert (H : - JSDate.maxTime + 6 * JSDate.msPerDay <= sampleNow <= JSDate.maxTime)
    by (unfold JSDate.maxTime, JSDate.msPerDay, sampleNow; lia).
  split; [exact H|].
  destruct (getUtcWeekStart_monday sampleNow H) as (Hmon & _ & _ & _ & Hweek).
  split; [exact Hmon | exact Hweek].
Defined.

Lemma cancel_removes_first_current_subscription_witness :
  NoDup (map sub_id (db_subscriptions sampleDb))
  /\ Subscriptions.findUserByEmail sampleDb (Subscriptions.normalizeEmail "Ann@Example.com")
     = Some sampleInvitee
  /\ Subscriptions.cres_body
       (fst (Subscriptions.handleCancelSubscription sampleDb sampleNow "Ann@Example.com"))
     = Subscriptions.CCanceled (Subscriptions.cancelRow sampleNow sampleOldSubscription).
Proof.
  assert (Hids : NoDup (map sub_id (db_subscriptions sampleDb))).
  { cbn. constructor; [cbn; intuition discriminate|].
    constructor; [cbn; tauto | constructor]. }
  assert (Huser : Subscriptions.findUserByEmail
                    sampleDb (Subscriptions.normalizeEmail "Ann@Example.com")
                  = Some sampleInvitee) by reflexivity.
  split; [exact Hids|]. split; [exact Huser|].
  pose proof (cancel_removes_first_current_subscription
                sampleDb sampleNow "Ann@Example.com" sampleInvitee
                Hids ltac:(discriminate) Huser) as H.
  destruct (Subscriptions.handleCancelSubscription sampleDb sampleNow "Ann@Example.com")
    as [response db'].
  destruct H as (_ & _ & _ & H).
  change (Subscriptions.getCurrentActiveSubscriptions sampleDb sampleNow
            (user_id sampleInvitee))
    with [sampleOldSubscription] in H.
  exact (proj1 H).
Defined.


Lemma invite_twice_is_one_invite_witness :
  let invite := {| inv_id := 6; inv_referrerUserId := 1;
                   inv_inviteeEmail := "bob@example.com"; inv_inviteeUserId := None;
                   inv_status := PENDING; inv_rewardedAt := None;
                   inv_referralCode := "c0ffee"; inv_createdAt := sampleNow |} in
  let db' := snd (Referrals.handleInvite
                    sampleDb sampleNow "c0ffee" "Ref@Example.com" " bob@example.com ") in
  Referrals.res_body
    (fst (Referrals.handleInvite
            sampleDb sampleNow "c0ffee" "Ref@Example.com" " bob@example.com "))
  = Referrals.BInvite invite
  /\ Referrals.handleInvite db' (sampleNow + 1000) "decaf" "Ref@Example.com" " bob@example.com "
     = ({| Referrals.res_status := 200; Referrals.res_body := Referrals.BInvite invite |}, db').
Proof.
  cbv zeta. split; [reflexivity|].
  apply (invite_twice_is_one_invite
           sampleDb sampleNow (sampleNow + 1000) "c0ffee" "decaf"
           "Ref@Example.com" " bob@example.com ").
  reflexivity.
Defined.

Lemma saved_profile_is_listed_witness :
  let db' := snd (ClientProfiles.handlePost
                    sampleProfileDb sampleNow "ann@example.com" "C-1" "bob@client.com" "Bobby") in
  exists profile profiles,
    ClientProfiles.res_body
      (fst (ClientProfiles.handlePost
              sampleProfileDb sampleNow "ann@example.com" "C-1" "bob@client.com" "Bobby"))
    = ClientProfiles.BProfile profile
    /\ ClientProfiles.handleGet db' (sampleNow + 1000) "ann@example.com"
       = ({| ClientProfiles.gres_status := 200;
             ClientProfiles.gres_body := ClientProfiles.GProfiles profiles |}, db')
    /\ In profile profiles.
Proof.
  cbv zeta.
  assert (Hpost : ClientProfiles.res_body
                    (fst (ClientProfiles.handlePost
                            sampleProfileDb sampleNow "ann@example.com" "C-1"
                            "bob@client.com" "Bobby"))
                  = ClientProfiles.BProfile
                      {| ClientProfiles.pj_id := 3; ClientProfiles.pj_clientId := "C-1";
                         ClientProfiles.pj_clientEmail := "bob@client.com";
                         ClientProfiles.pj_clientName := "Bobby";
                         ClientProfiles.pj_createdAt := 1690000000000;
                         ClientProfiles.pj_updatedAt := sampleNow |}) by reflexivity.
  destruct (saved_profile_is_listed
              sampleProfileDb sampleNow (sampleNow + 1000)
              "ann@example.com" "C-1" "bob@client.com" "Bobby" _
              ltac:(cbn; lia) Hpost) as (profiles & Hget & Hin).
  eexists. exists profiles. split; [exact Hpost|]. split; [exact Hget | exact Hin].
Defined.

Lemma sign_in_code_honoured_for_its_period_witness :
  emailMaySignIn sampleAuthEnv "ann@example.com"
  /\ Auth.verifyLoginCode sampleAuthEnv (sampleNow + 300000) "ann@example.com"
       (Auth.computeLoginCode (JS.toLowerCase (JS.trim "ann@example.com"))
          (Auth.getMagicLinkSecret sampleAuthEnv)
          (Auth.getLoginCodeSlot sampleNow (Auth.getMagicLinkTTLMinutes sampleAuthEnv)))
     = Auth.CodeAccepted (JS.toLowerCase (JS.trim "ann@example.com")).
Proof.
  assert (Hok : emailMaySignIn sampleAuthEnv "ann@example.com").
  { unfold emailMaySignIn. repeat split; try discriminate; try reflexivity. now left. }
  split; [exact Hok|].
  apply (sign_in_code_honoured_for_its_period
           sampleAuthEnv sampleNow (sampleNow + 300000) "ann@example.com" Hok).
  change (Auth.getMagicLinkTTLMinutes sampleAuthEnv) with 10. unfold sampleNow. lia.
Defined.

Lemma magic_link_valid_until_expiry_witness :
  let payload := Auth.magicLinkPayload "ann@example.com" sampleNow
                   (Auth.getMagicLinkTTLMinutes sampleAuthEnv)
                   "5f2d8c0a9b1e4f7a6c3d2e1f0a9b8c7d" in
  Auth.verifyMagicToken (Auth.signMagicToken payload "renpay-dev-secret")
                        "renpay-dev-secret" (sampleNow + 1000)
  = Some (Auth.Valid payload).
Proof.
  cbv zeta.
  destruct (magic_link_valid_until_expiry
              "renpay-dev-secret" sampleAuthEnv "ann@example.com"
              "5f2d8c0a9b1e4f7a6c3d2e1f0a9b8c7d" sampleNow (sampleNow + 1000)
              ltac:(discriminate) ltac:(unfold sampleNow; lia)) as (_ & _ & H & _).
  apply H. change (Auth.getMagicLinkTTLMinutes sampleAuthEnv) with 10.
  unfold sampleNow. lia.
Defined.

Lemma session_token_valid_for_fourteen_days_witness :
  Auth.verifySessionToken
    (Auth.createSessionToken "2" "Ann@Example.com" "renpay-dev-secret" sampleNow
                             "5f2d8c0a9b1e4f7a6c3d2e1f0a9b8c7d")
    "renpay-dev-secret" (sampleNow + 86400000)
  = Some (Auth.Valid (Auth.sessionPayload "2" "Ann@Example.com" sampleNow
                                          "5f2d8c0a9b1e4f7a6c3d2e1f0a9b8c7d")).
Proof.
  destruct (session_token_valid_for_fourteen_days
              "renpay-dev-secret" "2" "Ann@Example.com"
              "5f2d8c0a9b1e4f7a6c3d2e1f0a9b8c7d" sampleNow (sampleNow + 86400000)
              ltac:(discriminate) ltac:(discriminate) ltac:(unfold sampleNow; lia))
    as (H & _).
  exact (proj1 (H ltac:(unfold sampleNow; lia))).
Defined.
